(** * json-deep-dive: a shallow embedding of the viewer and its properties

    The development follows the TypeScript sources:
    - [src/utils/jsonUtils.ts]      : [getDataType], [safeJsonParse], [copyToClipboard]
    - [src/components/JsonNode.tsx] : the recursive tree node
    - [src/components/JsonViewer.tsx] : the viewer shell and its toolbar
    - [App]                         : tabs, the parse effect, clipboard paste, the theme

    Platform functions the sources call ([String.prototype.trim],
    [JSON.parse], [JSON.stringify], [Number::toString], [Date.now]) are
    modelled after ECMA-262 in the modules [JsString], [JsNumber] and
    [JSON]. *)

From Stdlib Require Import ZArith NArith List Bool Lia String Ascii Wf_nat.
From Stdlib Require DecimalZ.
From Stdlib Require Import SpecFloat Sorted.
Import ListNotations.

Set Warnings "-register-all".

Open Scope Z_scope.

(* ================================================================== *)
(** ** JavaScript strings: sequences of UTF-16 code units *)

Module JsString.

Definition jsstring := list N.

(** A literal: every character of the Rocq string is one code unit. *)
Definition lit (s : string) : jsstring :=
  map N_of_ascii (list_ascii_of_string s).

(** A literal in which the apostrophe stands for the double quote
    (code unit 34), used for JSON texts. *)
Definition jq (s : string) : jsstring :=
  map (fun c => if N.eqb c 39 then 34%N else c) (lit s).

Fixpoint eqb (a b : jsstring) : bool :=
  match a, b with
  | [], [] => true
  | x :: a', y :: b' => N.eqb x y && eqb a' b'
  | _, _ => false
  end.

(** ToBoolean on a string: only the empty string is falsy. *)
Definition truthy (s : jsstring) : bool :=
  match s with [] => false | _ :: _ => true end.

(** WhiteSpace and LineTerminator code points of ECMA-262, the set that
    [String.prototype.trim] strips. *)
Definition isWhiteSpace (c : N) : bool :=
  ((9 <=? c) && (c <=? 13) || (c =? 32) || (c =? 160) || (c =? 5760)
   || (8192 <=? c) && (c <=? 8202) || (c =? 8232) || (c =? 8233)
   || (c =? 8239) || (c =? 8287) || (c =? 12288) || (c =? 65279))%N.

Fixpoint trimStart (s : jsstring) : jsstring :=
  match s with
  | c :: r => if isWhiteSpace c then trimStart r else s
  | [] => []
  end.

Definition trimEnd (s : jsstring) : jsstring := rev (trimStart (rev s)).

Definition trim (s : jsstring) : jsstring := trimEnd (trimStart s).

(** Decimal digits of an integer, as [Number::toString] prints an
    integral Number below 10^21. *)
Fixpoint uintUnits (d : Decimal.uint) : jsstring :=
  match d with
  | Decimal.Nil => []
  | Decimal.D0 d => 48%N :: uintUnits d
  | Decimal.D1 d => 49%N :: uintUnits d
  | Decimal.D2 d => 50%N :: uintUnits d
  | Decimal.D3 d => 51%N :: uintUnits d
  | Decimal.D4 d => 52%N :: uintUnits d
  | Decimal.D5 d => 53%N :: uintUnits d
  | Decimal.D6 d => 54%N :: uintUnits d
  | Decimal.D7 d => 55%N :: uintUnits d
  | Decimal.D8 d => 56%N :: uintUnits d
  | Decimal.D9 d => 57%N :: uintUnits d
  end.

Definition intToString (z : Z) : jsstring :=
  match Z.to_int z with
  | Decimal.Pos d => uintUnits d
  | Decimal.Neg d => 45%N :: uintUnits d
  end.

(** Reading a decimal numeral back ([Number(id)] on such a string). *)
Fixpoint readUint (s : jsstring) : option Decimal.uint :=
  match s with
  | [] => Some Decimal.Nil
  | c :: r =>
      match readUint r with
      | None => None
      | Some d =>
          if (c =? 48)%N then Some (Decimal.D0 d)
          else if (c =? 49)%N then Some (Decimal.D1 d)
          else if (c =? 50)%N then Some (Decimal.D2 d)
          else if (c =? 51)%N then Some (Decimal.D3 d)
          else if (c =? 52)%N then Some (Decimal.D4 d)
          else if (c =? 53)%N then Some (Decimal.D5 d)
          else if (c =? 54)%N then Some (Decimal.D6 d)
          else if (c =? 55)%N then Some (Decimal.D7 d)
          else if (c =? 56)%N then Some (Decimal.D8 d)
          else if (c =? 57)%N then Some (Decimal.D9 d)
          else None
      end
  end.

Definition readInt (s : jsstring) : option Z :=
  match s with
  | c :: r =>
      if (c =? 45)%N
      then option_map (fun d => Z.of_int (Decimal.Neg d)) (readUint r)
      else option_map (fun d => Z.of_int (Decimal.Pos d)) (readUint s)
  | [] => None
  end.

End JsString.

Import JsString.

(* ================================================================== *)
(** ** JavaScript numbers: IEEE 754 binary64 *)

Module JsNumber.

Definition number := spec_float.

Definition prec : Z := 53.
Definition emax : Z := 1024.

Definition NaN : number := S754_nan.
Definition Infinity : number := S754_infinity false.

Definition isFinite (x : number) : bool :=
  match x with
  | S754_zero _ | S754_finite _ _ _ => true
  | S754_infinity _ | S754_nan => false
  end.

(** IsStrictlyEqual on Numbers ([===]): [-0 === 0], [NaN !== NaN]. *)
Definition strictEq (x y : number) : bool := SFeqb x y.

(** SameValue on Numbers ([Object.is]): structural identity. *)
Definition sameValue (x y : number) : bool :=
  match x, y with
  | S754_zero a, S754_zero b => Bool.eqb a b
  | S754_infinity a, S754_infinity b => Bool.eqb a b
  | S754_nan, S754_nan => true
  | S754_finite a m e, S754_finite b m' e' =>
      Bool.eqb a b && Pos.eqb m m' && Z.eqb e e'
  | _, _ => false
  end.

(** A finite binary64 value [m * 2^e] in its canonical form: fewer
    than 54 bits of mantissa, the exponent in range, and a full
    mantissa unless the exponent is the least one. *)
Definition binary64 (m : positive) (e : Z) : bool :=
  (Zpos m <? 2 ^ prec) && (-1074 <=? e) && (e <=? emax - prec)
  && ((2 ^ (prec - 1) <=? Zpos m) || (e =? -1074)).

(** The values a Number can take: the zeros, the infinities, NaN and
    the canonical finite ones. *)
Definition validNumber (x : number) : bool :=
  match x with
  | S754_finite _ m e => binary64 m e
  | _ => true
  end.

(** The binary exponent [t], counted from the least subnormal
    [2^-1074], of the binade of [A / B]: the least [t >= 0] with
    [A / B < 2^(53 + t)]. *)
Definition shiftOf (A B : Z) : Z :=
  let t0 := Z.max 0 (Z.log2 A - Z.log2 B - 53) in
  if A <? B * 2 ^ (53 + t0) then t0 else t0 + 1.

(** Round to nearest, ties to even: [m0] is the quotient rounded down
    and [c] compares twice the remainder with the divisor. *)
Definition roundHalfEven (m0 : Z) (c : comparison) : Z :=
  match c with
  | Lt => m0
  | Gt => m0 + 1
  | Eq => if Z.even m0 then m0 else m0 + 1
  end.

(** The Number value of the fraction [num / den], rounded to nearest,
    ties to even, overflowing to an infinity: with both scaled so that
    the least subnormal is 1, the quotient by the unit of the binade,
    rounded, and carried into the next binade when it reaches [2^53]. *)
Definition ofFraction (neg : bool) (num den : positive) : number :=
  let A := Zpos num * 2 ^ 1074 in
  let B := Zpos den in
  let t := shiftOf A B in
  let d := B * 2 ^ t in
  let m := roundHalfEven (A / d) (2 * (A mod d) ?= d) in
  let '(m, t) := if m =? 2 ^ 53 then (2 ^ 52, t + 1) else (m, t) in
  match m with
  | Zpos p => if t <=? 2045 then S754_finite neg p (t - 1074) else S754_infinity neg
  | _ => S754_zero neg
  end.

(** The Number value of the decimal [m * 10^e10] (StringToNumber on a
    decimal literal with digits [m] and exponent [e10]). *)
Definition ofDecimal (neg : bool) (m : N) (e10 : Z) : number :=
  match m with
  | N0 => S754_zero neg
  | Npos p =>
      if 0 <=? e10
      then ofFraction neg (p * Z.to_pos (10 ^ e10)) 1
      else ofFraction neg p (Z.to_pos (10 ^ (- e10)))
  end.


(** *** Number::toString, radix 10 *)

(** [ltPow10 num den n]: is [num / den < 10^n] ? *)
Definition ltPow10 (num den n : Z) : bool :=
  if 0 <=? n then num <? den * 10 ^ n else num * 10 ^ (- n) <? den.

(** The [n] with [10^(n-1) <= num/den < 10^n], searched from [n]. *)
Fixpoint decimalExponent (fuel : nat) (num den n : Z) : Z :=
  match fuel with
  | O => n
  | S f =>
      if ltPow10 num den n
      then if ltPow10 num den (n - 1)
           then decimalExponent f num den (n - 1)
           else n
      else decimalExponent f num den (n + 1)
  end.

(** For [k] digits: the two [k]-digit decimals [s * 10^(n-k)] around
    [x = num/den], with the remainder of the lower one that tells which
    is closer.  Returns [(sLo, 2 * rem ?= unit)]. *)
Definition scaledFloor (num den n k : Z) : Z * comparison :=
  let j := n - k in
  let a := if 0 <=? j then num else num * 10 ^ (- j) in
  let b := if 0 <=? j then den * 10 ^ j else den in
  (a / b, (2 * (a mod b)) ?= b).

(** Does the decimal [s * 10^(n-k)] denote [x] ? *)
Definition denotes (x : number) (s n k : Z) : bool :=
  sameValue (ofDecimal false (Z.to_N s) (n - k)) x.

(** The digits [(s, n)] for a given length [k], if a [k]-digit decimal
    denotes [x]; the closer of the two candidates, the even one on a tie. *)
Definition digitsOfLength (x : number) (num den n k : Z) : option (Z * Z) :=
  let '(lo, c) := scaledFloor num den n k in
  let hi := lo + 1 in
  (* the upper candidate may carry into one more integer digit *)
  let '(hiS, hiN) := if hi =? 10 ^ k then (10 ^ (k - 1), n + 1) else (hi, n) in
  let okLo := denotes x lo n k in
  let okHi := denotes x hiS hiN k in
  match okLo, okHi with
  | true, false => Some (lo, n)
  | false, true => Some (hiS, hiN)
  | false, false => None
  | true, true =>
      match c with
      | Lt => Some (lo, n)
      | Gt => Some (hiS, hiN)
      | Eq => if Z.even lo then Some (lo, n) else Some (hiS, hiN)
      end
  end.

(** The least [k >= from] with a [k]-digit decimal denoting [x]. *)
Fixpoint shortest (fuel : nat) (x : number) (num den n k : Z)
  : option (Z * Z * Z) :=
  match fuel with
  | O => None
  | S f =>
      match digitsOfLength x num den n k with
      | Some (s, n') => Some (s, n', k)
      | None => shortest f x num den n (k + 1)
      end
  end.

(** [k] decimal digits of [s], most significant first. *)
Fixpoint digitUnits (k : nat) (s : Z) : jsstring :=
  match k with
  | O => []
  | S k' => digitUnits k' (s / 10) ++ [Z.to_N (48 + s mod 10)]
  end.

Definition zeros (n : Z) : jsstring := repeat 48%N (Z.to_nat n).

(** Steps 6 to 10 of Number::toString for digits [s] of length [k] and
    decimal point position [n]. *)
Definition formatDigits (s n k : Z) : jsstring :=
  let ds := digitUnits (Z.to_nat k) s in
  if (k <=? n) && (n <=? 21) then ds ++ zeros (n - k)
  else if (0 <? n) && (n <=? 21)
  then firstn (Z.to_nat n) ds ++ [46%N] ++ skipn (Z.to_nat n) ds
  else if (-6 <? n) && (n <=? 0)
  then [48%N; 46%N] ++ zeros (- n) ++ ds
  else
    let e := n - 1 in
    let sign := if 0 <=? e then 43%N else 45%N in
    let ex := sign :: intToString (Z.abs e) in
    if k =? 1 then ds ++ [101%N] ++ ex
    else firstn 1 ds ++ [46%N] ++ skipn 1 ds ++ [101%N] ++ ex.

(** The digit triple of a positive finite Number [m * 2^e].  Seventeen
    digits always suffice for binary64; the [None] case of [shortest]
    is kept only to make the search total. *)
Definition shortestDigits (m : positive) (e : Z) : option (Z * Z * Z) :=
  let x := S754_finite false m e in
  let num := if 0 <=? e then Zpos m * 2 ^ e else Zpos m in
  let den := if 0 <=? e then 1 else 2 ^ (- e) in
  let n := decimalExponent 800 num den 0 in
  shortest 17 x num den n 1.

Definition toStringPositive (m : positive) (e : Z) : jsstring :=
  match shortestDigits m e with
  | Some (s, n, k) => formatDigits s n k
  | None => lit "NaN"
  end.

Definition toString (x : number) : jsstring :=
  match x with
  | S754_nan => lit "NaN"
  | S754_zero _ => lit "0"
  | S754_infinity false => lit "Infinity"
  | S754_infinity true => lit "-Infinity"
  | S754_finite false m e => toStringPositive m e
  | S754_finite true m e => 45%N :: toStringPositive m e
  end.

End JsNumber.

Import JsNumber.

(* ================================================================== *)
(** ** Exceptions: a JavaScript completion is normal or abrupt *)

(** What a [catch] clause receives: an [Error] object ([err instanceof
    Error]) with its name and message, or any other thrown value. *)
Inductive Thrown :=
| ErrorObject (name message : jsstring)
| NonError.

Inductive Completion (A : Type) :=
| Normal (a : A)
| Throw (e : Thrown).

Arguments Normal {A} a.
Arguments Throw {A} e.

Definition bind {A B} (c : Completion A) (k : A -> Completion B)
  : Completion B :=
  match c with
  | Normal a => k a
  | Throw e => Throw e
  end.

(** [try { body } catch (err) { handler err }] *)
Definition tryCatch {A} (body : Completion A)
  (handler : Thrown -> Completion A) : Completion A :=
  match body with
  | Normal a => Normal a
  | Throw e => handler e
  end.

(* ================================================================== *)
(** ** types.ts *)

Inductive JsonValue :=
| JNull
| JBoolean (b : bool)
| JNumber (n : number)
| JString (s : jsstring)
| JArray (items : list JsonValue)
| JObject (props : list (jsstring * JsonValue)).

Inductive DataType :=
| STRING | NUMBER | BOOLEAN | NULL | OBJECT | ARRAY | UNKNOWN.

(** *** Own properties of an ordinary object

    A [JsonObject] is the list of its own enumerable properties in the
    order [Object.keys]/[Object.entries] report them: array-index keys
    first, ascending, then the other keys in creation order. *)

(** The array index a property key denotes, if it is the canonical
    numeral of an integer below 2^32 - 1. *)
Definition arrayIndex (k : jsstring) : option Z :=
  match readInt k with
  | Some z =>
      if (0 <=? z) && (z <? 4294967295) && JsString.eqb (intToString z) k
      then Some z else None
  | None => None
  end.

Fixpoint hasProp (k : jsstring) (props : list (jsstring * JsonValue)) : bool :=
  match props with
  | [] => false
  | (k', _) :: r => JsString.eqb k' k || hasProp k r
  end.

Fixpoint replaceProp (k : jsstring) (v : JsonValue)
  (props : list (jsstring * JsonValue)) : list (jsstring * JsonValue) :=
  match props with
  | [] => []
  | (k', v') :: r =>
      if JsString.eqb k' k then (k', v) :: r
      else (k', v') :: replaceProp k v r
  end.

(** A new array-index key goes before the first key that is a larger
    index or not an index at all. *)
Fixpoint insertIndexProp (i : Z) (k : jsstring) (v : JsonValue)
  (props : list (jsstring * JsonValue)) : list (jsstring * JsonValue) :=
  match props with
  | [] => [(k, v)]
  | (k', v') :: r =>
      match arrayIndex k' with
      | Some j =>
          if i <? j then (k, v) :: props
          else (k', v') :: insertIndexProp i k v r
      | None => (k, v) :: props
      end
  end.

(** CreateDataProperty: overwrite in place, or create. *)
Definition setProp (k : jsstring) (v : JsonValue)
  (props : list (jsstring * JsonValue)) : list (jsstring * JsonValue) :=
  if hasProp k props then replaceProp k v props
  else match arrayIndex k with
       | Some i => insertIndexProp i k v props
       | None => props ++ [(k, v)]
       end.

(* ================================================================== *)
(** ** The JSON object of the platform *)

Module JSON.

Inductive SyntaxError :=
| UnexpectedEnd
| UnexpectedToken (c : N).

Definition message (e : SyntaxError) : jsstring :=
  match e with
  | UnexpectedEnd => lit "Unexpected end of JSON input"
  | UnexpectedToken c => lit "Unexpected token " ++ [c] ++ lit " in JSON"
  end.

(** Outcome of a parsing function: a result and the unread input, a
    syntax error, or recursion budget exhausted. *)
Inductive Step (A : Type) :=
| Done (a : A) (rest : jsstring)
| Fail (e : SyntaxError)
| Fuel.

Arguments Done {A} a rest.
Arguments Fail {A} e.
Arguments Fuel {A}.

Definition unexpected {A} (s : jsstring) : Step A :=
  match s with
  | [] => Fail UnexpectedEnd
  | c :: _ => Fail (UnexpectedToken c)
  end.

(** JSON whitespace: tab, line feed, carriage return, space. *)
Definition isWs (c : N) : bool :=
  ((c =? 9) || (c =? 10) || (c =? 13) || (c =? 32))%N.

Fixpoint skipWs (s : jsstring) : jsstring :=
  match s with
  | c :: r => if isWs c then skipWs r else s
  | [] => []
  end.

(** *** Strings *)

Definition hexValue (c : N) : option N :=
  if ((48 <=? c) && (c <=? 57))%N then Some (c - 48)%N
  else if ((97 <=? c) && (c <=? 102))%N then Some (c - 87)%N
  else if ((65 <=? c) && (c <=? 70))%N then Some (c - 55)%N
  else None.

Definition hex4 (a b c d : N) : option N :=
  match hexValue a, hexValue b, hexValue c, hexValue d with
  | Some x, Some y, Some z, Some w => Some (((x * 16 + y) * 16 + z) * 16 + w)%N
  | _, _, _, _ => None
  end.

(** The character a single-character escape stands for. *)
Definition unescape (e : N) : option N :=
  if (e =? 34)%N then Some 34%N
  else if (e =? 92)%N then Some 92%N
  else if (e =? 47)%N then Some 47%N
  else if (e =? 98)%N then Some 8%N
  else if (e =? 102)%N then Some 12%N
  else if (e =? 110)%N then Some 10%N
  else if (e =? 114)%N then Some 13%N
  else if (e =? 116)%N then Some 9%N
  else None.

(** The characters of a string after its opening quote, up to and
    including the closing quote; [acc] holds what was read, reversed. *)
Fixpoint parseStringBody (s : jsstring) (acc : jsstring) : Step jsstring :=
  match s with
  | [] => Fail UnexpectedEnd
  | c :: r =>
      if (c =? 34)%N then Done (rev acc) r
      else if (c =? 92)%N then
        match r with
        | [] => Fail UnexpectedEnd
        | e :: r1 =>
            if (e =? 117)%N then
              match r1 with
              | h1 :: h2 :: h3 :: h4 :: r2 =>
                  match hex4 h1 h2 h3 h4 with
                  | Some u => parseStringBody r2 (u :: acc)
                  | None => Fail (UnexpectedToken h1)
                  end
              | _ => Fail UnexpectedEnd
              end
            else
              match unescape e with
              | Some u => parseStringBody r1 (u :: acc)
              | None => Fail (UnexpectedToken e)
              end
        end
      else if (c <? 32)%N then Fail (UnexpectedToken c)
      else parseStringBody r (c :: acc)
  end.

(** *** Numbers *)

Definition isDigit (c : N) : bool := ((48 <=? c) && (c <=? 57))%N.

Fixpoint spanDigits (s : jsstring) : jsstring * jsstring :=
  match s with
  | c :: r =>
      if isDigit c
      then let '(ds, r') := spanDigits r in (c :: ds, r')
      else ([], s)
  | [] => ([], [])
  end.

Definition digitsValue (ds : jsstring) : N :=
  fold_left (fun a c => (10 * a + (c - 48))%N) ds 0%N.

(** The integer part: a single 0, or a digit 1-9 and more digits. *)
Definition scanInt (s : jsstring) : Step jsstring :=
  match s with
  | [] => Fail UnexpectedEnd
  | c :: r =>
      if (c =? 48)%N then Done [c] r
      else if isDigit c then let '(ds, r') := spanDigits r in Done (c :: ds) r'
      else Fail (UnexpectedToken c)
  end.

(** The optional fraction: a point and at least one digit. *)
Definition scanFrac (s : jsstring) : Step jsstring :=
  match s with
  | c :: r =>
      if (c =? 46)%N then
        match spanDigits r with
        | ([], r') => unexpected r'
        | (ds, r') => Done ds r'
        end
      else Done [] s
  | [] => Done [] s
  end.

(** The optional exponent: e or E, an optional sign, at least one digit. *)
Definition scanExp (s : jsstring) : Step Z :=
  match s with
  | c :: r =>
      if ((c =? 101) || (c =? 69))%N then
        let '(neg, r1) :=
          match r with
          | x :: r' =>
              if (x =? 43)%N then (false, r')
              else if (x =? 45)%N then (true, r')
              else (false, r)
          | [] => (false, r)
          end in
        match spanDigits r1 with
        | ([], r2) => unexpected r2
        | (ds, r2) =>
            let e := Z.of_N (digitsValue ds) in
            Done (if neg then - e else e) r2
        end
      else Done 0 s
  | [] => Done 0 s
  end.

(** The digits of a number token, after its sign. *)
Definition scanMagnitude (neg : bool) (s1 : jsstring) : Step number :=
  match scanInt s1 with
  | Done int s2 =>
      match scanFrac s2 with
      | Done frac s3 =>
          match scanExp s3 with
          | Done e s4 =>
              Done (ofDecimal neg (digitsValue (int ++ frac))
                      (e - Z.of_nat (List.length frac))) s4
          | Fail err => Fail err
          | Fuel => Fuel
          end
      | Fail err => Fail err
      | Fuel => Fuel
      end
  | Fail err => Fail err
  | Fuel => Fuel
  end.

Definition scanNumber (s : jsstring) : Step number :=
  let '(neg, s1) :=
    match s with
    | c :: r => if (c =? 45)%N then (true, r) else (false, s)
    | [] => (false, s)
    end in
  scanMagnitude neg s1.

(** *** Values *)

Fixpoint expect (w s : jsstring) : Step unit :=
  match w with
  | [] => Done tt s
  | x :: w' =>
      match s with
      | [] => Fail UnexpectedEnd
      | c :: r => if (c =? x)%N then expect w' r else Fail (UnexpectedToken c)
      end
  end.

Definition keyword (w : string) (v : JsonValue) (s : jsstring) : Step JsonValue :=
  match expect (lit w) s with
  | Done _ r => Done v r
  | Fail e => Fail e
  | Fuel => Fuel
  end.

Fixpoint parseValue (fuel : nat) (s : jsstring) {struct fuel} : Step JsonValue :=
  match fuel with
  | O => Fuel
  | S f =>
      match skipWs s with
      | [] => Fail UnexpectedEnd
      | c :: r =>
          if (c =? 123)%N then
            match skipWs r with
            | [] => Fail UnexpectedEnd
            | c' :: r' =>
                if (c' =? 125)%N then Done (JObject []) r'
                else parseMembers f (c' :: r') []
            end
          else if (c =? 91)%N then
            match skipWs r with
            | [] => Fail UnexpectedEnd
            | c' :: r' =>
                if (c' =? 93)%N then Done (JArray []) r'
                else parseElements f (c' :: r') []
            end
          else if (c =? 34)%N then
            match parseStringBody r [] with
            | Done str r' => Done (JString str) r'
            | Fail e => Fail e
            | Fuel => Fuel
            end
          else if (c =? 116)%N then keyword "rue" (JBoolean true) r
          else if (c =? 102)%N then keyword "alse" (JBoolean false) r
          else if (c =? 110)%N then keyword "ull" JNull r
          else if (c =? 45)%N || isDigit c then
            match scanNumber (c :: r) with
            | Done x r' => Done (JNumber x) r'
            | Fail e => Fail e
            | Fuel => Fuel
            end
          else Fail (UnexpectedToken c)
      end
  end

(** Elements of a non-empty array up to the closing bracket; [acc]
    holds the elements read, reversed. *)
with parseElements (fuel : nat) (s : jsstring) (acc : list JsonValue)
  {struct fuel} : Step JsonValue :=
  match fuel with
  | O => Fuel
  | S f =>
      match parseValue f s with
      | Done v r =>
          match skipWs r with
          | [] => Fail UnexpectedEnd
          | c :: r' =>
              if (c =? 44)%N then parseElements f r' (v :: acc)
              else if (c =? 93)%N then Done (JArray (rev (v :: acc))) r'
              else Fail (UnexpectedToken c)
          end
      | Fail e => Fail e
      | Fuel => Fuel
      end
  end

(** Members of a non-empty object up to the closing brace; [acc] is the
    object built so far. *)
with parseMembers (fuel : nat) (s : jsstring)
  (acc : list (jsstring * JsonValue)) {struct fuel} : Step JsonValue :=
  match fuel with
  | O => Fuel
  | S f =>
      match skipWs s with
      | [] => Fail UnexpectedEnd
      | q :: r0 =>
          if (q =? 34)%N then
            match parseStringBody r0 [] with
            | Done k r1 =>
                match skipWs r1 with
                | [] => Fail UnexpectedEnd
                | c1 :: r2 =>
                    if (c1 =? 58)%N then
                      match parseValue f r2 with
                      | Done v r3 =>
                          match skipWs r3 with
                          | [] => Fail UnexpectedEnd
                          | c2 :: r4 =>
                              if (c2 =? 44)%N
                              then parseMembers f r4 (setProp k v acc)
                              else if (c2 =? 125)%N
                              then Done (JObject (setProp k v acc)) r4
                              else Fail (UnexpectedToken c2)
                          end
                      | Fail e => Fail e
                      | Fuel => Fuel
                      end
                    else Fail (UnexpectedToken c1)
                end
            | Fail e => Fail e
            | Fuel => Fuel
            end
          else Fail (UnexpectedToken q)
      end
  end.

(** Recursion budget for a text: every recursive call is made after at
    least one character was consumed, see [parseValue_budget]. *)
Definition budget (text : jsstring) : nat := 2 * List.length text + 1.

Definition syntaxError (e : SyntaxError) : Thrown :=
  ErrorObject (lit "SyntaxError") (message e).

(** [JSON.parse(text)]: one value between optional whitespace. *)
Definition parse (text : jsstring) : Completion JsonValue :=
  match parseValue (budget text) text with
  | Done v rest =>
      match skipWs rest with
      | [] => Normal v
      | c :: _ => Throw (syntaxError (UnexpectedToken c))
      end
  | Fail e => Throw (syntaxError e)
  | Fuel => Throw (syntaxError UnexpectedEnd)
  end.

(** *** JSON.stringify *)

Definition hexDigit (n : N) : N := (if n <? 10 then 48 + n else 87 + n)%N.

Definition unicodeEscape (c : N) : jsstring :=
  [92; 117; hexDigit (c / 4096 mod 16); hexDigit (c / 256 mod 16);
   hexDigit (c / 16 mod 16); hexDigit (c mod 16)]%N.

Definition isLeadingSurrogate (c : N) : bool := ((55296 <=? c) && (c <=? 56319))%N.
Definition isTrailingSurrogate (c : N) : bool := ((56320 <=? c) && (c <=? 57343))%N.

(** One code unit that is not half of a surrogate pair. *)
Definition escapeUnit (c : N) : jsstring :=
  if (c =? 8)%N then [92; 98]%N
  else if (c =? 9)%N then [92; 116]%N
  else if (c =? 10)%N then [92; 110]%N
  else if (c =? 12)%N then [92; 102]%N
  else if (c =? 13)%N then [92; 114]%N
  else if (c =? 34)%N then [92; 34]%N
  else if (c =? 92)%N then [92; 92]%N
  else if (c <? 32)%N || isLeadingSurrogate c || isTrailingSurrogate c
  then unicodeEscape c
  else [c].

Fixpoint quoteUnits (s : jsstring) : jsstring :=
  match s with
  | [] => []
  | c :: r =>
      match r with
      | d :: r' =>
          if isLeadingSurrogate c && isTrailingSurrogate d
          then c :: d :: quoteUnits r'
          else escapeUnit c ++ quoteUnits r
      | [] => escapeUnit c
      end
  end.

Definition QuoteJSONString (s : jsstring) : jsstring :=
  34%N :: quoteUnits s ++ [34%N].

Fixpoint join (sep : jsstring) (parts : list jsstring) : jsstring :=
  match parts with
  | [] => []
  | [p] => p
  | p :: r => p ++ sep ++ join sep r
  end.

(** A non-empty array or object: its parts between the brackets, one
    per line at [indent] when there is a [gap]. *)
Definition wrap (opening closing : N) (gap stepback indent : jsstring)
  (parts : list jsstring) : jsstring :=
  match gap with
  | [] => opening :: join [44%N] parts ++ [closing]
  | _ :: _ =>
      opening :: 10%N :: indent ++ join (44%N :: 10%N :: indent) parts
        ++ 10%N :: stepback ++ [closing]
  end.

(** SerializeJSONProperty on a [JsonValue], at indentation [indent]. *)
Fixpoint serialize (gap indent : jsstring) (v : JsonValue) : jsstring :=
  match v with
  | JNull => lit "null"
  | JBoolean true => lit "true"
  | JBoolean false => lit "false"
  | JNumber x => if isFinite x then toString x else lit "null"
  | JString s => QuoteJSONString s
  | JArray [] => lit "[]"
  | JArray items =>
      wrap 91%N 93%N gap indent (indent ++ gap)
        (map (serialize gap (indent ++ gap)) items)
  | JObject [] => lit "{}"
  | JObject props =>
      wrap 123%N 125%N gap indent (indent ++ gap)
        (map (fun kv =>
                QuoteJSONString (fst kv) ++ 58%N
                  :: match gap with [] => [] | _ :: _ => [32%N] end
                  ++ serialize gap (indent ++ gap) (snd kv)) props)
  end.

(** [JSON.stringify(value, null, space)] for a number [space]: the gap
    is [min(10, space)] spaces. *)
Definition stringify (v : JsonValue) (space : Z) : jsstring :=
  serialize (repeat 32%N (Z.to_nat (Z.min 10 space))) [] v.

End JSON.

(* ================================================================== *)
(** ** The platform clipboard ([navigator.clipboard]) *)

Record Clipboard := {
  available : bool;      (* is [navigator.clipboard] defined *)
  readGranted : bool;    (* does [readText] resolve *)
  writeGranted : bool;   (* does [writeText] resolve *)
  clipText : jsstring
}.

Definition readText (cb : Clipboard) : Completion jsstring :=
  if readGranted cb then Normal (clipText cb)
  else Throw (ErrorObject (lit "NotAllowedError") (lit "Read permission denied.")).

Definition writeText (text : jsstring) (cb : Clipboard)
  : Completion unit * Clipboard :=
  if negb (available cb)
  then (Throw (ErrorObject (lit "TypeError")
                 (lit "Cannot read properties of undefined")), cb)
  else if negb (writeGranted cb)
  then (Throw (ErrorObject (lit "NotAllowedError")
                 (lit "Write permission denied.")), cb)
  else (Normal tt,
        {| available := available cb; readGranted := readGranted cb;
           writeGranted := writeGranted cb; clipText := text |}).

(* ================================================================== *)
(** ** utils/jsonUtils.ts *)

Definition getDataType (value : JsonValue) : DataType :=
  match value with
  | JNull => NULL
  | JArray _ => ARRAY
  | JObject _ => OBJECT
  | JString _ => STRING
  | JNumber _ => NUMBER
  | JBoolean _ => BOOLEAN
  end.

Record ParseResult := {
  parsed : option JsonValue;     (* [JsonValue | undefined] *)
  error : option jsstring        (* [string | null] *)
}.

Definition safeJsonParse (input : jsstring) : Completion ParseResult :=
  tryCatch
    (bind (JSON.parse input) (fun parsed =>
     Normal {| parsed := Some parsed; error := None |}))
    (fun err =>
       let errorMessage :=
         match err with
         | ErrorObject _ message => message
         | NonError => lit "Invalid JSON"
         end in
       Normal {| parsed := None; error := Some errorMessage |}).

Definition copyToClipboard (text : jsstring) (cb : Clipboard)
  : bool * Clipboard :=
  match writeText text cb with
  | (Normal _, cb') => (true, cb')
  | (Throw _, cb') => (false, cb')
  end.

(* ================================================================== *)
(** ** components/JsonNode.tsx *)

Record JsonNodeProps := {
  keyName : option jsstring;
  value : JsonValue;
  depth : Z;
  isLast : bool;
  expandAllSignal : Z;
  collapseAllSignal : Z
}.

Record JsonNodeState := {
  expanded : bool;
  hovered : bool;
  copied : bool
}.

(** The dependency arrays React keeps for the two [useEffect] hooks. *)
Record EffectDeps := {
  expandDep : Z;
  collapseDep : Z
}.

(** A mounted component instance with the instances of the children it
    rendered. *)
Inductive Instance :=
| mkInstance (props : JsonNodeProps) (state : JsonNodeState)
    (deps : EffectDeps) (children : list Instance).

Definition instProps (n : Instance) : JsonNodeProps :=
  match n with mkInstance p _ _ _ => p end.
Definition instState (n : Instance) : JsonNodeState :=
  match n with mkInstance _ st _ _ => st end.
Definition instDeps (n : Instance) : EffectDeps :=
  match n with mkInstance _ _ d _ => d end.
Definition instChildren (n : Instance) : list Instance :=
  match n with mkInstance _ _ _ kids => kids end.

(** [useState(depth < 2)], [useState(false)], [useState(false)] *)
Definition initialState (p : JsonNodeProps) : JsonNodeState :=
  {| expanded := depth p <? 2; hovered := false; copied := false |}.

Definition setExpanded (b : bool) (st : JsonNodeState) : JsonNodeState :=
  {| expanded := b; hovered := hovered st; copied := copied st |}.

Definition setCopied (b : bool) (st : JsonNodeState) : JsonNodeState :=
  {| expanded := expanded st; hovered := hovered st; copied := b |}.

Definition isExpandable (p : JsonNodeProps) : bool :=
  match getDataType (value p) with
  | OBJECT | ARRAY => true
  | _ => false
  end.

(** [Object.entries(value)] of a container. *)
Fixpoint indexed (i : Z) (items : list JsonValue) : list (jsstring * JsonValue) :=
  match items with
  | [] => []
  | x :: r => (intToString i, x) :: indexed (i + 1) r
  end.

Definition entries (v : JsonValue) : list (jsstring * JsonValue) :=
  match v with
  | JArray items => indexed 0 items
  | JObject props => props
  | _ => []
  end.

Definition isEmpty (p : JsonNodeProps) : bool :=
  isExpandable p && (Z.of_nat (List.length (entries (value p))) =? 0).

(** The two effects, in the order the component declares them. *)
Definition expandEffect (p : JsonNodeProps) (st : JsonNodeState) : JsonNodeState :=
  if 0 <? expandAllSignal p then setExpanded true st else st.

Definition collapseEffect (p : JsonNodeProps) (st : JsonNodeState) : JsonNodeState :=
  if 0 <? collapseAllSignal p then setExpanded false st else st.

Definition depsOf (p : JsonNodeProps) : EffectDeps :=
  {| expandDep := expandAllSignal p; collapseDep := collapseAllSignal p |}.

(** After mount every effect runs. *)
Definition mountEffects (p : JsonNodeProps) (st : JsonNodeState) : JsonNodeState :=
  collapseEffect p (expandEffect p st).

(** After an update an effect runs when its dependency changed. *)
Definition updateEffects (old : EffectDeps) (p : JsonNodeProps)
  (st : JsonNodeState) : JsonNodeState :=
  let st1 := if expandAllSignal p =? expandDep old then st else expandEffect p st in
  if collapseAllSignal p =? collapseDep old then st1 else collapseEffect p st1.

Definition handleToggle (st : JsonNodeState) : JsonNodeState :=
  setExpanded (negb (expanded st)) st.

(** The text [handleCopyValue] hands to [copyToClipboard]. *)
Definition textToCopy (p : JsonNodeProps) : jsstring :=
  match getDataType (value p), value p with
  | STRING, JString s => s                      (* String(value) *)
  | _, v => JSON.stringify v 2
  end.

Definition handleCopyValue (p : JsonNodeProps) (st : JsonNodeState)
  (cb : Clipboard) : JsonNodeState * Clipboard :=
  let '(success, cb') := copyToClipboard (textToCopy p) cb in
  (if success then setCopied true st else st, cb').

(** Props of the child nodes, as the JSX maps over [childEntries]. *)
Fixpoint childPropsFrom (p : JsonNodeProps) (len : Z) (index : Z)
  (es : list (jsstring * JsonValue)) : list JsonNodeProps :=
  match es with
  | [] => []
  | (key, val) :: r =>
      {| keyName := match getDataType (value p) with
                    | ARRAY => None
                    | _ => Some key
                    end;
         value := val;
         depth := depth p + 1;
         isLast := index =? len - 1;
         expandAllSignal := expandAllSignal p;
         collapseAllSignal := collapseAllSignal p |}
        :: childPropsFrom p len (index + 1) r
  end.

Definition childProps (p : JsonNodeProps) : list JsonNodeProps :=
  let childEntries := entries (value p) in
  childPropsFrom p (Z.of_nat (List.length childEntries)) 0 childEntries.

(** Mounting a node: initial state, children while expanded, then the
    mount effects; the result is the tree once the effects' state
    updates are rendered. *)
Fixpoint mount (keyName : option jsstring) (value : JsonValue) (depth : Z)
  (isLast : bool) (expandAllSignal collapseAllSignal : Z) {struct value}
  : Instance :=
  let p := {| keyName := keyName; value := value; depth := depth;
              isLast := isLast; expandAllSignal := expandAllSignal;
              collapseAllSignal := collapseAllSignal |} in
  let st := mountEffects p (initialState p) in
  let kids :=
    match value with
    | JArray items =>
        (fix each (index : Z) (l : list JsonValue) : list Instance :=
           match l with
           | [] => []
           | val :: l' =>
               mount None val (depth + 1)
                 (index =? Z.of_nat (List.length items) - 1)
                 expandAllSignal collapseAllSignal
                 :: each (index + 1) l'
           end) 0 items
    | JObject props =>
        (fix each (index : Z) (l : list (jsstring * JsonValue)) : list Instance :=
           match l with
           | [] => []
           | (key, val) :: l' =>
               mount (Some key) val (depth + 1)
                 (index =? Z.of_nat (List.length props) - 1)
                 expandAllSignal collapseAllSignal
                 :: each (index + 1) l'
           end) 0 props
    | _ => []
    end in
  mkInstance p st (depsOf p)
    (if expanded st && negb (isEmpty p) then kids else []).

Definition mountProps (p : JsonNodeProps) : Instance :=
  mount (keyName p) (value p) (depth p) (isLast p)
    (expandAllSignal p) (collapseAllSignal p).

Definition withSignals (p : JsonNodeProps) (e c : Z) : JsonNodeProps :=
  {| keyName := keyName p; value := value p; depth := depth p;
     isLast := isLast p; expandAllSignal := e; collapseAllSignal := c |}.

(** Re-rendering a mounted tree with new signal values: mounted nodes
    run the effects whose dependency changed; children of a node that
    stays expanded are updated, children of a node that becomes
    expanded are mounted, children of a collapsed node are unmounted. *)
Fixpoint update (n : Instance) (e c : Z) : Instance :=
  match n with
  | mkInstance p st d kids =>
      let p' := withSignals p e c in
      let st' := updateEffects d p' st in
      mkInstance p' st' (depsOf p')
        (if expanded st' && negb (isEmpty p')
         then if expanded st
              then map (fun k => update k e c) kids
              else map mountProps (childProps p')
         else [])
  end.

(** Clicking the header row of the node at the root of [n]:
    [handleToggle], then its children are mounted or unmounted. *)
Definition toggle (n : Instance) : Instance :=
  match n with
  | mkInstance p st d kids =>
      let st' := handleToggle st in
      mkInstance p st' d
        (if expanded st' && negb (isEmpty p)
         then map mountProps (childProps p) else [])
  end.

(** [InTree m n]: the instance [m] is mounted in the tree [n]. *)
Inductive InTree (m : Instance) : Instance -> Prop :=
| InTree_here : InTree m m
| InTree_child p st d kids k :
    In k kids -> InTree m k -> InTree m (mkInstance p st d kids).

(** *** What a node renders *)

Inductive Piece :=
| Chevron (down : bool)
| KeyLabel (text : jsstring)
| Colon
| Literal (type : DataType) (text : jsstring)
| Bracket (text : jsstring)
| Preview (text : jsstring)
| Comma.

(** A row: its text pieces and the label of its copy button, if any. *)
Record Row := {
  pieces : list Piece;
  button : option jsstring
}.

Definition when {A} (b : bool) (l : list A) : list A := if b then l else [].

Definition quoted (s : jsstring) : jsstring := 34%N :: s ++ [34%N].

Definition renderValue (p : JsonNodeProps) : list Piece :=
  match value p with
  | JString s => [Literal STRING (quoted s)]
  | JNumber x => [Literal NUMBER (toString x)]
  | JBoolean b => [Literal BOOLEAN (if b then lit "true" else lit "false")]
  | JNull => [Literal NULL (lit "null")]
  | JObject _ | JArray _ => []
  end.

Definition renderKey (p : JsonNodeProps) : list Piece :=
  match keyName p with
  | None => []
  | Some k => [KeyLabel (quoted k)]
  end.

Definition renderColon (p : JsonNodeProps) : list Piece :=
  match keyName p with
  | None => []
  | Some _ => [Colon]
  end.

Definition getPreview (p : JsonNodeProps) : list Piece :=
  let n := intToString (Z.of_nat (List.length (entries (value p)))) in
  match getDataType (value p) with
  | ARRAY => [Preview (lit "Array(" ++ n ++ lit ")")]
  | OBJECT => [Preview (lit "{ " ++ n ++ lit " items }")]
  | _ => []
  end.

Definition openingBracket (p : JsonNodeProps) : jsstring :=
  match getDataType (value p) with ARRAY => lit "[" | _ => lit "{" end.

Definition closingBracket (p : JsonNodeProps) : jsstring :=
  match getDataType (value p) with ARRAY => lit "]" | _ => lit "}" end.

(** The single row of a scalar node. *)
Definition scalarRow (p : JsonNodeProps) (st : JsonNodeState) : Row :=
  {| pieces := renderKey p ++ renderColon p ++ renderValue p
               ++ when (negb (isLast p)) [Comma];
     button := if hovered st
               then Some (if copied st then lit "Copied!" else lit "Copy")
               else None |}.

(** The header row of a container. *)
Definition headerRow (p : JsonNodeProps) (st : JsonNodeState) : Row :=
  {| pieces :=
       when (negb (isEmpty p)) [Chevron (expanded st)]
       ++ renderKey p ++ renderColon p
       ++ [Bracket (openingBracket p)]
       ++ when (negb (expanded st) && negb (isEmpty p)) (getPreview p)
       ++ when (negb (expanded st) && negb (isEmpty p)) [Bracket (closingBracket p)]
       ++ when (isEmpty p) [Bracket (closingBracket p)]
       ++ when (negb (isLast p) && (negb (expanded st) || isEmpty p)) [Comma];
     button := Some (if copied st then lit "Copied!" else lit "Copy JSON") |}.

(** The closing-bracket row below the children of an expanded container. *)
Definition closingRow (p : JsonNodeProps) : Row :=
  {| pieces := [Bracket (closingBracket p)] ++ when (negb (isLast p)) [Comma];
     button := None |}.

Fixpoint render (n : Instance) : list Row :=
  match n with
  | mkInstance p st _ kids =>
      if negb (isExpandable p) then [scalarRow p st]
      else headerRow p st
             :: when (expanded st && negb (isEmpty p))
                  (flat_map render kids ++ [closingRow p])
  end.

(** The rows a node renders itself, without those of its children. *)
Definition ownRows (n : Instance) : list Row :=
  match n with
  | mkInstance p st _ _ =>
      if negb (isExpandable p) then [scalarRow p st]
      else headerRow p st
             :: when (expanded st && negb (isEmpty p)) [closingRow p]
  end.

Definition isComma (x : Piece) : bool :=
  match x with Comma => true | _ => false end.

Definition commas (rows : list Row) : nat :=
  List.length (filter isComma (flat_map pieces rows)).

(** Is the last piece of the last row a comma ? *)
Definition trailingComma (rows : list Row) : bool :=
  isComma (last (pieces (last rows {| pieces := []; button := None |}))
             (Chevron false)).

(* ================================================================== *)
(** ** components/JsonViewer.tsx *)

Record JsonViewerProps := {
  data : option JsonValue;
  viewerError : option jsstring;
  rawInput : jsstring
}.

Record JsonViewerState := {
  expandSignal : Z;
  collapseSignal : Z;
  copiedRaw : bool
}.

Definition initialViewerState : JsonViewerState :=
  {| expandSignal := 0; collapseSignal := 0; copiedRaw := false |}.

(** The three presentations; the loaded one carries the props of the
    root [JsonNode]. *)
Inductive Presentation :=
| ErrorState (message : jsstring)
| EmptyState
| LoadedState (root : JsonNodeProps).

(** [if (error)] on [string | null] *)
Definition errorShown (e : option jsstring) : option jsstring :=
  match e with
  | Some m => if truthy m then Some m else None
  | None => None
  end.

Definition JsonViewer (props : JsonViewerProps) (st : JsonViewerState)
  : Presentation :=
  match errorShown (viewerError props) with
  | Some m => ErrorState m
  | None =>
      match data props with
      | None => EmptyState
      | Some d =>
          LoadedState {| keyName := None; value := d; depth := 0;
                         isLast := true;
                         expandAllSignal := expandSignal st;
                         collapseAllSignal := collapseSignal st |}
      end
  end.

(** The Expand and Collapse buttons. *)
Definition clickExpand (st : JsonViewerState) : JsonViewerState :=
  {| expandSignal := expandSignal st + 1; collapseSignal := collapseSignal st;
     copiedRaw := copiedRaw st |}.

Definition clickCollapse (st : JsonViewerState) : JsonViewerState :=
  {| expandSignal := expandSignal st; collapseSignal := collapseSignal st + 1;
     copiedRaw := copiedRaw st |}.

Definition setCopiedRaw (b : bool) (st : JsonViewerState) : JsonViewerState :=
  {| expandSignal := expandSignal st; collapseSignal := collapseSignal st;
     copiedRaw := b |}.

(** [handleCopyRaw]: the Copy button of the toolbar copies the raw
    input. *)
Definition handleCopyRaw (props : JsonViewerProps) (st : JsonViewerState)
  (cb : Clipboard) : JsonViewerState * Clipboard :=
  let '(success, cb') := copyToClipboard (rawInput props) cb in
  (if success then setCopiedRaw true st else st, cb').

(* ================================================================== *)
(** ** App *)

Definition nl : jsstring := [10%N].

Definition DEFAULT_JSON : jsstring :=
  lit "{" ++ nl ++
  jq "  'welcome': 'JSON Deep Dive'," ++ nl ++
  jq "  'tips': [" ++ nl ++
  jq "    'Paste your JSON directly with Ctrl+V'," ++ nl ++
  jq "    'Or click the " ++ lit "'Paste'" ++ jq " button below'," ++ nl ++
  jq "    'Use tabs to manage multiple JSON files'" ++ nl ++
  lit "  ]," ++ nl ++
  jq "  'features': {" ++ nl ++
  jq "    'validation': true," ++ nl ++
  jq "    'collapsible': true," ++ nl ++
  jq "    'highlighting': 'syntax'," ++ nl ++
  jq "    'tabs': {" ++ nl ++
  jq "      'enabled': true," ++ nl ++
  jq "      'multiInstance': true" ++ nl ++
  lit "    }" ++ nl ++
  lit "  }," ++ nl ++
  jq "  'isSimple': true" ++ nl ++
  lit "}".

Record Tab := {
  id : jsstring;
  title : jsstring;
  content : jsstring
}.

Inductive ToastType := toastError | toastSuccess.

Record Toast := {
  msg : jsstring;
  type : ToastType
}.

Record AppState := {
  tabs : list Tab;
  activeTabId : jsstring;
  toast : option Toast
}.

Definition initialApp : AppState :=
  {| tabs := [{| id := lit "1"; title := lit "Tab 1"; content := DEFAULT_JSON |}];
     activeTabId := lit "1";
     toast := None |}.

Definition setTabs (ts : list Tab) (st : AppState) : AppState :=
  {| tabs := ts; activeTabId := activeTabId st; toast := toast st |}.

Definition setActiveTabId (i : jsstring) (st : AppState) : AppState :=
  {| tabs := tabs st; activeTabId := i; toast := toast st |}.

Definition setToast (t : option Toast) (st : AppState) : AppState :=
  {| tabs := tabs st; activeTabId := activeTabId st; toast := t |}.

(** [tabs.find(t => t.id === activeTabId) || tabs[0]] *)
Definition activeTab (st : AppState) : option Tab :=
  match find (fun t => JsString.eqb (id t) (activeTabId st)) (tabs st) with
  | Some t => Some t
  | None => hd_error (tabs st)
  end.

Definition updateTabContent (i newContent : jsstring) (st : AppState) : AppState :=
  setTabs (map (fun tab =>
                  if JsString.eqb (id tab) i
                  then {| id := id tab; title := title tab; content := newContent |}
                  else tab) (tabs st)) st.

(** [now] is the reading of [Date.now()], an integral time value. *)
Definition addTab (now : Z) (st : AppState) : AppState :=
  let newId := intToString now in
  let newTab := {| id := newId;
                   title := lit "Tab " ++ intToString (Z.of_nat (List.length (tabs st)) + 1);
                   content := [] |} in
  setActiveTabId newId (setTabs (tabs st ++ [newTab]) st).

Definition closeTab (i : jsstring) (now : Z) (st : AppState) : AppState :=
  let newTabs := filter (fun t => negb (JsString.eqb (id t) i)) (tabs st) in
  if Z.of_nat (List.length newTabs) =? 0 then
    let newId := intToString now in
    setActiveTabId newId
      (setTabs [{| id := newId; title := lit "Tab 1"; content := [] |}] st)
  else
    let st' := setTabs newTabs st in
    if JsString.eqb (activeTabId st) i
    then match last (map Some newTabs) None with   (* newTabs[newTabs.length - 1] *)
         | Some t => setActiveTabId (id t) st'
         | None => st'
         end
    else st'.

(** Clicking the tab at position [index] of the tab bar. *)
Definition clickTab (index : nat) (st : AppState) : AppState :=
  match nth_error (tabs st) index with
  | Some tab => setActiveTabId (id tab) st
  | None => st
  end.

(** The parse effect: what [parsedData] and [error] are set to for the
    active tab's content. *)
Definition parseEffect (content : jsstring) : Completion ParseResult :=
  if negb (truthy (trim content))
  then Normal {| parsed := None; error := None |}
  else bind (safeJsonParse content) (fun r =>
       Normal {| parsed := parsed r; error := error r |}).

(** The viewer as [App] renders it once the parse effect has run. *)
Definition viewerFor (content : jsstring) (vs : JsonViewerState)
  : Completion Presentation :=
  bind (parseEffect content) (fun r =>
  Normal (JsonViewer {| data := parsed r; viewerError := error r;
                        rawInput := content |} vs)).

(** The global paste event outside input fields. *)
Definition handlePaste (text : jsstring) (st : AppState) : AppState :=
  if truthy text
  then setToast (Some {| msg := lit "JSON pasted successfully!"; type := toastSuccess |})
         (updateTabContent (activeTabId st) text st)
  else st.

Definition handlePasteFromClipboard (cb : Clipboard) (st : AppState) : AppState :=
  match
    tryCatch
      (bind (if negb (available cb)
             then Throw (ErrorObject (lit "Error") (lit "Clipboard API unavailable"))
             else Normal tt) (fun _ =>
       bind (readText cb) (fun text =>
       bind (if negb (truthy text)
             then Throw (ErrorObject (lit "Error") (lit "Clipboard is empty"))
             else Normal tt) (fun _ =>
       Normal (setToast (Some {| msg := lit "Pasted from clipboard!"; type := toastSuccess |})
                 (updateTabContent (activeTabId st) text st))))))
      (fun err =>
         Normal (setToast (Some {| msg := lit "Browser blocked access. Please press Ctrl + V";
                                   type := toastError |}) st))
  with
  | Normal st' => st'
  | Throw _ => st
  end.

Definition handleClear (st : AppState) : AppState :=
  setToast (Some {| msg := lit "Cleared workspace"; type := toastSuccess |})
    (updateTabContent (activeTabId st) [] st).

(** *** The theme *)

(** [type ThemeMode = 'light' | 'dark' | 'auto'] *)
Inductive ThemeMode := Light | Dark | Auto.

Definition themeName (t : ThemeMode) : jsstring :=
  match t with
  | Light => lit "light"
  | Dark => lit "dark"
  | Auto => lit "auto"
  end.

(** What the theme code reads and writes in the browser. *)
Record ThemeEnv := {
  savedTheme : option jsstring;  (* [localStorage.getItem('theme')] *)
  prefersDark : bool;            (* [matchMedia('(prefers-color-scheme: dark)').matches] *)
  darkClass : bool               (* is 'dark' in the class list of the root element *)
}.

(** A string of the three as a [ThemeMode]. *)
Definition asThemeMode (s : jsstring) : ThemeMode :=
  if JsString.eqb s (lit "light") then Light
  else if JsString.eqb s (lit "dark") then Dark
  else Auto.

(** The initializer of the [theme] state. *)
Definition initialTheme (env : ThemeEnv) : ThemeMode :=
  match savedTheme env with
  | Some s =>
      if JsString.eqb s (lit "light") || JsString.eqb s (lit "dark")
         || JsString.eqb s (lit "auto")
      then asThemeMode s else Auto
  | None => Auto
  end.

Definition applyTheme (theme : ThemeMode) (env : ThemeEnv) : ThemeEnv :=
  let isDark :=
    match theme with
    | Dark => true
    | Light => false
    | Auto => prefersDark env
    end in
  {| savedTheme := savedTheme env; prefersDark := prefersDark env;
     darkClass := isDark |}.

(** The theme effect, run at mount and whenever [theme] changes:
    [applyTheme()], then [localStorage.setItem('theme', theme)]. *)
Definition themeEffect (theme : ThemeMode) (env : ThemeEnv) : ThemeEnv :=
  let env' := applyTheme theme env in
  {| savedTheme := Some (themeName theme); prefersDark := prefersDark env';
     darkClass := darkClass env' |}.

(** The system colour scheme changes to [matches]; the effect listens
    for that in auto mode only. *)
Definition systemChange (theme : ThemeMode) (matches : bool) (env : ThemeEnv)
  : ThemeEnv :=
  let env' := {| savedTheme := savedTheme env; prefersDark := matches;
                 darkClass := darkClass env |} in
  match theme with
  | Auto => applyTheme theme env'
  | _ => env'
  end.

Definition cycleTheme (current : ThemeMode) : ThemeMode :=
  match current with
  | Light => Dark
  | Dark => Auto
  | Auto => Light
  end.

(** *** The paste event of the window *)

Record PasteEvent := {
  targetTagName : jsstring;          (* [e.target.tagName] *)
  clipboardText : option jsstring    (* [e.clipboardData?.getData('text')] *)
}.

Definition onPasteEvent (e : PasteEvent) (st : AppState) : AppState :=
  if JsString.eqb (targetTagName e) (lit "INPUT")
     || JsString.eqb (targetTagName e) (lit "TEXTAREA")
  then st
  else match clipboardText e with
       | Some text => handlePaste text st
       | None => st
       end.

(** *** Round trip of a copied value *)

(** Deep equality of two values: [===] on scalars ([-0] equals [0],
    [NaN] equals nothing), element by element on arrays, property by
    property in own-property order on objects. *)
Fixpoint deepEqual (a b : JsonValue) : bool :=
  match a, b with
  | JNull, JNull => true
  | JBoolean x, JBoolean y => Bool.eqb x y
  | JNumber x, JNumber y => strictEq x y
  | JString x, JString y => JsString.eqb x y
  | JArray xs, JArray ys =>
      (fix each (xs ys : list JsonValue) : bool :=
         match xs, ys with
         | [], [] => true
         | x :: xs', y :: ys' => deepEqual x y && each xs' ys'
         | _, _ => false
         end) xs ys
  | JObject ps, JObject qs =>
      (fix each (ps qs : list (jsstring * JsonValue)) : bool :=
         match ps, qs with
         | [], [] => true
         | (k, x) :: ps', (k', y) :: qs' =>
             JsString.eqb k k' && deepEqual x y && each ps' qs'
         | _, _ => false
         end) ps qs
  | _, _ => false
  end.

(** The keys of an ordinary object as the engine orders them: array
    indices ascending, then the other keys, no key twice. *)
Fixpoint stringKeysOk (ks : list jsstring) : bool :=
  match ks with
  | [] => true
  | k :: r =>
      match arrayIndex k with
      | Some _ => false
      | None => negb (existsb (JsString.eqb k) r) && stringKeysOk r
      end
  end.

Fixpoint ownKeysOk (lower : Z) (ks : list jsstring) : bool :=
  match ks with
  | [] => true
  | k :: r =>
      match arrayIndex k with
      | Some i => (lower <? i) && ownKeysOk i r
      | None => stringKeysOk ks
      end
  end.

(** Every object in the value lists its properties that way, and
    every number is a Number. *)
Fixpoint wellFormed (v : JsonValue) : bool :=
  match v with
  | JNumber x => validNumber x
  | JArray items => forallb wellFormed items
  | JObject props =>
      ownKeysOk (-1) (map fst props)
      && forallb (fun kv => wellFormed (snd kv)) props
  | _ => true
  end.

(** What reading [0] or [-0] back gives. *)
Definition unsigned (x : number) : number :=
  match x with
  | S754_zero _ => S754_zero false
  | _ => x
  end.

(** A finite Number whose decimal rendering reads back as the same
    Number (as the zero without sign for a zero). *)
Definition rereads (x : number) : bool :=
  isFinite x
  && match JSON.scanNumber (toString x) with
     | JSON.Done y [] => sameValue y (unsigned x)
     | _ => false
     end.

Fixpoint numbersReread (v : JsonValue) : bool :=
  match v with
  | JNumber x => rereads x
  | JArray items => forallb numbersReread items
  | JObject props => forallb (fun kv => numbersReread (snd kv)) props
  | _ => true
  end.

(** Every number in the value is finite. *)
Fixpoint numbersFinite (v : JsonValue) : bool :=
  match v with
  | JNumber x => isFinite x
  | JArray items => forallb numbersFinite items
  | JObject props => forallb (fun kv => numbersFinite (snd kv)) props
  | _ => true
  end.

(** [t] is the binade of [A / B]: below [2^53 * 2^t], and at least
    [2^52 * 2^t] unless [t] is the lowest. *)
Definition binade (A B t : Z) : Prop :=
  0 <= t /\ A < B * 2 ^ (53 + t) /\ (0 < t -> B * 2 ^ (52 + t) <= A).

(** [10^j] as the fraction [pow10up j / pow10dn j] of positive integers. *)
Definition pow10up (j : Z) : Z := 10 ^ Z.max 0 j.
Definition pow10dn (j : Z) : Z := 10 ^ Z.max 0 (- j).

(** The value with every zero unsigned. *)
Fixpoint normalize (v : JsonValue) : JsonValue :=
  match v with
  | JNumber x => JNumber (unsigned x)
  | JArray items => JArray (map normalize items)
  | JObject props => JObject (map (fun kv => (fst kv, normalize (snd kv))) props)
  | _ => v
  end.

(** Recursion depth [JSON.parseValue] needs for the text of a value. *)
Fixpoint weight (v : JsonValue) : nat :=
  match v with
  | JArray items => S (fold_right (fun x n => S (weight x + n)) O items)
  | JObject props => S (fold_right (fun kv n => S (weight (snd kv) + n)) O props)
  | _ => 1%nat
  end.

(** A character that cannot continue a number. *)
Definition delimiter (c : N) : bool :=
  negb (JSON.isDigit c || (c =? 46) || (c =? 101) || (c =? 69) || (c =? 43) || (c =? 45))%N.

Definition delimited (rest : jsstring) : bool :=
  match rest with
  | [] => true
  | c :: _ => delimiter c
  end.

(** A string of JSON whitespace. *)
Definition blank (w : jsstring) : Prop := Forall (fun c => JSON.isWs c = true) w.

(** A character a value's text can start with, as seen after an
    opening bracket: no whitespace and no closing bracket. *)
Definition valueStart (c : N) : bool :=
  negb (JSON.isWs c) && negb (c =? 93)%N && negb (c =? 125)%N.

(** [reads ser x]: the text [ser x] starts like a value and, whatever
    delimiter follows it, [JSON.parseValue] reads it as [x] with its
    zeros unsigned, given recursion depth for [x]. *)
Definition reads (ser : JsonValue -> jsstring) (x : JsonValue) : Prop :=
  (exists c r, ser x = c :: r /\ valueStart c = true)
  /\ forall rest' fuel,
       delimited rest' = true -> (weight x <= fuel)%nat ->
       JSON.parseValue fuel (ser x ++ rest') = JSON.Done (normalize x) rest'.

(** The text of one property of an object. *)
Definition member (ser : JsonValue -> jsstring) (colonws : jsstring)
  (kv : jsstring * JsonValue) : jsstring :=
  JSON.QuoteJSONString (fst kv) ++ 58%N :: colonws ++ ser (snd kv).

Definition normalizeProp (kv : jsstring * JsonValue) : jsstring * JsonValue :=
  (fst kv, normalize (snd kv)).

(** A document with numbers, strings with escapes and nesting. *)
Definition sampleDocument : jsstring :=
  jq "{'10':[1,2.5,-0.001,1e21,-0],'2':{'text':'tab\tquote\u0022 end','on':true},'none':null}".

(** [Subtree v doc]: the value [v] occurs in the document [doc]. *)
Inductive Subtree (v : JsonValue) : JsonValue -> Prop :=
| Subtree_here : Subtree v v
| Subtree_item items x :
    In x items -> Subtree v x -> Subtree v (JArray items)
| Subtree_prop props k x :
    In (k, x) props -> Subtree v x -> Subtree v (JObject props).

(** The props of the root node of a loaded document. *)
Definition rootProps (v : JsonValue) : JsonNodeProps :=
  {| keyName := None; value := v; depth := 0; isLast := true;
     expandAllSignal := 0; collapseAllSignal := 0 |}.

Definition grantedClipboard : Clipboard :=
  {| available := true; readGranted := true; writeGranted := true;
     clipText := [] |}.

(** The documents of the specification's examples. *)
Definition nestedDocument : jsstring := jq "{'a':{'b':{'c':1}}}".
Definition pairDocument : jsstring := jq "[1,2]".

(** *** Sequences of tab operations *)

Inductive TabOp :=
| OpAdd (now : Z)                   (* the New Tab button *)
| OpClose (i : jsstring) (now : Z)  (* the close button of a tab *)
| OpClick (index : nat).            (* selecting a tab *)

Definition applyOp (st : AppState) (op : TabOp) : AppState :=
  match op with
  | OpAdd now => addTab now st
  | OpClose i now => closeTab i now st
  | OpClick index => clickTab index st
  end.

Definition run (ops : list TabOp) (st : AppState) : AppState :=
  fold_left applyOp ops st.

(** At least one tab, and the active id names one of them. *)
Definition tabsOk (st : AppState) : Prop :=
  tabs st <> [] /\ In (activeTabId st) (map id (tabs st)).

(** The clock readings of the operations are related by [R], each to
    the one before, starting from [b]. *)
Fixpoint clockAdvances (R : Z -> Z -> Prop) (b : Z) (ops : list TabOp) : Prop :=
  match ops with
  | [] => True
  | OpAdd now :: r => R b now /\ clockAdvances R now r
  | OpClose _ now :: r => R b now /\ clockAdvances R now r
  | OpClick _ :: r => clockAdvances R b r
  end.

(** The ids are the numerals of the time values [ts]. *)
Definition idsAre (st : AppState) (ts : list Z) : Prop :=
  map id (tabs st) = map intToString ts.

(** A clipboard read that does not deliver text: no API, permission
    denied, or an empty clipboard. *)
Definition readFails (cb : Clipboard) : bool :=
  negb (available cb) || negb (readGranted cb) || negb (truthy (clipText cb)).

(** The message of the notice shown after a paste from the clipboard. *)
Definition pasteNotice (cb : Clipboard) (st : AppState) : option jsstring :=
  option_map msg (toast (handlePasteFromClipboard cb st)).

Definition emptyClipboard : Clipboard :=
  {| available := true; readGranted := true; writeGranted := true;
     clipText := [] |}.

Definition deniedClipboard : Clipboard :=
  {| available := true; readGranted := false; writeGranted := false;
     clipText := lit "[1,2]" |}.

Definition missingClipboard : Clipboard :=
  {| available := false; readGranted := false; writeGranted := false;
     clipText := [] |}.

(** The ids are numerals of [R]-sorted time values, none after [b]. *)
Definition idsSorted (R : Z -> Z -> Prop) (b : Z) (st : AppState) : Prop :=
  exists ts, idsAre st ts /\ StronglySorted R ts /\ Forall (fun t => t <= b) ts.

(** *** Operations on the content of the active tab *)

Inductive ContentOp :=
| OpPasteEvent (e : PasteEvent)    (* Ctrl+V in the window *)
| OpPasteButton (cb : Clipboard)   (* Paste from Clipboard *)
| OpClear.                         (* Clear *)

Definition applyContentOp (st : AppState) (op : ContentOp) : AppState :=
  match op with
  | OpPasteEvent e => onPasteEvent e st
  | OpPasteButton cb => handlePasteFromClipboard cb st
  | OpClear => handleClear st
  end.

(** The tab a new-tab click at clock reading [now] appends. *)
Definition newTabAt (now : Z) (st : AppState) : Tab :=
  {| id := intToString now;
     title := lit "Tab " ++ intToString (Z.of_nat (List.length (tabs st)) + 1);
     content := [] |}.

(** *** Clicks on the toolbar of the viewer *)

Inductive ToolbarClick := ClickExpand | ClickCollapse.

Definition applyClick (st : JsonViewerState) (c : ToolbarClick) : JsonViewerState :=
  match c with
  | ClickExpand => clickExpand st
  | ClickCollapse => clickCollapse st
  end.

Definition isExpandClick (c : ToolbarClick) : bool :=
  match c with ClickExpand => true | ClickCollapse => false end.

(** *** Brackets in the rendered rows *)

Definition isOpening (x : Piece) : bool :=
  match x with
  | Bracket t => JsString.eqb t (lit "[") || JsString.eqb t (lit "{")
  | _ => false
  end.

Definition isClosing (x : Piece) : bool :=
  match x with
  | Bracket t => JsString.eqb t (lit "]") || JsString.eqb t (lit "}")
  | _ => false
  end.

Definition countPieces (f : Piece -> bool) (rows : list Row) : nat :=
  List.length (filter f (flat_map pieces rows)).

(* ================================================================== *)
(** * Properties *)

(** ** Strings and numerals *)

Lemma jsstring_eqb_spec (a b : jsstring) : reflect (a = b) (JsString.eqb a b).
Proof.
  revert b; induction a as [|x a IH]; intros [|y b]; simpl;
    try (constructor; congruence).
  destruct (N.eqb_spec x y) as [->|Hn]; simpl.
  - destruct (IH b) as [->|Hn]; constructor; congruence.
  - constructor; congruence.
Qed.

Lemma jsstring_eqb_refl (a : jsstring) : JsString.eqb a a = true.
Proof. destruct (jsstring_eqb_spec a a); congruence. Qed.

Lemma jsstring_eqb_eq (a b : jsstring) : JsString.eqb a b = true <-> a = b.
Proof. destruct (jsstring_eqb_spec a b); split; congruence. Qed.

Lemma jsstring_eqb_neq (a b : jsstring) : JsString.eqb a b = false <-> a <> b.
Proof. destruct (jsstring_eqb_spec a b); split; congruence. Qed.

Lemma readUint_uintUnits (d : Decimal.uint) : readUint (uintUnits d) = Some d.
Proof. induction d; simpl; try rewrite IHd; reflexivity. Qed.

Lemma uintUnits_inj (d d' : Decimal.uint) : uintUnits d = uintUnits d' -> d = d'.
Proof.
  intros H. apply (f_equal readUint) in H.
  rewrite !readUint_uintUnits in H. congruence.
Qed.

Lemma uintUnits_head (d : Decimal.uint) (r : jsstring) : uintUnits d <> 45%N :: r.
Proof. destruct d; simpl; congruence. Qed.

Lemma intToString_inj (a b : Z) : intToString a = intToString b -> a = b.
Proof.
  unfold intToString. intros H. apply DecimalZ.to_int_inj.
  destruct (Z.to_int a) as [d|d], (Z.to_int b) as [d'|d'].
  - f_equal. now apply uintUnits_inj.
  - now apply uintUnits_head in H.
  - symmetry in H. now apply uintUnits_head in H.
  - injection H as H. f_equal. now apply uintUnits_inj.
Qed.

Lemma readInt_intToString (z : Z) : readInt (intToString z) = Some z.
Proof.
  unfold intToString, readInt.
  pose proof (DecimalZ.of_to z) as Hz.
  destruct (Z.to_int z) as [d|d] eqn:E.
  - destruct (uintUnits d) as [|c r] eqn:Ed.
    + destruct d; simpl in Ed; try discriminate.
      destruct z as [|p|p]; simpl in E; discriminate.
    + destruct (N.eqb_spec c 45) as [->|_].
      * now apply uintUnits_head in Ed.
      * rewrite <- Ed, readUint_uintUnits. cbn [option_map]. now rewrite Hz.
  - rewrite N.eqb_refl, readUint_uintUnits. cbn [option_map]. now rewrite Hz.
Qed.

(* ================================================================== *)
(** ** Tabs *)

Lemma last_map_Some {A} (l : list A) (x : A) :
  last (map Some (l ++ [x])) None = Some x.
Proof. rewrite map_app. simpl. apply last_last. Qed.

Lemma last_map_Some_In {A} (l : list A) :
  l <> [] -> exists x, last (map Some l) None = Some x /\ In x l.
Proof.
  intros Hl. destruct (exists_last Hl) as (r & x & ->).
  exists x. split; [apply last_map_Some | apply in_or_app; right; now left].
Qed.

Lemma length_zero_nil {A} (l : list A) :
  (Z.of_nat (List.length l) =? 0) = true <-> l = [].
Proof.
  destruct l; simpl; split; intros H; try reflexivity; discriminate.
Qed.

Lemma addTab_ok (now : Z) (st : AppState) : tabsOk (addTab now st).
Proof.
  unfold tabsOk, addTab; simpl. split.
  - intros H. now apply app_eq_nil in H as [_ H].
  - rewrite map_app. apply in_or_app. right. now left.
Qed.

Lemma closeTab_ok (i : jsstring) (now : Z) (st : AppState) :
  tabsOk st -> tabsOk (closeTab i now st).
Proof.
  intros [Hne Hin]. unfold closeTab.
  set (newTabs := filter _ (tabs st)).
  destruct (Z.of_nat (List.length newTabs) =? 0) eqn:El.
  - split; simpl; [discriminate | now left].
  - assert (Hnew : newTabs <> []).
    { intros E. apply length_zero_nil in E. congruence. }
    destruct (jsstring_eqb_spec (activeTabId st) i) as [Ea|Ea].
    + destruct (last_map_Some_In newTabs Hnew) as (t & -> & Ht).
      split; simpl; [exact Hnew | now apply in_map].
    + split; simpl; [exact Hnew|].
      apply in_map_iff in Hin as (t & Hid & Ht).
      apply in_map_iff. exists t. split; [exact Hid|].
      apply filter_In. split; [exact Ht|].
      apply negb_true_iff, jsstring_eqb_neq. congruence.
Qed.

Lemma clickTab_ok (index : nat) (st : AppState) :
  tabsOk st -> tabsOk (clickTab index st).
Proof.
  intros [Hne Hin]. unfold clickTab.
  destruct (nth_error (tabs st) index) as [tab|] eqn:E; [|now split].
  split; simpl; [exact Hne|]. apply in_map. eapply nth_error_In; eauto.
Qed.

Lemma applyOp_ok (st : AppState) (op : TabOp) : tabsOk st -> tabsOk (applyOp st op).
Proof.
  destruct op; simpl; intros H.
  - apply addTab_ok.
  - now apply closeTab_ok.
  - now apply clickTab_ok.
Qed.

Lemma run_ok (ops : list TabOp) (st : AppState) : tabsOk st -> tabsOk (run ops st).
Proof.
  revert st. induction ops as [|op ops IH]; intros st H; simpl; [exact H|].
  apply IH. now apply applyOp_ok.
Qed.

Lemma initialApp_ok : tabsOk initialApp.
Proof. split; simpl; [discriminate | now left]. Qed.

(** Closing the only tab. *)
Lemma closeTab_only (t : Tab) (now : Z) (st : AppState) :
  tabs st = [t] ->
  tabs (closeTab (id t) now st)
    = [{| id := intToString now; title := lit "Tab 1"; content := [] |}]
  /\ activeTabId (closeTab (id t) now st) = intToString now.
Proof.
  intros E. unfold closeTab. rewrite E. simpl.
  rewrite jsstring_eqb_refl. simpl. now split.
Qed.

(** Closing the active tab when others remain. *)
Lemma closeTab_active (now : Z) (st : AppState) (remaining : list Tab) (lastTab : Tab) :
  filter (fun t => negb (JsString.eqb (id t) (activeTabId st))) (tabs st)
    = remaining ++ [lastTab] ->
  tabs (closeTab (activeTabId st) now st) = remaining ++ [lastTab]
  /\ activeTabId (closeTab (activeTabId st) now st) = id lastTab.
Proof.
  intros E. unfold closeTab. rewrite E.
  destruct (Z.of_nat (List.length (remaining ++ [lastTab])) =? 0) eqn:El.
  - apply length_zero_nil in El. now apply app_eq_nil in El as [_ El].
  - rewrite jsstring_eqb_refl, last_map_Some. now split.
Qed.

(** *** Ids and the clock *)

Section ClockOrder.

Variable R : Z -> Z -> Prop.
Hypothesis R_after : forall x b t, x <= b -> R b t -> R x t.
Hypothesis R_le : forall b t, R b t -> b <= t.

Lemma sorted_snoc (ts : list Z) (b t : Z) :
  StronglySorted R ts -> Forall (fun x => x <= b) ts -> R b t ->
  StronglySorted R (ts ++ [t]).
Proof.
  intros Hs Hb Hr. induction Hs as [|a l Hs IH Ha]; simpl.
  - constructor; constructor.
  - inversion Hb; subst. constructor; [now apply IH|].
    apply Forall_app. split; [exact Ha|].
    constructor; [|constructor]. eapply R_after; eauto.
Qed.

Lemma sorted_filter (p : Z -> bool) (ts : list Z) :
  StronglySorted R ts -> StronglySorted R (filter p ts).
Proof.
  induction 1 as [|a l Hs IH Ha]; simpl; [constructor|].
  destruct (p a); [|exact IH]. constructor; [exact IH|].
  rewrite Forall_forall in *. intros x Hx. apply Ha.
  now apply filter_In in Hx.
Qed.

Lemma ids_filter (p : jsstring -> bool) (l : list Tab) (ts : list Z) :
  map id l = map intToString ts ->
  map id (filter (fun t => p (id t)) l)
    = map intToString (filter (fun t => p (intToString t)) ts).
Proof.
  revert ts. induction l as [|x l IH]; intros [|t ts] H; simpl in *;
    try discriminate; [reflexivity|].
  injection H as Hx Hl. rewrite Hx.
  destruct (p (intToString t)); simpl; rewrite (IH ts Hl);
    [now rewrite Hx | reflexivity].
Qed.

Lemma applyOp_idsSorted (b : Z) (st : AppState) (op : TabOp) :
  idsSorted R b st -> clockAdvances R b [op] ->
  idsSorted R (match op with OpAdd now | OpClose _ now => now | OpClick _ => b end)
    (applyOp st op).
Proof.
  intros (ts & Hids & Hs & Hb) Hop. destruct op as [now|i now|index]; simpl in *.
  - destruct Hop as [Hr _]. exists (ts ++ [now]). repeat split.
    + unfold idsAre, addTab in *; simpl. now rewrite !map_app, Hids.
    + eapply sorted_snoc; eauto.
    + apply Forall_app. split.
      * eapply Forall_impl; [|exact Hb]. intros x Hx; simpl in Hx.
        apply R_le in Hr. lia.
      * constructor; [lia | constructor].
  - destruct Hop as [Hr _]. unfold closeTab.
    set (newTabs := filter _ (tabs st)).
    assert (Hnew : map id newTabs
              = map intToString
                  (filter (fun t => negb (JsString.eqb (intToString t) i)) ts)).
    { apply (ids_filter (fun k => negb (JsString.eqb k i))). exact Hids. }
    assert (Hkeep : idsSorted R now (setTabs newTabs st)).
    { eexists. split; [exact Hnew|]. split; [now apply sorted_filter|].
      apply Forall_forall. intros x Hx. apply filter_In in Hx as [Hx _].
      rewrite Forall_forall in Hb. apply Hb in Hx. apply R_le in Hr. lia. }
    destruct (Z.of_nat (List.length newTabs) =? 0).
    + exists [now]. repeat split.
      * constructor; constructor.
      * constructor; [lia | constructor].
    + destruct (JsString.eqb (activeTabId st) i); [|exact Hkeep].
      destruct (last (map Some newTabs) None); exact Hkeep.
  - unfold clickTab. destruct (nth_error (tabs st) index);
      exists ts; repeat split; assumption.
Qed.

Lemma run_idsSorted (ops : list TabOp) (b : Z) (st : AppState) :
  idsSorted R b st -> clockAdvances R b ops -> exists b', idsSorted R b' (run ops st).
Proof.
  revert b st. induction ops as [|op ops IH]; intros b st Hst Hops; simpl.
  - now exists b.
  - assert (H1 : clockAdvances R b [op]).
    { destruct op; simpl in *; tauto. }
    pose proof (applyOp_idsSorted b st op Hst H1) as Hnext.
    eapply IH; [exact Hnext|]. destruct op; simpl in *; tauto.
Qed.

(** After a prefix of the operations the ids are still below a
    reading that the remaining operations come after. *)
Lemma run_idsSorted_then (ops rest : list TabOp) (b : Z) (st : AppState) :
  idsSorted R b st -> clockAdvances R b (ops ++ rest) ->
  exists b', idsSorted R b' (run ops st) /\ clockAdvances R b' rest.
Proof.
  revert b st. induction ops as [|op ops IH]; intros b st Hst Hops; simpl.
  - now exists b.
  - assert (H1 : clockAdvances R b [op]).
    { destruct op; simpl in *; tauto. }
    pose proof (applyOp_idsSorted b st op Hst H1) as Hnext.
    eapply IH; [exact Hnext|]. destruct op; simpl in *; tauto.
Qed.

End ClockOrder.

Lemma initialApp_ids (R : Z -> Z -> Prop) : idsSorted R 1 initialApp.
Proof.
  exists [1]. repeat split.
  - constructor; constructor.
  - constructor; [lia | constructor].
Qed.

Lemma sorted_lt_NoDup (ts : list Z) : StronglySorted Z.lt ts -> NoDup ts.
Proof.
  induction 1 as [|a l Hs IH Ha]; constructor; [|exact IH].
  intros Hin. rewrite Forall_forall in Ha. apply Ha in Hin. lia.
Qed.

Lemma NoDup_numerals (ts : list Z) : NoDup ts -> NoDup (map intToString ts).
Proof.
  induction 1 as [|a l Hn Hs IH]; simpl; constructor; [|exact IH].
  intros Hin. apply in_map_iff in Hin as (x & Hx & Hin).
  apply intToString_inj in Hx. congruence.
Qed.

(** A reading after all the readings the ids come from is the numeral
    of no id. *)
Lemma reading_after_ids (b now : Z) (st : AppState) :
  idsSorted Z.lt b st -> b < now -> ~ In (intToString now) (map id (tabs st)).
Proof.
  intros (ts & Hids & _ & Hb) Hlt Hin. unfold idsAre in Hids. rewrite Hids in Hin.
  apply in_map_iff in Hin as (x & Hx & Hin). apply intToString_inj in Hx. subst x.
  rewrite Forall_forall in Hb. apply Hb in Hin. lia.
Qed.

(** C8, as stated, fails: the id of the tab that replaces the only
    open tab is not always fresh.  A tab is opened, the initial tab is
    closed and the new tab, now the only one, is closed, all at one
    clock reading: the replacement has the id of the tab just closed. *)
Lemma closing_the_only_tab_can_repeat_its_id :
  let st := run [OpAdd 1700000000000; OpClose (lit "1") 1700000000000] initialApp in
  map id (tabs st) = [lit "1700000000000"]
  /\ map id (tabs (closeTab (lit "1700000000000") 1700000000000 st))
     = [lit "1700000000000"].
Proof. split; vm_compute; reflexivity. Qed.

(** C8, amended.  After every tab operation (add, close, switch) at
    least one tab exists and the active tab id names an existing tab.
    Closing the only open tab leaves exactly one tab, with empty
    content, whose id is the numeral of the clock reading at the close;
    that id is among the ids before the close exactly when it is the id
    of the closed tab, and it is fresh whenever the readings of the tab
    operations, from the start of the application to this close,
    strictly increase.  Closing the active tab while others remain makes
    the last remaining tab the active one. *)
Theorem tab_operations_keep_an_active_tab (st : AppState) (op : TabOp) :
  tabsOk st ->
  tabsOk (applyOp st op)
  /\ (forall t now,
        tabs st = [t] ->
        tabs (closeTab (id t) now st)
          = [{| id := intToString now; title := lit "Tab 1"; content := [] |}]
        /\ activeTabId (closeTab (id t) now st) = intToString now
        /\ (In (intToString now) (map id (tabs st)) <-> id t = intToString now))
  /\ (forall ops i now,
        clockAdvances Z.lt 1 (ops ++ [OpClose i now]) ->
        ~ In (intToString now) (map id (tabs (run ops initialApp))))
  /\ (forall now remaining lastTab,
        filter (fun t => negb (JsString.eqb (id t) (activeTabId st))) (tabs st)
          = remaining ++ [lastTab] ->
        tabs (closeTab (activeTabId st) now st) = remaining ++ [lastTab]
        /\ activeTabId (closeTab (activeTabId st) now st) = id lastTab).
Proof.
  intros H. split; [now apply applyOp_ok|]. split; [|split].
  - intros t now Ht. destruct (closeTab_only t now st Ht) as [H1 H2].
    split; [exact H1|]. split; [exact H2|]. rewrite Ht. simpl. split.
    + intros [E|[]]. exact E.
    + intros E. now left.
  - intros ops i now Hops.
    assert (Hafter : forall x b t, x <= b -> b < t -> x < t) by (intros; lia).
    assert (Hle : forall b t, b < t -> b <= t) by (intros; lia).
    destruct (run_idsSorted_then Z.lt Hafter Hle ops [OpClose i now] 1 initialApp
                (initialApp_ids Z.lt) Hops) as (b & Hb & Hnow & _).
    now apply (reading_after_ids b).
  - intros now remaining lastTab. apply closeTab_active.
Qed.

Lemma tab_operations_keep_an_active_tab_witness :
  tabsOk initialApp
  /\ tabsOk (applyOp initialApp (OpClose (lit "1") 1700000000000)).
Proof.
  assert (H : tabsOk initialApp).
  { split; simpl; [discriminate | now left]. }
  split; [exact H|].
  exact (proj1 (tab_operations_keep_an_active_tab initialApp
                  (OpClose (lit "1") 1700000000000) H)).
Defined.

(** C9, as stated, fails: two tabs created at the same clock reading
    get the same id. *)
Lemma tab_ids_collide_on_equal_clock_readings :
  ~ NoDup (map id (tabs (run [OpAdd 1700000000000; OpAdd 1700000000000] initialApp))).
Proof.
  intros H. vm_compute in H.
  inversion H as [|x0 l0 _ Hrest]. inversion Hrest as [|x1 l1 Hnotin _].
  apply Hnotin. now left.
Qed.

(** C9, amended.  For any sequence of tab operations: when the clock
    readings never decrease (and are at least 1, the initial id), the
    ids in the tab list are numerals of non-decreasing time values; when
    the readings strictly increase, the ids are pairwise distinct. *)
Theorem tab_ids_follow_the_clock (ops : list TabOp) :
  clockAdvances Z.le 1 ops ->
  (exists ts, idsAre (run ops initialApp) ts /\ StronglySorted Z.le ts)
  /\ (clockAdvances Z.lt 1 ops -> NoDup (map id (tabs (run ops initialApp)))).
Proof.
  intros Hle. split.
  - destruct (run_idsSorted Z.le) with (ops := ops) (b := 1) (st := initialApp)
      as (b' & ts & Hids & Hs & _); try (intros; lia); try assumption.
    + apply initialApp_ids.
    + now exists ts.
  - intros Hlt.
    destruct (run_idsSorted Z.lt) with (ops := ops) (b := 1) (st := initialApp)
      as (b' & ts & Hids & Hs & _); try (intros; lia); try assumption.
    + apply initialApp_ids.
    + unfold idsAre in Hids. rewrite Hids.
      now apply NoDup_numerals, sorted_lt_NoDup.
Qed.

Lemma tab_ids_follow_the_clock_witness :
  clockAdvances Z.le 1 [OpAdd 5; OpClose (lit "1") 7; OpAdd 9]
  /\ NoDup (map id (tabs (run [OpAdd 5; OpClose (lit "1") 7; OpAdd 9] initialApp))).
Proof.
  assert (H : clockAdvances Z.le 1 [OpAdd 5; OpClose (lit "1") 7; OpAdd 9]).
  { simpl. lia. }
  split; [exact H|].
  apply (proj2 (tab_ids_follow_the_clock _ H)). simpl. lia.
Defined.

(* ================================================================== *)
(** ** Paste from the clipboard *)

(** C2, as stated, fails: an empty clipboard and a denied read produce
    the same notice. *)
Lemma empty_clipboard_notice_not_distinct :
  ~ (pasteNotice emptyClipboard initialApp <> pasteNotice deniedClipboard initialApp).
Proof. intros H. apply H. reflexivity. Qed.

(** C2, amended.  Every failed clipboard read (no clipboard API, read
    permission denied, or empty clipboard) shows the same error notice,
    "Browser blocked access. Please press Ctrl + V", and leaves the tabs
    as they were. *)
Theorem failed_clipboard_read_notice (cb : Clipboard) (st : AppState) :
  readFails cb = true ->
  toast (handlePasteFromClipboard cb st)
    = Some {| msg := lit "Browser blocked access. Please press Ctrl + V";
              type := toastError |}
  /\ tabs (handlePasteFromClipboard cb st) = tabs st
  /\ activeTabId (handlePasteFromClipboard cb st) = activeTabId st.
Proof.
  unfold readFails, handlePasteFromClipboard, readText.
  destruct (available cb), (readGranted cb), (clipText cb) as [|c r];
    simpl; intros H; try discriminate; repeat split.
Qed.

Lemma failed_clipboard_read_notice_witness :
  readFails emptyClipboard = true
  /\ toast (handlePasteFromClipboard emptyClipboard initialApp)
      = Some {| msg := lit "Browser blocked access. Please press Ctrl + V";
                type := toastError |}.
Proof.
  split; [reflexivity|].
  apply (failed_clipboard_read_notice emptyClipboard initialApp). reflexivity.
Defined.

(* ================================================================== *)
(** ** Tree nodes *)

Lemma JsonValue_induction (P : JsonValue -> Prop) :
  P JNull ->
  (forall b, P (JBoolean b)) ->
  (forall x, P (JNumber x)) ->
  (forall str, P (JString str)) ->
  (forall items, Forall P items -> P (JArray items)) ->
  (forall props, Forall (fun kv => P (snd kv)) props -> P (JObject props)) ->
  forall v, P v.
Proof.
  intros Hnull Hbool Hnum Hstr Harr Hobj.
  fix IH 1. intros [ |b|x|str|items|props].
  - exact Hnull.
  - apply Hbool.
  - apply Hnum.
  - apply Hstr.
  - apply Harr. induction items as [|v items IHl]; constructor; [apply IH | exact IHl].
  - apply Hobj. induction props as [|[k v] props IHl]; constructor;
      [apply IH | exact IHl].
Qed.

(** The children [mount] creates are the mounted [childProps]. *)
Lemma mount_children (keyName : option jsstring) (v : JsonValue) (d : Z)
  (l : bool) (e c : Z) :
  let p := {| keyName := keyName; value := v; depth := d; isLast := l;
              expandAllSignal := e; collapseAllSignal := c |} in
  mount keyName v d l e c
  = mkInstance p (mountEffects p (initialState p)) (depsOf p)
      (if expanded (mountEffects p (initialState p)) && negb (isEmpty p)
       then map mountProps (childProps p) else []).
Proof.
  intros p. destruct v as [ |b|x|str|items|props]; simpl;
    try (destruct (expanded _ && _); reflexivity).
  - f_equal. destruct (expanded _ && _); [|reflexivity].
    unfold childProps; simpl.
    assert (Hlen : List.length (indexed 0 items) = List.length items).
    { generalize 0. induction items; simpl; intros; [|rewrite IHitems]; reflexivity. }
    rewrite Hlen. clear Hlen. generalize (Z.of_nat (List.length items)). intros len.
    assert (Hp : getDataType (value p) = ARRAY /\ depth p = d
                 /\ expandAllSignal p = e /\ collapseAllSignal p = c)
      by (repeat split).
    destruct Hp as (Hty & Hd & He & Hc). clearbody p.
    generalize 0 at 3. generalize 0.
    induction items as [|val items IH]; intros index i; simpl; [reflexivity|].
    rewrite Hty. unfold mountProps at 1. simpl. rewrite Hd, He, Hc.
    f_equal. apply IH.
  - f_equal. destruct (expanded _ && _); [|reflexivity].
    unfold childProps; simpl.
    generalize (Z.of_nat (List.length props)). intros len.
    assert (Hp : getDataType (value p) = OBJECT /\ depth p = d
                 /\ expandAllSignal p = e /\ collapseAllSignal p = c)
      by (repeat split).
    destruct Hp as (Hty & Hd & He & Hc). clearbody p.
    generalize 0.
    induction props as [|[key val] props IH]; intros index; simpl; [reflexivity|].
    rewrite Hty. unfold mountProps at 1. simpl. rewrite Hd, He, Hc.
    f_equal. apply IH.
Qed.

Lemma childPropsFrom_nth (p : JsonNodeProps) (len : Z)
  (es : list (jsstring * JsonValue)) (index : Z) (i : nat) (cp : JsonNodeProps) :
  nth_error (childPropsFrom p len index es) i = Some cp ->
  exists key val,
    nth_error es i = Some (key, val)
    /\ value cp = val
    /\ depth cp = depth p + 1
    /\ isLast cp = (index + Z.of_nat i =? len - 1)
    /\ expandAllSignal cp = expandAllSignal p
    /\ collapseAllSignal cp = collapseAllSignal p.
Proof.
  revert index i. induction es as [|[key val] es IH]; intros index i H.
  - destruct i; discriminate.
  - destruct i as [|i]; simpl in H.
    + injection H as <-. exists key, val. simpl.
      replace (index + 0) with index by lia. repeat split.
    + apply IH in H as (k & w & H1 & H2 & H3 & H4 & H5 & H6).
      exists k, w. rewrite H4.
      replace (index + 1 + Z.of_nat i) with (index + Z.of_nat (S i)) by lia.
      repeat split; assumption.
Qed.

Lemma childProps_In (p cp : JsonNodeProps) :
  In cp (childProps p) ->
  In (value cp) (map snd (entries (value p)))
  /\ depth cp = depth p + 1
  /\ expandAllSignal cp = expandAllSignal p
  /\ collapseAllSignal cp = collapseAllSignal p.
Proof.
  intros H. apply In_nth_error in H as [i H].
  apply childPropsFrom_nth in H as (k & w & H1 & H2 & H3 & _ & H5 & H6).
  repeat split; try assumption.
  apply nth_error_In in H1. apply in_map_iff. exists (k, w). now split.
Qed.

Lemma indexed_values (i : Z) (items : list JsonValue) :
  map snd (indexed i items) = items.
Proof.
  revert i. induction items as [|x items IH]; intros i; simpl;
    [|rewrite IH]; reflexivity.
Qed.

Lemma InTree_mount (m : Instance) (p : JsonNodeProps) :
  InTree m (mountProps p) ->
  m = mountProps p
  \/ exists cp, In cp (childProps p) /\ InTree m (mountProps cp).
Proof.
  unfold mountProps at 1 2. rewrite mount_children.
  destruct p as [key v d l e c]; simpl.
  inversion 1 as [Heq | p0 st0 d0 kids0 k Hk Hm]; subst; [now left | right].
  destruct (expanded _ && _); [|destruct Hk].
  apply in_map_iff in Hk as (cp & <- & Hcp). now exists cp.
Qed.

Lemma mountProps_state (p : JsonNodeProps) :
  instProps (mountProps p) = p
  /\ instState (mountProps p) = mountEffects p (initialState p).
Proof.
  unfold mountProps. rewrite mount_children. destruct p; simpl. now split.
Qed.

(** The state a node settles in at mount. *)
Lemma mountEffects_expanded (p : JsonNodeProps) :
  expanded (mountEffects p (initialState p))
  = if 0 <? collapseAllSignal p then false
    else if 0 <? expandAllSignal p then true
    else depth p <? 2.
Proof.
  unfold mountEffects, collapseEffect, expandEffect.
  destruct (0 <? collapseAllSignal p), (0 <? expandAllSignal p); reflexivity.
Qed.

Lemma mount_default_expansion (v : JsonValue) :
  forall p m,
    value p = v -> expandAllSignal p = 0 -> collapseAllSignal p = 0 ->
    InTree m (mountProps p) ->
    expanded (instState m) = (depth (instProps m) <? 2).
Proof.
  induction v as [ |b|x|str|items IH|props IH] using JsonValue_induction;
    intros p m Hv He Hc Hm;
    apply InTree_mount in Hm as [-> | (cp & Hcp & Hm)];
    try (destruct (mountProps_state p) as [-> ->];
         rewrite mountEffects_expanded, He, Hc; reflexivity);
    apply childProps_In in Hcp as (Hin & _ & He' & Hc');
    rewrite Hv in Hin; simpl in Hin; try contradiction.
  - rewrite indexed_values in Hin. rewrite Forall_forall in IH.
    apply (IH _ Hin cp m); congruence.
  - rewrite Forall_forall in IH. apply in_map_iff in Hin as (kv & Hkv & Hin).
    apply (IH _ Hin cp m); congruence.
Qed.

(** C5. The expanded flag of a node is initialized to true exactly when
    its depth is less than 2; in a tree mounted before any Expand or
    Collapse click every node has that value; for the document
    {"a":{"b":{"c":1}}} the root (depth 0) and the value of "a"
    (depth 1) start expanded and the value of "b" (depth 2) starts
    collapsed. *)
Theorem default_expansion_by_depth :
  (forall p, expanded (initialState p) = true <-> depth p < 2)
  /\ (forall p m,
        expandAllSignal p = 0 -> collapseAllSignal p = 0 ->
        InTree m (mountProps p) ->
        expanded (instState m) = (depth (instProps m) <? 2))
  /\ (exists doc a b,
        JSON.parse nestedDocument = Normal doc
        /\ let root := mount None doc 0 true 0 0 in
           depth (instProps root) = 0 /\ expanded (instState root) = true
           /\ instChildren root = [a]
           /\ keyName (instProps a) = Some (lit "a")
           /\ depth (instProps a) = 1 /\ expanded (instState a) = true
           /\ instChildren a = [b]
           /\ keyName (instProps b) = Some (lit "b")
           /\ depth (instProps b) = 2 /\ expanded (instState b) = false).
Proof.
  split; [|split].
  - intros p. simpl. apply Z.ltb_lt.
  - intros p m He Hc Hm. now apply (mount_default_expansion (value p) p m).
  - eexists. eexists. eexists. split; [vm_compute; reflexivity|].
    cbv zeta. repeat split; try (vm_compute; reflexivity).
Qed.




(** *** Commas *)

Lemma last_app_nonempty {A} (l1 l2 : list A) (d : A) :
  l2 <> [] -> last (l1 ++ l2) d = last l2 d.
Proof.
  intros H. induction l1 as [|a l1 IH]; simpl; [reflexivity|].
  rewrite IH. destruct (l1 ++ l2) eqn:E; [|reflexivity].
  apply app_eq_nil in E as [_ E]. contradiction.
Qed.

Lemma trailingComma_last (rows : list Row) (r : Row) :
  trailingComma (rows ++ [r]) = isComma (last (pieces r) (Chevron false)).
Proof. unfold trailingComma. now rewrite last_last. Qed.

Lemma render_trailing_comma (n : Instance) :
  trailingComma (render n) = negb (isLast (instProps n)).
Proof.
  destruct n as [p st d kids]. cbn [render instProps].
  destruct (isExpandable p) eqn:Ex; cbn [negb].
  - destruct (expanded st && negb (isEmpty p)) eqn:Eopen; cbn [when].
    + change (headerRow p st :: flat_map render kids ++ [closingRow p])
        with ((headerRow p st :: flat_map render kids) ++ [closingRow p]).
      rewrite trailingComma_last. simpl. now destruct (isLast p).
    + change [headerRow p st] with ([] ++ [headerRow p st]).
      rewrite trailingComma_last. unfold headerRow. cbn [pieces].
      rewrite !app_assoc.
      destruct (isLast p); cbn [negb andb when].
      * destruct (isEmpty p), (expanded st); simpl in Eopen; try discriminate;
          cbn [when negb andb]; rewrite ?app_nil_r; now rewrite last_last.
      * assert (Hc : negb (expanded st) || isEmpty p = true).
        { destruct (expanded st), (isEmpty p); simpl in *; congruence. }
        rewrite Hc. cbn [when]. now rewrite last_last.
  - change [scalarRow p st] with ([] ++ [scalarRow p st]).
    rewrite trailingComma_last. unfold scalarRow. cbn [pieces].
    rewrite !app_assoc. destruct (isLast p); cbn [negb when].
    + rewrite app_nil_r. unfold isExpandable in Ex. unfold renderValue.
      destruct (value p); simpl in Ex; try discriminate; now rewrite last_last.
    + now rewrite last_last.
Qed.

Lemma commas_app (a b : list Row) : commas (a ++ b) = (commas a + commas b)%nat.
Proof. unfold commas. now rewrite flat_map_app, filter_app, length_app. Qed.

Lemma ownRows_commas (n : Instance) :
  commas (ownRows n) = if isLast (instProps n) then 0%nat else 1%nat.
Proof.
  destruct n as [p st d kids]. cbn [ownRows instProps].
  unfold commas, scalarRow, headerRow, closingRow, renderKey, renderColon,
    renderValue, getPreview.
  destruct (isExpandable p) eqn:Ex; cbn [negb].
  - destruct (keyName p), (getDataType (value p)), (isLast p), (expanded st),
      (isEmpty p); reflexivity.
  - unfold isExpandable in Ex.
    destruct (keyName p), (value p), (isLast p); simpl in Ex; try discriminate;
      reflexivity.
Qed.

(** C7. A node renders a trailing comma exactly when it is not the
    last sibling: its rendering ends in a comma iff [isLast] is false,
    and the rows it renders itself hold one comma or none accordingly;
    a child is the last sibling iff its index is the last one; the
    closing-bracket row of an expanded, non-empty container carries the
    comma (and the header row none) when the container is not last; for
    the array [1,2] the row of 1 ends in a comma and the row of 2 does
    not. *)
Theorem trailing_comma_iff_not_last :
  (forall n, trailingComma (render n) = negb (isLast (instProps n)))
  /\ (forall n, commas (ownRows n) = if isLast (instProps n) then 0%nat else 1%nat)
  /\ (forall p i cp,
        nth_error (childProps p) i = Some cp ->
        isLast cp = (Z.of_nat i =? Z.of_nat (List.length (entries (value p))) - 1))
  /\ (forall p st,
        isExpandable p = true -> expanded st = true -> isEmpty p = false ->
        isLast p = false ->
        commas [headerRow p st] = 0%nat
        /\ pieces (closingRow p) = [Bracket (closingBracket p); Comma])
  /\ (exists doc,
        JSON.parse pairDocument = Normal doc
        /\ map pieces (render (mount None doc 0 true 0 0))
           = [ [Chevron true; Bracket (lit "[")];
               [Literal NUMBER (lit "1"); Comma];
               [Literal NUMBER (lit "2")];
               [Bracket (lit "]")] ]).
Proof.
  split; [exact render_trailing_comma|]. split; [exact ownRows_commas|].
  split; [|split].
  - intros p i cp H. unfold childProps in H.
    apply childPropsFrom_nth in H as (_ & _ & _ & _ & _ & H & _).
    exact H.
  - intros p st Hx He Hn Hl. unfold commas, headerRow, closingRow.
    cbn [pieces flat_map]. rewrite He, Hn, Hl. cbn [negb andb orb when].
    unfold renderKey, renderColon.
    destruct (keyName p); split; reflexivity.
  - eexists. split; [vm_compute; reflexivity|]. vm_compute. reflexivity.
Qed.

(* ================================================================== *)
(** ** JSON.parse: the recursion budget is never exhausted *)

Lemma skipWs_length (s : jsstring) : (List.length (JSON.skipWs s) <= List.length s)%nat.
Proof.
  induction s as [|c r IH]; simpl; [lia|]. destruct (JSON.isWs c); simpl; lia.
Qed.

Lemma skipWs_cons_length (s r : jsstring) (c : N) :
  JSON.skipWs s = c :: r -> (List.length r < List.length s)%nat.
Proof. intros H. pose proof (skipWs_length s) as L. rewrite H in L. simpl in L. lia. Qed.

Lemma parseStringBody_shrinks (s acc k r : jsstring) :
  JSON.parseStringBody s acc = JSON.Done k r -> (List.length r < List.length s)%nat.
Proof.
  revert acc. induction s as [s IH] using (induction_ltof1 _ (@List.length N)).
  unfold ltof in IH.
  intros acc H. destruct s as [|c s]; simpl in H; [discriminate|].
  destruct (c =? 34)%N.
  { injection H as _ <-. simpl. lia. }
  destruct (c =? 92)%N.
  - destruct s as [|e r1]; [discriminate|].
    destruct (e =? 117)%N.
    + destruct r1 as [|h1 [|h2 [|h3 [|h4 r2]]]]; try discriminate.
      destruct (JSON.hex4 h1 h2 h3 h4); [|discriminate].
      apply IH in H; simpl in *; lia.
    + destruct (JSON.unescape e); [|discriminate].
      apply IH in H; simpl in *; lia.
  - destruct (c <? 32)%N; [discriminate|].
    apply IH in H; simpl in *; lia.
Qed.

Lemma spanDigits_length (s ds r : jsstring) :
  JSON.spanDigits s = (ds, r) -> (List.length r <= List.length s)%nat.
Proof.
  revert ds r. induction s as [|c s IH]; simpl; intros ds r H.
  - injection H as _ <-. simpl. lia.
  - destruct (JSON.isDigit c).
    + destruct (JSON.spanDigits s) as [ds' r'] eqn:E. injection H as _ <-.
      specialize (IH _ _ eq_refl). lia.
    + injection H as _ <-. simpl. lia.
Qed.

Lemma scanInt_shrinks (s ds r : jsstring) :
  JSON.scanInt s = JSON.Done ds r -> (List.length r < List.length s)%nat.
Proof.
  unfold JSON.scanInt. destruct s as [|c s]; [discriminate|].
  destruct (c =? 48)%N.
  - intros H. injection H as _ <-. simpl. lia.
  - destruct (JSON.isDigit c); [|discriminate].
    destruct (JSON.spanDigits s) as [ds' r'] eqn:E. intros H. injection H as _ <-.
    apply spanDigits_length in E. simpl. lia.
Qed.

Lemma scanFrac_length (s ds r : jsstring) :
  JSON.scanFrac s = JSON.Done ds r -> (List.length r <= List.length s)%nat.
Proof.
  unfold JSON.scanFrac. destruct s as [|c s].
  - intros H. injection H as _ <-. simpl. lia.
  - destruct (c =? 46)%N.
    + destruct (JSON.spanDigits s) as [[|d ds'] r'] eqn:E.
      * unfold JSON.unexpected. destruct r'; discriminate.
      * intros H. injection H as _ <-. apply spanDigits_length in E. simpl. lia.
    + intros H. injection H as _ <-. lia.
Qed.

Lemma scanExp_length (s r : jsstring) (e : Z) :
  JSON.scanExp s = JSON.Done e r -> (List.length r <= List.length s)%nat.
Proof.
  unfold JSON.scanExp. destruct s as [|c s].
  - intros H. injection H as _ <-. simpl. lia.
  - destruct ((c =? 101) || (c =? 69))%N.
    + set (sg := match s with [] => _ | _ :: _ => _ end).
      assert (Hsg : (List.length (snd sg) <= List.length s)%nat).
      { subst sg. destruct s as [|x s']; simpl; [lia|].
        destruct (x =? 43)%N; simpl; [lia|]. destruct (x =? 45)%N; simpl; lia. }
      destruct sg as [neg r1]. simpl in Hsg.
      destruct (JSON.spanDigits r1) as [[|d ds'] r2] eqn:E.
      * unfold JSON.unexpected. destruct r2; discriminate.
      * intros H. injection H as _ <-. apply spanDigits_length in E. simpl. lia.
    + intros H. injection H as _ <-. lia.
Qed.

Lemma scanNumber_shrinks (s r : jsstring) (x : number) :
  JSON.scanNumber s = JSON.Done x r -> (List.length r < List.length s)%nat.
Proof.
  unfold JSON.scanNumber, JSON.scanMagnitude.
  set (sg := match s with [] => _ | _ :: _ => _ end).
  assert (Hsg : (List.length (snd sg) <= List.length s)%nat).
  { subst sg. destruct s as [|c s']; simpl; [lia|].
    destruct (c =? 45)%N; simpl; lia. }
  destruct sg as [neg s1]. simpl in Hsg.
  destruct (JSON.scanInt s1) as [int s2| |] eqn:E1; try discriminate.
  destruct (JSON.scanFrac s2) as [frac s3| |] eqn:E2; try discriminate.
  destruct (JSON.scanExp s3) as [e s4| |] eqn:E3; try discriminate.
  intros H. injection H as _ <-.
  apply scanInt_shrinks in E1. apply scanFrac_length in E2.
  apply scanExp_length in E3. lia.
Qed.

Lemma expect_length (w s : jsstring) (u : unit) (r : jsstring) :
  JSON.expect w s = JSON.Done u r -> (List.length r <= List.length s)%nat.
Proof.
  revert s. induction w as [|x w IH]; simpl; intros s H.
  - injection H as _ <-. lia.
  - destruct s as [|c s]; [discriminate|]. destruct (c =? x)%N; [|discriminate].
    apply IH in H. simpl. lia.
Qed.

Lemma expect_not_Fuel (w s : jsstring) : JSON.expect w s <> JSON.Fuel.
Proof.
  revert s. induction w as [|x w IH]; simpl; intros s; [discriminate|].
  destruct s as [|c s]; [discriminate|]. destruct (c =? x)%N; [apply IH | discriminate].
Qed.

Lemma keyword_length (w : string) (v v' : JsonValue) (s r : jsstring) :
  JSON.keyword w v s = JSON.Done v' r -> (List.length r <= List.length s)%nat.
Proof.
  unfold JSON.keyword. destruct (JSON.expect (lit w) s) as [u r'| |] eqn:E;
    try discriminate.
  intros H. injection H as _ <-. now apply expect_length in E.
Qed.

Lemma keyword_not_Fuel (w : string) (v : JsonValue) (s : jsstring) :
  JSON.keyword w v s <> JSON.Fuel.
Proof.
  unfold JSON.keyword. pose proof (expect_not_Fuel (lit w) s).
  destruct (JSON.expect (lit w) s); congruence.
Qed.

Lemma parseStringBody_not_Fuel (s acc : jsstring) :
  JSON.parseStringBody s acc <> JSON.Fuel.
Proof.
  revert acc. induction s as [s IH] using (induction_ltof1 _ (@List.length N)).
  unfold ltof in IH.
  intros acc. destruct s as [|c s]; simpl; [discriminate|].
  destruct (c =? 34)%N; [discriminate|].
  destruct (c =? 92)%N.
  - destruct s as [|e r1]; [discriminate|].
    destruct (e =? 117)%N.
    + destruct r1 as [|h1 [|h2 [|h3 [|h4 r2]]]]; try discriminate.
      destruct (JSON.hex4 h1 h2 h3 h4); [|discriminate].
      apply IH; simpl; lia.
    + destruct (JSON.unescape e); [|discriminate]. apply IH; simpl; lia.
  - destruct (c <? 32)%N; [discriminate|]. apply IH; simpl; lia.
Qed.

Lemma scanNumber_not_Fuel (s : jsstring) : JSON.scanNumber s <> JSON.Fuel.
Proof.
  unfold JSON.scanNumber, JSON.scanMagnitude.
  destruct (match s with [] => _ | _ :: _ => _ end) as [neg s1].
  destruct (JSON.scanInt s1) as [int s2| |] eqn:E1; try discriminate.
  - destruct (JSON.scanFrac s2) as [frac s3| |] eqn:E2; try discriminate.
    + destruct (JSON.scanExp s3) as [e s4| |] eqn:E3; try discriminate.
      unfold JSON.scanExp in E3. destruct s3 as [|c s3]; [discriminate|].
      destruct ((c =? 101) || (c =? 69))%N; [|discriminate].
      destruct (match s3 with [] => _ | _ :: _ => _ end) as [ng r1].
      destruct (JSON.spanDigits r1) as [[|d ds'] r2]; [|discriminate].
      destruct r2; discriminate.
    + unfold JSON.scanFrac in E2. destruct s2 as [|c s2]; [discriminate|].
      destruct (c =? 46)%N; [|discriminate].
      destruct (JSON.spanDigits s2) as [[|d ds'] r2]; [|discriminate].
      destruct r2; discriminate.
  - unfold JSON.scanInt in E1. destruct s1 as [|c s1]; [discriminate|].
    destruct (c =? 48)%N; [discriminate|].
    destruct (JSON.isDigit c); [|discriminate].
    destruct (JSON.spanDigits s1); discriminate.
Qed.

Lemma parse_budget (fuel : nat) :
  (forall s, (2 * List.length s < fuel)%nat ->
     JSON.parseValue fuel s <> JSON.Fuel
     /\ forall v r, JSON.parseValue fuel s = JSON.Done v r ->
                    (List.length r < List.length s)%nat)
  /\ (forall s acc, (2 * List.length s + 1 < fuel)%nat ->
     JSON.parseElements fuel s acc <> JSON.Fuel
     /\ forall v r, JSON.parseElements fuel s acc = JSON.Done v r ->
                    (List.length r < List.length s)%nat)
  /\ (forall s acc, (2 * List.length s < fuel)%nat ->
     JSON.parseMembers fuel s acc <> JSON.Fuel
     /\ forall v r, JSON.parseMembers fuel s acc = JSON.Done v r ->
                    (List.length r < List.length s)%nat).
Proof.
  induction fuel as [|f (IHv & IHe & IHm)].
  { repeat split; intros; lia. }
  split; [|split].
  - intros s Hs. simpl.
    destruct (JSON.skipWs s) as [|c r] eqn:Es; [split; [discriminate | intros; discriminate]|].
    apply skipWs_cons_length in Es.
    destruct (c =? 123)%N.
    { destruct (JSON.skipWs r) as [|c' r'] eqn:Er; [split; [discriminate | intros; discriminate]|].
      pose proof (skipWs_length r) as Lr. rewrite Er in Lr. simpl in Lr.
      destruct (c' =? 125)%N.
      - split; [discriminate|]. intros v r0 H. injection H as _ <-. lia.
      - destruct (IHm (c' :: r') []) as [Hf Hd]; [simpl; lia|].
        split; [exact Hf|]. intros v r0 H. apply Hd in H. simpl in H. lia. }
    destruct (c =? 91)%N.
    { destruct (JSON.skipWs r) as [|c' r'] eqn:Er; [split; [discriminate | intros; discriminate]|].
      pose proof (skipWs_length r) as Lr. rewrite Er in Lr. simpl in Lr.
      destruct (c' =? 93)%N.
      - split; [discriminate|]. intros v r0 H. injection H as _ <-. lia.
      - destruct (IHe (c' :: r') []) as [Hf Hd]; [simpl; lia|].
        split; [exact Hf|]. intros v r0 H. apply Hd in H. simpl in H. lia. }
    destruct (c =? 34)%N.
    { pose proof (parseStringBody_not_Fuel r []) as Hf.
      destruct (JSON.parseStringBody r []) as [k r1| |] eqn:Ek; try congruence;
        (split; [discriminate|]); intros v r0 H; try discriminate.
      injection H as _ <-. apply parseStringBody_shrinks in Ek. lia. }
    destruct (c =? 116)%N.
    { split; [apply keyword_not_Fuel|]. intros v r0 H. apply keyword_length in H. lia. }
    destruct (c =? 102)%N.
    { split; [apply keyword_not_Fuel|]. intros v r0 H. apply keyword_length in H. lia. }
    destruct (c =? 110)%N.
    { split; [apply keyword_not_Fuel|]. intros v r0 H. apply keyword_length in H. lia. }
    destruct ((c =? 45)%N || JSON.isDigit c).
    { pose proof (scanNumber_not_Fuel (c :: r)) as Hf.
      destruct (JSON.scanNumber (c :: r)) as [x r1| |] eqn:Ex; try congruence;
        (split; [discriminate|]); intros v r0 H; try discriminate.
      injection H as _ <-. apply scanNumber_shrinks in Ex. simpl in Ex. lia. }
    split; [discriminate | intros; discriminate].
  - intros s acc Hs. simpl.
    destruct (IHv s) as [Hf Hd]; [lia|].
    destruct (JSON.parseValue f s) as [v r| |] eqn:Ev; try congruence;
      [|split; [discriminate | intros; discriminate]].
    specialize (Hd _ _ eq_refl).
    destruct (JSON.skipWs r) as [|c r'] eqn:Er; [split; [discriminate | intros; discriminate]|].
    apply skipWs_cons_length in Er.
    destruct (c =? 44)%N.
    { destruct (IHe r' (v :: acc)) as [Hf' Hd']; [lia|].
      split; [exact Hf'|]. intros v0 r0 H. apply Hd' in H. lia. }
    destruct (c =? 93)%N; [|split; [discriminate | intros; discriminate]].
    split; [discriminate|]. intros v0 r0 H. injection H as _ <-. lia.
  - intros s acc Hs. simpl.
    destruct (JSON.skipWs s) as [|q r0] eqn:Es; [split; [discriminate | intros; discriminate]|].
    apply skipWs_cons_length in Es.
    destruct (q =? 34)%N; [|split; [discriminate | intros; discriminate]].
    pose proof (parseStringBody_not_Fuel r0 []) as Hk.
    destruct (JSON.parseStringBody r0 []) as [k r1| |] eqn:Ek; try congruence;
      [|split; [discriminate | intros; discriminate]].
    apply parseStringBody_shrinks in Ek.
    destruct (JSON.skipWs r1) as [|c1 r2] eqn:E1; [split; [discriminate | intros; discriminate]|].
    apply skipWs_cons_length in E1.
    destruct (c1 =? 58)%N; [|split; [discriminate | intros; discriminate]].
    destruct (IHv r2) as [Hf Hd]; [lia|].
    destruct (JSON.parseValue f r2) as [v r3| |] eqn:Ev; try congruence;
      [|split; [discriminate | intros; discriminate]].
    specialize (Hd _ _ eq_refl).
    destruct (JSON.skipWs r3) as [|c2 r4] eqn:E3; [split; [discriminate | intros; discriminate]|].
    apply skipWs_cons_length in E3.
    destruct (c2 =? 44)%N.
    { destruct (IHm r4 (setProp k v acc)) as [Hf' Hd']; [lia|].
      split; [exact Hf'|]. intros v0 r H. apply Hd' in H. lia. }
    destruct (c2 =? 125)%N; [|split; [discriminate | intros; discriminate]].
    split; [discriminate|]. intros v0 r H. injection H as _ <-. lia.
Qed.

(** The budget [JSON.parse] starts with is never used up. *)
Lemma parseValue_budget (text : jsstring) :
  JSON.parseValue (JSON.budget text) text <> JSON.Fuel.
Proof.
  apply (proj1 (parse_budget (JSON.budget text))). unfold JSON.budget. lia.
Qed.

(* ================================================================== *)
(** ** Blank input, the parse effect and the viewer's presentations *)

Lemma trimStart_blank (s : jsstring) :
  Forall (fun c => isWhiteSpace c = true) s <-> trimStart s = [].
Proof.
  induction s as [|c s IH]; simpl; [split; constructor|].
  destruct (isWhiteSpace c) eqn:E; split; intros H.
  - inversion H; subst. now apply IH.
  - constructor; [exact E | now apply IH].
  - inversion H; subst. congruence.
  - discriminate.
Qed.

Lemma trimStart_head (s : jsstring) (c : N) (r : jsstring) :
  trimStart s = c :: r -> isWhiteSpace c = false.
Proof.
  induction s as [|x s IH]; simpl; [discriminate|].
  destruct (isWhiteSpace x) eqn:E; [exact IH|]. intros H. congruence.
Qed.

Lemma trim_blank (s : jsstring) :
  Forall (fun c => isWhiteSpace c = true) s <-> trim s = [].
Proof.
  unfold trim, trimEnd. split.
  - intros H. apply trimStart_blank in H. rewrite H. reflexivity.
  - intros H. apply (f_equal (@rev N)) in H. rewrite rev_involutive in H.
    simpl in H. apply trimStart_blank in H.
    apply Forall_rev in H. rewrite rev_involutive in H.
    apply trimStart_blank. destruct (trimStart s) as [|c r] eqn:E; [reflexivity|].
    apply trimStart_head in E. inversion H; subst. congruence.
Qed.

Lemma skipWs_suffix (s : jsstring) (P : N -> Prop) :
  Forall P s -> Forall P (JSON.skipWs s).
Proof.
  induction 1 as [|c s Hc Hs IH]; simpl; [constructor|].
  destruct (JSON.isWs c); [exact IH | now constructor].
Qed.

(** A text of whitespace only is not a JSON text. *)
Lemma parseValue_blank (fuel : nat) (s : jsstring) :
  Forall (fun c => isWhiteSpace c = true) s ->
  forall v r, JSON.parseValue (S fuel) s <> JSON.Done v r.
Proof.
  intros H v r. simpl. apply (skipWs_suffix s) in H.
  destruct (JSON.skipWs s) as [|c s']; [discriminate|].
  inversion H as [|c0 l0 Hc _]; subst.
  destruct (N.eqb_spec c 123) as [->|_]; [discriminate|].
  destruct (N.eqb_spec c 91) as [->|_]; [discriminate|].
  destruct (N.eqb_spec c 34) as [->|_]; [discriminate|].
  destruct (N.eqb_spec c 116) as [->|_]; [discriminate|].
  destruct (N.eqb_spec c 102) as [->|_]; [discriminate|].
  destruct (N.eqb_spec c 110) as [->|_]; [discriminate|].
  destruct (N.eqb_spec c 45) as [->|_]; [discriminate|].
  simpl. destruct (JSON.isDigit c) eqn:Ed; [|discriminate].
  exfalso. unfold JSON.isDigit in Ed. unfold isWhiteSpace in Hc.
  apply andb_true_iff in Ed as [E1 E2].
  apply N.leb_le in E1, E2.
  repeat (apply orb_true_iff in Hc as [Hc|Hc]);
    repeat (apply andb_true_iff in Hc as [? ?]);
    repeat match goal with
           | H : (_ <=? _)%N = true |- _ => apply N.leb_le in H
           | H : (_ =? _)%N = true |- _ => apply N.eqb_eq in H
           end; lia.
Qed.

Lemma parse_blank (s : jsstring) (v : JsonValue) :
  JSON.parse s = Normal v -> truthy (trim s) = true.
Proof.
  intros H. destruct (trim s) as [|c r] eqn:E; [|reflexivity].
  apply trim_blank in E. exfalso. unfold JSON.parse, JSON.budget in H.
  replace (2 * List.length s + 1)%nat with (S (2 * List.length s)) in H by lia.
  destruct (JSON.parseValue _ s) as [v' r'| |] eqn:Ep; try discriminate.
  now apply parseValue_blank in Ep.
Qed.

(** [JSON.parse] throws nothing but a [SyntaxError] with a message. *)
Lemma parse_throws (s : jsstring) (e : Thrown) :
  JSON.parse s = Throw e ->
  exists err, e = ErrorObject (lit "SyntaxError") (JSON.message err)
              /\ truthy (JSON.message err) = true.
Proof.
  unfold JSON.parse, JSON.syntaxError.
  assert (Hm : forall err, truthy (JSON.message err) = true) by (intros []; reflexivity).
  destruct (JSON.parseValue _ s) as [v r| err |].
  - destruct (JSON.skipWs r) as [|c r']; [discriminate|].
    intros H. exists (JSON.UnexpectedToken c). split; [congruence | apply Hm].
  - intros H. exists err. split; [congruence | apply Hm].
  - intros H. exists JSON.UnexpectedEnd. split; [congruence | apply Hm].
Qed.

Lemma safeJsonParse_value (input : jsstring) (v : JsonValue) :
  JSON.parse input = Normal v ->
  safeJsonParse input = Normal {| parsed := Some v; error := None |}.
Proof. unfold safeJsonParse. intros ->. reflexivity. Qed.

Lemma safeJsonParse_error (input name message : jsstring) :
  JSON.parse input = Throw (ErrorObject name message) ->
  safeJsonParse input = Normal {| parsed := None; error := Some message |}.
Proof. unfold safeJsonParse. intros ->. reflexivity. Qed.

(** The guard for blank input is in the parse effect of [App]:
    [safeJsonParse] itself turns the empty text into a diagnostic. *)
Lemma safeJsonParse_empty_text :
  safeJsonParse [] = Normal {| parsed := None;
                               error := Some (lit "Unexpected end of JSON input") |}.
Proof. reflexivity. Qed.

Lemma viewerFor_blank (content : jsstring) (vs : JsonViewerState) :
  trim content = [] ->
  parseEffect content = Normal {| parsed := None; error := None |}
  /\ viewerFor content vs = Normal EmptyState.
Proof. unfold viewerFor, parseEffect. intros ->. now split. Qed.

Lemma viewerFor_value (content : jsstring) (vs : JsonViewerState) (v : JsonValue) :
  JSON.parse content = Normal v ->
  viewerFor content vs
  = Normal (LoadedState {| keyName := None; value := v; depth := 0; isLast := true;
                           expandAllSignal := expandSignal vs;
                           collapseAllSignal := collapseSignal vs |}).
Proof.
  intros H. unfold viewerFor, parseEffect.
  rewrite (parse_blank _ _ H), (safeJsonParse_value _ _ H). reflexivity.
Qed.

Lemma viewerFor_error (content : jsstring) (vs : JsonViewerState) (e : Thrown) :
  truthy (trim content) = true -> JSON.parse content = Throw e ->
  exists m, viewerFor content vs = Normal (ErrorState m).
Proof.
  intros Ht H. destruct (parse_throws _ _ H) as (err & -> & Hm).
  unfold viewerFor, parseEffect. rewrite Ht, (safeJsonParse_error _ _ _ H).
  simpl. unfold JsonViewer, errorShown. simpl. rewrite Hm. now eexists.
Qed.

(** C1. For every content that is empty or consists of whitespace only
    the parse step of the application yields the no-value result,
    [parsedData] undefined and [error] null, not a diagnostic, and the
    viewer shows the Empty state.  (The guard is the [trim] test of the
    parse effect; [safeJsonParse] is not called for such content.) *)
Theorem blank_content_shows_empty_state (content : jsstring) (vs : JsonViewerState) :
  Forall (fun c => isWhiteSpace c = true) content ->
  parseEffect content = Normal {| parsed := None; error := None |}
  /\ viewerFor content vs = Normal EmptyState.
Proof. intros H. apply viewerFor_blank. now apply trim_blank. Qed.

Lemma blank_content_shows_empty_state_witness :
  Forall (fun c => isWhiteSpace c = true) (lit "   ")
  /\ viewerFor (lit "   ") initialViewerState = Normal EmptyState.
Proof.
  assert (H : Forall (fun c => isWhiteSpace c = true) (lit "   ")).
  { repeat constructor. }
  split; [exact H|].
  exact (proj2 (blank_content_shows_empty_state (lit "   ") initialViewerState H)).
Defined.

(** C4. [safeJsonParse] never raises: for every input it completes
    normally.  When [JSON.parse] succeeds it returns the parsed value
    and no diagnostic; when [JSON.parse] throws, which it only does with
    a SyntaxError, it returns no value and the error's message as the
    diagnostic.  The malformed texts {a:1} and [1,2, get diagnostics. *)
Theorem safeJsonParse_never_raises (input : jsstring) :
  (exists r, safeJsonParse input = Normal r)
  /\ (forall v, JSON.parse input = Normal v ->
        safeJsonParse input = Normal {| parsed := Some v; error := None |})
  /\ (forall e, JSON.parse input = Throw e ->
        exists err,
          e = JSON.syntaxError err
          /\ safeJsonParse input
             = Normal {| parsed := None; error := Some (JSON.message err) |})
  /\ safeJsonParse (lit "{a:1}")
     = Normal {| parsed := None; error := Some (lit "Unexpected token a in JSON") |}
  /\ safeJsonParse (lit "[1,2,")
     = Normal {| parsed := None; error := Some (lit "Unexpected end of JSON input") |}.
Proof.
  split; [|split; [|split; [|split]]].
  - unfold safeJsonParse. destruct (JSON.parse input); simpl; eauto.
  - apply safeJsonParse_value.
  - intros e H. destruct (parse_throws _ _ H) as (err & -> & _).
    exists err. split; [reflexivity | now apply (safeJsonParse_error _ _ _ H)].
  - vm_compute. reflexivity.
  - vm_compute. reflexivity.
Qed.

(** C10. The viewer shows the Empty state only when the parsed data is
    [undefined], and once the parse effect has run that is exactly when
    the tab content is blank.  Content that parses shows the Loaded
    state with the parsed value as the root of the tree; so do the
    texts null, false, 0 and the empty string literal. *)
Theorem empty_state_only_for_undefined :
  (forall props st, JsonViewer props st = EmptyState -> data props = None)
  /\ (forall content vs,
        viewerFor content vs = Normal EmptyState
        <-> Forall (fun c => isWhiteSpace c = true) content)
  /\ (forall content vs v,
        JSON.parse content = Normal v ->
        viewerFor content vs
        = Normal (LoadedState {| keyName := None; value := v; depth := 0;
                                 isLast := true;
                                 expandAllSignal := expandSignal vs;
                                 collapseAllSignal := collapseSignal vs |}))
  /\ JSON.parse (lit "null") = Normal JNull
  /\ JSON.parse (lit "false") = Normal (JBoolean false)
  /\ JSON.parse (lit "0") = Normal (JNumber (S754_zero false))
  /\ JSON.parse (jq "''") = Normal (JString []).
Proof.
  split; [|split; [|split]].
  - intros props st. unfold JsonViewer.
    destruct (errorShown _); [discriminate|].
    destruct (data props); [discriminate | reflexivity].
  - intros content vs. split.
    + intros H. apply trim_blank.
      destruct (trim content) as [|c r] eqn:Et; [reflexivity | exfalso].
      assert (Ht : truthy (trim content) = true) by now rewrite Et.
      destruct (JSON.parse content) as [v|e] eqn:Ep.
      * rewrite (viewerFor_value _ _ _ Ep) in H. discriminate.
      * destruct (viewerFor_error content vs e Ht Ep) as [m Hm]. congruence.
    + intros H. apply viewerFor_blank. now apply trim_blank.
  - intros content vs v. apply viewerFor_value.
  - repeat split; vm_compute; reflexivity.
Qed.

(* ================================================================== *)
(** ** Number::toString followed by StringToNumber *)

(** *** Rounding a fraction to a double *)

Lemma pow2_pos (n : Z) : 0 <= n -> 0 < 2 ^ n.
Proof. intros. apply Z.pow_pos_nonneg; lia. Qed.

Lemma pow2_S (n : Z) : 0 <= n -> 2 ^ (n + 1) = 2 * 2 ^ n.
Proof. intros. rewrite Z.pow_add_r by lia. lia. Qed.

Lemma pow2_mono (a b : Z) : 0 <= a <= b -> 2 ^ a <= 2 ^ b.
Proof. intros. apply Z.pow_le_mono_r; lia. Qed.

Lemma shiftOf_binade (A B : Z) : 0 < A -> 0 < B -> binade A B (shiftOf A B).
Proof.
  intros HA HB. unfold shiftOf, binade.
  pose proof (Z.log2_spec A HA) as [La Ua].
  pose proof (Z.log2_spec B HB) as [Lb Ub].
  pose proof (Z.log2_nonneg A) as Na. pose proof (Z.log2_nonneg B) as Nb.
  set (la := Z.log2 A) in *. set (lb := Z.log2 B) in *.
  set (t0 := Z.max 0 (la - lb - 53)).
  assert (Ht0 : 0 <= t0) by lia.
  (* A < B * 2^(54 + t0) *)
  assert (Hup : A < B * 2 ^ (54 + t0)).
  { apply Z.lt_le_trans with (2 ^ (Z.succ la)); [exact Ua|].
    apply Z.le_trans with (2 ^ lb * 2 ^ (54 + t0)).
    - rewrite <- Z.pow_add_r by lia. apply pow2_mono. lia.
    - apply Z.mul_le_mono_nonneg_r; [|exact Lb]. pose proof (pow2_pos (54 + t0)). lia. }
  (* 0 < t0 -> B * 2^(52+t0) <= A *)
  assert (Hlow : 0 < t0 -> B * 2 ^ (52 + t0) <= A).
  { intros Hp. assert (t0 = la - lb - 53) by lia.
    apply Z.le_trans with (2 ^ la); [|exact La].
    apply Z.le_trans with (2 ^ (Z.succ lb) * 2 ^ (52 + t0)).
    - apply Z.mul_le_mono_nonneg_r; [|lia]. pose proof (pow2_pos (52 + t0)). lia.
    - rewrite <- Z.pow_add_r by lia. apply pow2_mono. lia. }
  destruct (Z.ltb_spec A (B * 2 ^ (53 + t0))) as [Hlt|Hge].
  - repeat split; assumption.
  - repeat split; [lia | |].
    + replace (53 + (t0 + 1)) with (54 + t0) by lia. exact Hup.
    + intros _. replace (52 + (t0 + 1)) with (53 + t0) by lia. exact Hge.
Qed.

Lemma binade_unique (A B t1 t2 : Z) :
  0 < B -> binade A B t1 -> binade A B t2 -> t1 = t2.
Proof.
  intros HB (H1 & U1 & L1) (H2 & U2 & L2).
  assert (Hlt : forall a b, 0 <= a -> a < b -> A < B * 2 ^ (53 + a) ->
                            (0 < b -> B * 2 ^ (52 + b) <= A) -> False).
  { intros a b Ha Hab Hu Hl. specialize (Hl ltac:(lia)).
    assert (2 ^ (53 + a) <= 2 ^ (52 + b)) by (apply pow2_mono; lia).
    assert (B * 2 ^ (53 + a) <= B * 2 ^ (52 + b)) by (apply Z.mul_le_mono_nonneg_l; lia).
    lia. }
  destruct (Z.lt_trichotomy t1 t2) as [H|[H|H]]; [|exact H|].
  - exfalso. eapply (Hlt t1 t2); eauto.
  - exfalso. eapply (Hlt t2 t1); eauto.
Qed.

Lemma binary64_spec (m : positive) (e : Z) :
  binary64 m e = true <->
  Zpos m < 2 ^ 53 /\ -1074 <= e <= 971 /\ (2 ^ 52 <= Zpos m \/ e = -1074).
Proof.
  unfold binary64. rewrite !andb_true_iff, orb_true_iff.
  rewrite Z.ltb_lt, !Z.leb_le, Z.eqb_eq. tauto.
Qed.

Lemma div_mod_bounds (A d : Z) : 0 < d -> A = d * (A / d) + A mod d /\ 0 <= A mod d < d.
Proof. intros H. split; [apply Z.div_mod; lia | apply Z.mod_pos_bound; lia]. Qed.

Lemma roundHalfEven_up (m0 r d : Z) : d < 2 * r -> roundHalfEven m0 (2 * r ?= d) = m0 + 1.
Proof. intros H. unfold roundHalfEven. now rewrite (proj2 (Z.compare_gt_iff _ _)) by lia. Qed.

Lemma roundHalfEven_down (m0 r d : Z) : 2 * r < d -> roundHalfEven m0 (2 * r ?= d) = m0.
Proof. intros H. unfold roundHalfEven. now rewrite (proj2 (Z.compare_lt_iff _ _)) by lia. Qed.



Lemma near_same (A d m m0 r : Z) :
  0 < d -> A = d * m0 + r -> 0 <= r < d ->
  (2 * m - 1) * d < 2 * A < (2 * m + 1) * d ->
  (m0 = m - 1 /\ d < 2 * r) \/ (m0 = m /\ 2 * r < d).
Proof.
  intros Hd -> Hr [Hlo Hhi].
  assert (H1 : m0 <= m).
  { apply Z.nlt_ge. intros H. assert (d * (m + 1) <= d * m0) by (apply Z.mul_le_mono_nonneg_l; lia). lia. }
  assert (H2 : m - 1 <= m0).
  { apply Z.nlt_ge. intros H. assert (d * m0 <= d * (m - 2)) by (apply Z.mul_le_mono_nonneg_l; lia). lia. }
  assert (Hc : m0 = m - 1 \/ m0 = m) by lia.
  destruct Hc as [-> | ->]; [left | right]; split; lia.
Qed.

Lemma near_below (A d m0 r P : Z) :
  0 < d -> 0 < P -> A = d * m0 + r -> 0 <= r < d ->
  A < 2 * P * d -> (4 * P - 1) * d < 2 * A ->
  m0 = 2 * P - 1 /\ d < 2 * r.
Proof.
  intros Hd HP -> Hr Hlt Hgt.
  assert (H1 : m0 <= 2 * P - 1).
  { apply Z.nlt_ge. intros H. assert (d * (2 * P) <= d * m0) by (apply Z.mul_le_mono_nonneg_l; lia). lia. }
  assert (H2 : 2 * P - 1 <= m0).
  { apply Z.nlt_ge. intros H. assert (d * m0 <= d * (2 * P - 2)) by (apply Z.mul_le_mono_nonneg_l; lia). lia. }
  assert (m0 = 2 * P - 1) by lia. subst m0. split; lia.
Qed.

(** A fraction strictly inside the rounding interval of a double is
    rounded to that double. *)
Lemma ofFraction_near (neg : bool) (num den m : positive) (e : Z) :
  binary64 m e = true ->
  let A := Zpos num * 2 ^ 1074 in
  let B := Zpos den in
  let G := 2 ^ (e + 1074) in
  (2 * Zpos m - 1) * (B * G) < 2 * A < (2 * Zpos m + 1) * (B * G) ->
  (Zpos m = 2 ^ 52 -> 0 < e + 1074 -> (4 * Zpos m - 1) * (B * G) < 4 * A) ->
  ofFraction neg num den = S754_finite neg m e.
Proof.
  intros Hd A B G [Hlo Hhi] Hedge. apply binary64_spec in Hd as (Hm & He & Hnorm).
  set (t := e + 1074) in *. assert (Ht : 0 <= t) by lia.
  assert (HG : 0 < G) by (apply pow2_pos; lia).
  assert (HB : 0 < B) by (subst B; lia).
  assert (HA : 0 < A) by (subst A; apply Z.mul_pos_pos; [lia | apply pow2_pos; lia]).
  assert (E53 : 2 ^ (53 + t) = 2 ^ 53 * G) by (subst G; rewrite Z.pow_add_r; lia).
  assert (E52 : 2 ^ (52 + t) = 2 ^ 52 * G) by (subst G; rewrite Z.pow_add_r; lia).
  assert (E51 : 2 ^ (51 + t) = 2 ^ 51 * G) by (subst G; rewrite Z.pow_add_r; lia).
  unfold ofFraction. change (Z.pos num * 2 ^ 1074) with A. change (Z.pos den) with B.
  assert (EGt : 2 ^ t = G) by reflexivity.
  clearbody A B G.
  assert (HQ : 0 < B * G) by (apply Z.mul_pos_pos; lia).
  set (Q := B * G) in *.
  assert (Hup : A < B * 2 ^ (53 + t)).
  { rewrite E53. replace (B * (2 ^ 53 * G)) with (2 ^ 53 * Q) by (subst Q; ring).
    assert ((2 * Z.pos m + 1) * Q <= (2 * 2 ^ 53 - 1) * Q)
      by (apply Z.mul_le_mono_nonneg_r; lia).
    lia. }
  assert (Hcases : t = 0 \/ B * 2 ^ (52 + t) <= A \/ (0 < t /\ A < B * 2 ^ (52 + t))) by lia.
  destruct Hcases as [Hsame|[Hsame|[Htpos Hbelow]]].
  1,2: assert (Hb : shiftOf A B = t)
         by (apply (binade_unique A B); [lia | apply shiftOf_binade; lia |];
             repeat split; try assumption; try lia);
       rewrite Hb, EGt; fold Q;
       destruct (div_mod_bounds A Q ltac:(lia)) as [Hdm Hr];
       destruct (near_same A Q (Zpos m) _ _ HQ Hdm Hr (conj Hlo Hhi)) as [[Hm0 Hr2]|[Hm0 Hr2]];
       [rewrite roundHalfEven_up by assumption; rewrite Hm0;
        replace (Z.pos m - 1 + 1) with (Z.pos m) by lia
       |rewrite roundHalfEven_down by assumption; rewrite Hm0];
       (destruct (Z.eqb_spec (Z.pos m) (2 ^ 53)); [lia|]);
       (destruct (Z.leb_spec t 2045); [|lia]);
       f_equal; lia.
  (* below the binade of the double: it is the lowest of its binade *)
  assert (E52Q : B * 2 ^ (52 + t) = 2 ^ 52 * Q) by (rewrite E52; subst Q; ring).
  rewrite E52Q in Hbelow.
  assert (Hmin : Zpos m = 2 ^ 52).
  { destruct Hnorm as [Hn|Hn]; [|lia].
    destruct (Z.eq_dec (Zpos m) (2 ^ 52)) as [E|E]; [exact E | exfalso].
    assert ((2 * 2 ^ 52 + 1) * Q <= (2 * Z.pos m - 1) * Q)
      by (apply Z.mul_le_mono_nonneg_r; lia).
    lia. }
  specialize (Hedge Hmin ltac:(lia)).
  set (G' := 2 ^ (t - 1)).
  assert (HG' : 0 < G') by (apply pow2_pos; lia).
  assert (EG : G = 2 * G').
  { subst G G'. replace t with (t - 1 + 1) at 1 by lia. apply pow2_S. lia. }
  assert (HQ' : 0 < B * G') by (apply Z.mul_pos_pos; lia).
  assert (EQ : Q = 2 * (B * G')) by (subst Q; rewrite EG; ring).
  rewrite Hmin in Hedge.
  assert (Hb : shiftOf A B = t - 1).
  { apply (binade_unique A B); [lia | apply shiftOf_binade; lia |].
    repeat split; [lia | |].
    - replace (53 + (t - 1)) with (52 + t) by lia. rewrite E52Q. exact Hbelow.
    - intros _. replace (52 + (t - 1)) with (51 + t) by lia. rewrite E51.
      replace (B * (2 ^ 51 * G)) with (2 ^ 51 * Q) by (subst Q; ring). lia. }
  assert (EGt' : 2 ^ (t - 1) = G') by reflexivity.
  rewrite Hb, EGt'. clearbody G'. set (d := B * G') in *.
  destruct (div_mod_bounds A d ltac:(lia)) as [Hdm Hr].
  destruct (near_below A d _ _ (2 ^ 52) HQ' ltac:(lia) Hdm Hr ltac:(lia) ltac:(lia)) as [Hm0 Hr2].
  rewrite roundHalfEven_up by assumption. rewrite Hm0.
  replace (2 * 2 ^ 52 - 1 + 1) with (2 ^ 53) by lia. rewrite Z.eqb_refl.
  replace (t - 1 + 1) with t by lia.
  destruct (Z.leb_spec t 2045); [|lia].
  change (2 ^ 52) with (Zpos 4503599627370496) in *. cbv iota.
  f_equal; [|lia]. injection Hmin as <-. reflexivity.
Qed.

Lemma roundHalfEven_cases (m0 : Z) (c : comparison) :
  roundHalfEven m0 c = m0 \/ roundHalfEven m0 c = m0 + 1.
Proof. unfold roundHalfEven. destruct c; [destruct (Z.even m0)| |]; auto. Qed.

(** Rounding a fraction gives a zero, an infinity or a canonical
    double. *)
Lemma ofFraction_valid (neg : bool) (num den : positive) :
  validNumber (ofFraction neg num den) = true.
Proof.
  unfold ofFraction.
  set (A := Z.pos num * 2 ^ 1074). set (B := Z.pos den).
  assert (HB : 0 < B) by (subst B; lia).
  assert (HA : 0 < A) by (subst A; apply Z.mul_pos_pos; [lia | apply pow2_pos; lia]).
  clearbody A B.
  destruct (shiftOf_binade A B HA HB) as (Ht & Hup & Hlow).
  set (t := shiftOf A B) in *. clearbody t.
  assert (HG : 0 < 2 ^ t) by (apply pow2_pos; lia).
  assert (E53 : 2 ^ (53 + t) = 2 ^ 53 * 2 ^ t) by (rewrite Z.pow_add_r; lia).
  assert (E52 : 2 ^ (52 + t) = 2 ^ 52 * 2 ^ t) by (rewrite Z.pow_add_r; lia).
  set (G := 2 ^ t) in *. clearbody G.
  assert (Hd : 0 < B * G) by (apply Z.mul_pos_pos; lia).
  set (d := B * G) in *.
  destruct (div_mod_bounds A d Hd) as [Hdm Hr].
  set (m0 := A / d) in *. set (r := A mod d) in *. clearbody m0 r.
  assert (Hm0 : 0 <= m0 < 2 ^ 53).
  { split.
    - apply Z.nlt_ge. intros H.
      assert (d * m0 <= d * (-1)) by (apply Z.mul_le_mono_nonneg_l; lia). lia.
    - apply Z.nle_gt. intros H.
      assert (d * 2 ^ 53 <= d * m0) by (apply Z.mul_le_mono_nonneg_l; lia).
      rewrite E53 in Hup. replace (B * (2 ^ 53 * G)) with (d * 2 ^ 53) in Hup by (subst d; ring).
      lia. }
  assert (Hnormal : 0 < t -> 2 ^ 52 <= m0).
  { intros H. specialize (Hlow H). rewrite E52 in Hlow.
    replace (B * (2 ^ 52 * G)) with (d * 2 ^ 52) in Hlow by (subst d; ring).
    apply Z.nlt_ge. intros Hlt.
    assert (d * (m0 + 1) <= d * 2 ^ 52) by (apply Z.mul_le_mono_nonneg_l; lia). lia. }
  set (c := 2 * r ?= d). clearbody c.
  pose proof (roundHalfEven_cases m0 c) as Hround.
  set (m := roundHalfEven m0 c) in *. clearbody m.
  destruct (Z.eqb_spec m (2 ^ 53)) as [E|E].
  - change (2 ^ 52) with (Z.pos 4503599627370496).
    destruct (Z.leb_spec (t + 1) 2045); [|reflexivity].
    cbn [validNumber]. apply binary64_spec. lia.
  - destruct m as [|p|p]; [reflexivity| |reflexivity].
    destruct (Z.leb_spec t 2045); [|reflexivity].
    cbn [validNumber]. apply binary64_spec.
    split; [lia|]. split; [lia|].
    destruct (Z.eq_dec t 0); [right; lia | left]. specialize (Hnormal ltac:(lia)). lia.
Qed.

(** *** Powers of ten *)

Lemma pow10up_pos (j : Z) : 0 < pow10up j.
Proof. apply Z.pow_pos_nonneg; lia. Qed.

Lemma pow10dn_pos (j : Z) : 0 < pow10dn j.
Proof. apply Z.pow_pos_nonneg; lia. Qed.

Lemma pow10_nonneg (j : Z) : 0 <= j -> pow10up j = 10 ^ j /\ pow10dn j = 1.
Proof.
  intros H. unfold pow10up, pow10dn.
  rewrite Z.max_r by lia. rewrite Z.max_l by lia. auto.
Qed.

Lemma pow10_nonpos (j : Z) : j <= 0 -> pow10up j = 1 /\ pow10dn j = 10 ^ (- j).
Proof.
  intros H. unfold pow10up, pow10dn.
  rewrite Z.max_l by lia. rewrite Z.max_r by lia. auto.
Qed.

(** [10^(a+b) = 10^a * 10^b], on the fractions. *)
Lemma pow10_add (a b : Z) :
  pow10up (a + b) * (pow10dn a * pow10dn b)
  = pow10dn (a + b) * (pow10up a * pow10up b).
Proof.
  unfold pow10up, pow10dn.
  rewrite <- !Z.pow_add_r by lia. f_equal. lia.
Qed.

Lemma pow10_succ (j : Z) :
  pow10up (j + 1) * pow10dn j = 10 * (pow10dn (j + 1) * pow10up j).
Proof.
  pose proof (pow10_add j 1) as H.
  destruct (pow10_nonneg 1 ltac:(lia)) as [E1 E2]. rewrite E1, E2 in H.
  change (10 ^ 1) with 10 in H. lia.
Qed.

Lemma ltPow10_spec (num den n : Z) :
  ltPow10 num den n = true <-> num * pow10dn n < den * pow10up n.
Proof.
  unfold ltPow10. destruct (Z.leb_spec 0 n).
  - destruct (pow10_nonneg n ltac:(lia)) as [-> ->]. rewrite Z.ltb_lt. lia.
  - destruct (pow10_nonpos n ltac:(lia)) as [-> ->]. rewrite Z.ltb_lt. lia.
Qed.

Lemma ltPow10_false (num den n : Z) :
  ltPow10 num den n = false <-> den * pow10up n <= num * pow10dn n.
Proof.
  rewrite <- Bool.not_true_iff_false, ltPow10_spec. lia.
Qed.

(** [decimalExponent] finds the decimal exponent when the fuel covers
    the distance to it. *)
Lemma decimalExponent_down (num den : Z) (fuel : nat) (n : Z) :
  ltPow10 num den n = true ->
  ltPow10 num den (n - 1 - Z.of_nat fuel) = false ->
  let r := decimalExponent fuel num den n in
  ltPow10 num den r = true /\ ltPow10 num den (r - 1) = false.
Proof.
  revert n. induction fuel as [|f IH]; intros n Hlt Hge.
  - simpl in *. rewrite Z.sub_0_r in Hge. auto.
  - cbn [decimalExponent]. rewrite Hlt.
    destruct (ltPow10 num den (n - 1)) eqn:E; [|auto].
    apply IH; [exact E|].
    replace (n - 1 - 1 - Z.of_nat f) with (n - 1 - Z.of_nat (S f)) by lia. exact Hge.
Qed.

Lemma decimalExponent_up (num den : Z) (fuel : nat) (n : Z) :
  ltPow10 num den (n - 1) = false ->
  ltPow10 num den (n + Z.of_nat fuel) = true ->
  let r := decimalExponent fuel num den n in
  ltPow10 num den r = true /\ ltPow10 num den (r - 1) = false.
Proof.
  revert n. induction fuel as [|f IH]; intros n Hge Hlt.
  - simpl in *. rewrite Z.add_0_r in Hlt. auto.
  - cbn [decimalExponent].
    destruct (ltPow10 num den n) eqn:E.
    + rewrite Hge. auto.
    + apply IH.
      * replace (n + 1 - 1) with n by lia. exact E.
      * replace (n + 1 + Z.of_nat f) with (n + Z.of_nat (S f)) by lia. exact Hlt.
Qed.

(** *** The fraction of a double and its decimal exponent *)

(** The fraction [num / den] that [shortestDigits] works on is the
    double, here scaled by [2^1074]. *)
Lemma fraction_of_double (m : positive) (e : Z) :
  -1074 <= e ->
  let num := if 0 <=? e then Zpos m * 2 ^ e else Zpos m in
  let den := if 0 <=? e then 1 else 2 ^ (- e) in
  0 < num /\ 0 < den /\ num * 2 ^ 1074 = Zpos m * 2 ^ (e + 1074) * den.
Proof.
  intros He. destruct (Z.leb_spec 0 e); cbv beta iota zeta.
  - pose proof (pow2_pos e ltac:(lia)). split; [apply Z.mul_pos_pos; lia | split; [lia|]].
    rewrite Z.pow_add_r by lia. ring.
  - pose proof (pow2_pos (- e) ltac:(lia)). split; [lia | split; [lia|]].
    rewrite <- Z.mul_assoc, <- Z.pow_add_r by lia. do 2 f_equal. lia.
Qed.

Lemma decimalExponent_double (m : positive) (e num den : Z) :
  binary64 m e = true -> 0 < num -> 0 < den ->
  num * 2 ^ 1074 = Zpos m * 2 ^ (e + 1074) * den ->
  let n := decimalExponent 800 num den 0 in
  ltPow10 num den n = true /\ ltPow10 num den (n - 1) = false.
Proof.
  intros Hd Hnum Hden Hfrac. apply binary64_spec in Hd as (Hm & He & _).
  assert (HG : 0 < 2 ^ (e + 1074) <= 2 ^ 2045)
    by (split; [apply pow2_pos; lia | apply pow2_mono; lia]).
  set (G := 2 ^ (e + 1074)) in *. clearbody G.
  assert (HW : 0 < 2 ^ 1074) by (apply pow2_pos; lia).
  assert (Hhigh : 2 ^ 53 * 2 ^ 2045 < 10 ^ 800 * 2 ^ 1074) by (vm_compute; reflexivity).
  assert (Hlow : 2 ^ 1074 < 10 ^ 801) by (vm_compute; reflexivity).
  assert (H53 : 0 < 2 ^ 53) by (apply pow2_pos; lia).
  assert (H801 : 0 < 10 ^ 801) by (apply Z.pow_pos_nonneg; lia).
  set (W := 2 ^ 1074) in *. set (P := 2 ^ 53) in *. set (T := 2 ^ 2045) in *.
  set (K := 10 ^ 800) in *. set (L := 10 ^ 801) in *.
  assert (Hbig : ltPow10 num den 800 = true).
  { apply ltPow10_spec. destruct (pow10_nonneg 800 ltac:(lia)) as [-> ->]. fold K.
    clearbody W P T K L.
    assert (Z.pos m * G < P * T).
    { apply Z.le_lt_trans with (Z.pos m * T).
      - apply Z.mul_le_mono_nonneg_l; lia.
      - apply Z.mul_lt_mono_pos_r; lia. }
    apply (Z.mul_lt_mono_pos_r W); [lia|].
    rewrite Z.mul_1_r, Hfrac.
    replace (den * K * W) with (K * W * den) by ring.
    apply Z.mul_lt_mono_pos_r; lia. }
  assert (Hsmall : ltPow10 num den (-801) = false).
  { apply ltPow10_false. destruct (pow10_nonpos (-801) ltac:(lia)) as [-> ->].
    change (- -801) with 801. fold L. clearbody W P T K L.
    apply (Z.mul_le_mono_pos_r _ _ W); [lia|].
    replace (num * L * W) with (num * W * L) by ring. rewrite Hfrac.
    rewrite Z.mul_1_r.
    assert (1 * 1 <= Z.pos m * G) by (apply Z.mul_le_mono_nonneg; lia).
    assert (W * den <= Z.pos m * G * L * den).
    { apply Z.mul_le_mono_nonneg_r; [lia|].
      apply Z.le_trans with (1 * L); [lia|].
      apply Z.mul_le_mono_nonneg_r; lia. }
    lia. }
  clearbody W P T K L. cbv zeta.
  destruct (ltPow10 num den 0) eqn:E0.
  - apply decimalExponent_down; [exact E0 | exact Hsmall].
  - apply decimalExponent_up; [|exact Hbig].
    apply ltPow10_false in E0. apply ltPow10_false.
    destruct (pow10_nonneg 0 ltac:(lia)) as [E1 E2]. rewrite E1, E2 in E0.
    destruct (pow10_nonpos (0 - 1) ltac:(lia)) as [-> ->].
    change (10 ^ 0) with 1 in E0. change (10 ^ (- (0 - 1))) with 10. lia.
Qed.

(** *** Candidates of a given length *)

Lemma scaledFloor_spec (num den n k : Z) :
  let a := num * pow10dn (n - k) in
  let b := den * pow10up (n - k) in
  scaledFloor num den n k = (a / b, 2 * (a mod b) ?= b).
Proof.
  unfold scaledFloor. destruct (Z.leb_spec 0 (n - k)).
  - destruct (pow10_nonneg (n - k) ltac:(lia)) as [-> ->]. now rewrite Z.mul_1_r.
  - destruct (pow10_nonpos (n - k) ltac:(lia)) as [-> ->]. now rewrite Z.mul_1_r.
Qed.

(** With [n] the decimal exponent, the scaled fraction has [k] integer
    digits. *)
Lemma scaled_range (num den n k : Z) :
  0 < num -> 0 < den -> 1 <= k ->
  ltPow10 num den n = true -> ltPow10 num den (n - 1) = false ->
  let a := num * pow10dn (n - k) in
  let b := den * pow10up (n - k) in
  0 < b /\ b * 10 ^ (k - 1) <= a < b * 10 ^ k.
Proof.
  intros Hnum Hden Hk Hlt Hge a b.
  apply ltPow10_spec in Hlt. apply ltPow10_false in Hge.
  pose proof (pow10_add (n - k) k) as Eup.
  pose proof (pow10_add (n - k) (k - 1)) as Elow.
  replace (n - k + k) with n in Eup by lia.
  replace (n - k + (k - 1)) with (n - 1) in Elow by lia.
  destruct (pow10_nonneg k ltac:(lia)) as [E1 E2]. rewrite E1, E2 in Eup.
  destruct (pow10_nonneg (k - 1) ltac:(lia)) as [E3 E4]. rewrite E3, E4 in Elow.
  clear E1 E2 E3 E4.
  pose proof (pow10up_pos (n - k)) as Hu. pose proof (pow10dn_pos (n - k)) as Hd.
  pose proof (pow10dn_pos n) as Hdn. pose proof (pow10dn_pos (n - 1)) as Hdn1.
  assert (Hk1 : 0 < 10 ^ (k - 1)) by (apply Z.pow_pos_nonneg; lia).
  assert (Hk0 : 0 < 10 ^ k) by (apply Z.pow_pos_nonneg; lia).
  subst a b.
  set (u := pow10up (n - k)) in *. set (d := pow10dn (n - k)) in *.
  set (un := pow10up n) in *. set (dn := pow10dn n) in *.
  set (un1 := pow10up (n - 1)) in *. set (dn1 := pow10dn (n - 1)) in *.
  set (K := 10 ^ k) in *. set (K1 := 10 ^ (k - 1)) in *.
  clearbody u d un dn un1 dn1 K K1.
  split; [apply Z.mul_pos_pos; lia|]. split.
  - apply (Z.mul_le_mono_pos_r _ _ dn1); [lia|].
    replace (den * u * K1 * dn1) with (den * (dn1 * (u * K1))) by ring.
    rewrite <- Elow.
    replace (den * (un1 * (d * 1))) with (den * un1 * d) by ring.
    replace (num * d * dn1) with (num * dn1 * d) by ring.
    apply Z.mul_le_mono_nonneg_r; lia.
  - apply (Z.mul_lt_mono_pos_r dn); [lia|].
    replace (den * u * K * dn) with (den * (dn * (u * K))) by ring.
    rewrite <- Eup.
    replace (den * (un * (d * 1))) with (den * un * d) by ring.
    replace (num * d * dn) with (num * dn * d) by ring.
    apply Z.mul_lt_mono_pos_r; lia.
Qed.

Lemma quotient_range (a b lo hi : Z) :
  0 < b -> b * lo <= a < b * hi -> lo <= a / b < hi.
Proof.
  intros Hb [H1 H2]. split.
  - apply Z.div_le_lower_bound; lia.
  - apply Z.div_lt_upper_bound; lia.
Qed.


Lemma mul_cancel_le (c x y : Z) : 0 < c -> x * c <= y * c -> x <= y.
Proof. intros Hc H. apply Z.mul_le_mono_pos_r in H; assumption. Qed.

Lemma mul_cancel_lt (c x y : Z) : 0 < c -> x * c < y * c -> x < y.
Proof. intros Hc H. apply Z.mul_lt_mono_pos_r in H; assumption. Qed.

(** The decimal with at least seventeen digits next to a double lies
    inside the double's rounding interval.  [Y] is the double and [g]
    its unit in the last place; [w] is the unit of the decimal and [lo]
    its digits; [R / den] is what the decimal [lo * w] leaves of [Y]. *)
Lemma decimal_in_gap (Y g w den lo R m P T : Z) :
  0 < den -> 0 < g -> 0 < w ->
  Y = m * g -> 0 < m < P -> P < T -> T <= lo ->
  Y * den = lo * w * den + R -> 0 <= R < den * w ->
  (2 * R <= den * w ->
     (2 * m - 1) * g < 2 * (lo * w) < (2 * m + 1) * g
     /\ (2 * m = P -> (4 * m - 1) * g < 4 * (lo * w)))
  /\ (den * w < 2 * R ->
     (2 * m - 1) * g < 2 * ((lo + 1) * w) < (2 * m + 1) * g
     /\ (2 * m = P -> (4 * m - 1) * g < 4 * ((lo + 1) * w))).
Proof.
  intros Hden Hg Hw HY Hm HP HT Hsplit HR.
  assert (H1 : lo * w <= Y) by (apply (mul_cancel_le den); lia).
  assert (H2 : Y < (lo + 1) * w).
  { apply (mul_cancel_lt den); [lia|].
    replace ((lo + 1) * w * den) with (lo * w * den + den * w) by ring. lia. }
  assert (HTw : T * w <= lo * w) by (apply Z.mul_le_mono_nonneg_r; lia).
  assert (H3 : w < g).
  { apply Z.nle_gt. intros H.
    assert (m * g <= m * w) by (apply Z.mul_le_mono_nonneg_l; lia).
    assert (m * w <= (P - 1) * w) by (apply Z.mul_le_mono_nonneg_r; lia).
    assert ((P - 1) * w < T * w) by (apply Z.mul_lt_mono_pos_r; lia).
    lia. }
  assert (H4 : 2 * m = P -> 2 * w < g).
  { intros E. apply Z.nle_gt. intros H.
    assert (m * g <= m * (2 * w)) by (apply Z.mul_le_mono_nonneg_l; lia).
    assert (P * w < T * w) by (apply Z.mul_lt_mono_pos_r; lia).
    replace (m * (2 * w)) with (2 * m * w) in * by ring. rewrite E in *. lia. }
  split; intros Hc.
  - assert (H5 : 2 * Y - 2 * (lo * w) <= w).
    { apply (mul_cancel_le den); [lia|].
      replace ((2 * Y - 2 * (lo * w)) * den) with (2 * (Y * den) - 2 * (lo * w * den)) by ring.
      lia. }
    replace ((2 * m - 1) * g) with (2 * (m * g) - g) by ring.
    replace ((2 * m + 1) * g) with (2 * (m * g) + g) by ring.
    replace ((4 * m - 1) * g) with (4 * (m * g) - g) by ring.
    rewrite <- HY. split; [lia|]. intros E. specialize (H4 E). lia.
  - assert (H5 : w < 2 * Y - 2 * (lo * w)).
    { apply (mul_cancel_lt den); [lia|].
      replace ((2 * Y - 2 * (lo * w)) * den) with (2 * (Y * den) - 2 * (lo * w * den)) by ring.
      lia. }
    replace ((2 * m - 1) * g) with (2 * (m * g) - g) by ring.
    replace ((2 * m + 1) * g) with (2 * (m * g) + g) by ring.
    replace ((4 * m - 1) * g) with (4 * (m * g) - g) by ring.
    rewrite <- HY.
    replace ((lo + 1) * w) with (lo * w + w) in * by ring.
    split; [lia|]. intros E. lia.
Qed.

Lemma ofDecimal_fraction (neg : bool) (s j : Z) :
  0 < s ->
  ofDecimal neg (Z.to_N s) j
  = ofFraction neg (Z.to_pos (s * pow10up j)) (Z.to_pos (pow10dn j)).
Proof.
  intros Hs. destruct s as [|p|p]; try lia. cbn [Z.to_N ofDecimal].
  destruct (Z.leb_spec 0 j).
  - destruct (pow10_nonneg j ltac:(lia)) as [-> ->].
    assert (0 < 10 ^ j) by (apply Z.pow_pos_nonneg; lia).
    f_equal. rewrite Z2Pos.inj_mul by lia. reflexivity.
  - destruct (pow10_nonpos j ltac:(lia)) as [-> ->].
    now rewrite Z.mul_1_r.
Qed.

(** A decimal strictly inside the rounding interval of a double reads
    as that double. *)
Lemma ofDecimal_near (neg : bool) (m : positive) (e s j : Z) :
  binary64 m e = true -> 0 < s ->
  let g := pow10dn j * 2 ^ (e + 1074) in
  let D := s * (pow10up j * 2 ^ 1074) in
  (2 * Zpos m - 1) * g < 2 * D < (2 * Zpos m + 1) * g ->
  (2 * Zpos m = 2 ^ 53 -> (4 * Zpos m - 1) * g < 4 * D) ->
  ofDecimal neg (Z.to_N s) j = S754_finite neg m e.
Proof.
  intros Hd Hs g D Hin Hedge. rewrite ofDecimal_fraction by exact Hs.
  pose proof (pow10up_pos j). pose proof (pow10dn_pos j).
  apply ofFraction_near; [exact Hd | |].
  - rewrite !Z2Pos.id by (try apply Z.mul_pos_pos; lia).
    subst g D. rewrite <- !Z.mul_assoc. exact Hin.
  - intros E _. rewrite !Z2Pos.id by (try apply Z.mul_pos_pos; lia).
    subst g D. rewrite <- !Z.mul_assoc. apply Hedge.
    rewrite E. reflexivity.
Qed.

Lemma sameValue_refl (x : number) : sameValue x x = true.
Proof.
  destruct x as [s|s| |s m e]; simpl; try reflexivity; try (now destruct s).
  rewrite Pos.eqb_refl, Z.eqb_refl. now destruct s.
Qed.

Lemma sameValue_eq (x y : number) : sameValue x y = true -> x = y.
Proof.
  destruct x as [a|a| |a m e], y as [b|b| |b m' e']; simpl; try discriminate;
    try reflexivity.
  - intros H. apply Bool.eqb_prop in H. now subst.
  - intros H. apply Bool.eqb_prop in H. now subst.
  - intros H. apply andb_true_iff in H as [H He]. apply andb_true_iff in H as [Hs Hm].
    apply Bool.eqb_prop in Hs. apply Pos.eqb_eq in Hm. apply Z.eqb_eq in He. now subst.
Qed.

(** One of the two seventeen-digit decimals around a double denotes
    it. *)
Lemma seventeen_digits_denote (m : positive) (e num den n : Z) :
  binary64 m e = true -> 0 < num -> 0 < den ->
  num * 2 ^ 1074 = Zpos m * 2 ^ (e + 1074) * den ->
  ltPow10 num den n = true -> ltPow10 num den (n - 1) = false ->
  let a := num * pow10dn (n - 17) in
  let b := den * pow10up (n - 17) in
  let x := S754_finite false m e in
  (2 * (a mod b) <= b -> denotes x (a / b) n 17 = true)
  /\ (b < 2 * (a mod b) ->
      denotes x (a / b + 1) n 17 = true
      /\ (a / b + 1 = 10 ^ 17 -> denotes x (10 ^ 16) (n + 1) 17 = true)).
Proof.
  intros Hd Hnum Hden Hfrac Hlt Hge a b x.
  destruct (scaled_range num den n 17 Hnum Hden ltac:(lia) Hlt Hge) as [Hb Hab].
  fold a b in Hb, Hab.
  destruct (quotient_range a b _ _ Hb Hab) as [Hlo Hhi].
  destruct (div_mod_bounds a b Hb) as [Hdm Hr].
  pose proof (pow10up_pos (n - 17)) as Hu. pose proof (pow10dn_pos (n - 17)) as Hdn.
  assert (HW : 0 < 2 ^ 1074) by (apply pow2_pos; lia).
  pose proof Hd as Hd'. apply binary64_spec in Hd' as (Hm & He & _).
  assert (HG : 0 < 2 ^ (e + 1074)) by (apply pow2_pos; lia).
  assert (HPT : 2 ^ 53 < 10 ^ 16) by (vm_compute; reflexivity).
  assert (E17 : 10 ^ (17 - 1) = 10 ^ 16) by reflexivity. rewrite E17 in Hlo.
  set (lo := a / b) in *. set (r := a mod b) in *.
  set (u := pow10up (n - 17)) in *. set (d := pow10dn (n - 17)) in *.
  set (W := 2 ^ 1074) in *. set (G := 2 ^ (e + 1074)) in *.
  assert (Hgap := decimal_in_gap (Zpos m * (d * G)) (d * G) (u * W) den lo (r * W)
                    (Zpos m) (2 ^ 53) (10 ^ 16)
                    Hden ltac:(apply Z.mul_pos_pos; lia) ltac:(apply Z.mul_pos_pos; lia)
                    eq_refl ltac:(lia) HPT Hlo).
  assert (Hsplit : Z.pos m * (d * G) * den = lo * (u * W) * den + r * W).
  { transitivity (a * W).
    - subst a. replace (num * d * W) with (num * W * d) by ring. rewrite Hfrac. ring.
    - rewrite Hdm at 1. subst b. ring. }
  assert (HR : 0 <= r * W < den * (u * W)).
  { split; [apply Z.mul_nonneg_nonneg; lia|].
    replace (den * (u * W)) with (b * W) by (subst b; ring).
    apply Z.mul_lt_mono_pos_r; lia. }
  specialize (Hgap Hsplit HR). destruct Hgap as [Hlow Hhigh].
  assert (Hlo0 : 0 < lo) by (clearbody lo W G; lia).
  split.
  - intros Hc. unfold denotes.
    rewrite (ofDecimal_near false m e lo (n - 17) Hd Hlo0); [apply sameValue_refl| |].
    + fold d G u W. apply Hlow.
      replace (den * (u * W)) with (b * W) by (subst b; ring).
      replace (2 * (r * W)) with (2 * r * W) by ring.
      apply Z.mul_le_mono_nonneg_r; lia.
    + fold d G u W. apply Hlow.
      replace (den * (u * W)) with (b * W) by (subst b; ring).
      replace (2 * (r * W)) with (2 * r * W) by ring.
      apply Z.mul_le_mono_nonneg_r; lia.
  - intros Hc.
    assert (Hc' : den * (u * W) < 2 * (r * W)).
    { replace (den * (u * W)) with (b * W) by (subst b; ring).
      replace (2 * (r * W)) with (2 * r * W) by ring.
      apply Z.mul_lt_mono_pos_r; lia. }
    destruct (Hhigh Hc') as [Hin Hedge]. split.
    + unfold denotes.
      rewrite (ofDecimal_near false m e (lo + 1) (n - 17) Hd ltac:(lia));
        [apply sameValue_refl| |]; fold d G u W; assumption.
    + intros Ecarry. unfold denotes.
      pose proof (pow10_succ (n - 17)) as Esucc.
      replace (n - 17 + 1) with (n + 1 - 17) in Esucc by lia.
      pose proof (pow10up_pos (n + 1 - 17)) as Hu'.
      pose proof (pow10dn_pos (n + 1 - 17)) as Hdn'.
      fold u d in Esucc.
      set (u' := pow10up (n + 1 - 17)) in *. set (d' := pow10dn (n + 1 - 17)) in *.
      assert (E16 : 10 * 10 ^ 16 = 10 ^ 17) by reflexivity.
      assert (Escale : d * (10 ^ 16 * (u' * W)) = d' * ((lo + 1) * (u * W))).
      { rewrite Ecarry, <- E16.
        replace (d * (10 ^ 16 * (u' * W))) with (u' * d * (10 ^ 16 * W)) by ring.
        rewrite Esucc. ring. }
      rewrite (ofDecimal_near false m e (10 ^ 16) (n + 1 - 17) Hd ltac:(lia));
        [apply sameValue_refl| |]; fold d' G u' W.
      * clearbody lo r u d W G u' d'. destruct Hin as [Hin1 Hin2]. split.
        -- apply (mul_cancel_lt d); [lia|].
           replace (2 * (10 ^ 16 * (u' * W)) * d) with (2 * (d * (10 ^ 16 * (u' * W)))) by ring.
           rewrite Escale.
           replace ((2 * Z.pos m - 1) * (d' * G) * d) with (d' * ((2 * Z.pos m - 1) * (d * G))) by ring.
           replace (2 * (d' * ((lo + 1) * (u * W)))) with (d' * (2 * ((lo + 1) * (u * W)))) by ring.
           apply Z.mul_lt_mono_pos_l; lia.
        -- apply (mul_cancel_lt d); [lia|].
           replace (2 * (10 ^ 16 * (u' * W)) * d) with (2 * (d * (10 ^ 16 * (u' * W)))) by ring.
           rewrite Escale.
           replace ((2 * Z.pos m + 1) * (d' * G) * d) with (d' * ((2 * Z.pos m + 1) * (d * G))) by ring.
           replace (2 * (d' * ((lo + 1) * (u * W)))) with (d' * (2 * ((lo + 1) * (u * W)))) by ring.
           apply Z.mul_lt_mono_pos_l; lia.
      * intros E. specialize (Hedge E). clearbody lo r u d W G u' d'.
        apply (mul_cancel_lt d); [lia|].
        replace (4 * (10 ^ 16 * (u' * W)) * d) with (4 * (d * (10 ^ 16 * (u' * W)))) by ring.
        rewrite Escale.
        replace ((4 * Z.pos m - 1) * (d' * G) * d) with (d' * ((4 * Z.pos m - 1) * (d * G))) by ring.
        replace (4 * (d' * ((lo + 1) * (u * W)))) with (d' * (4 * ((lo + 1) * (u * W)))) by ring.
        apply Z.mul_lt_mono_pos_l; lia.
Qed.

Lemma digitsOfLength_unfold (x : number) (num den n k : Z) :
  let a := num * pow10dn (n - k) in
  let b := den * pow10up (n - k) in
  let lo := a / b in
  let hiS := if lo + 1 =? 10 ^ k then 10 ^ (k - 1) else lo + 1 in
  let hiN := if lo + 1 =? 10 ^ k then n + 1 else n in
  digitsOfLength x num den n k =
  match denotes x lo n k, denotes x hiS hiN k with
  | true, false => Some (lo, n)
  | false, true => Some (hiS, hiN)
  | false, false => None
  | true, true =>
      match 2 * (a mod b) ?= b with
      | Lt => Some (lo, n)
      | Gt => Some (hiS, hiN)
      | Eq => if Z.even lo then Some (lo, n) else Some (hiS, hiN)
      end
  end.
Proof.
  cbv zeta. unfold digitsOfLength. rewrite scaledFloor_spec.
  destruct (_ + 1 =? 10 ^ k); reflexivity.
Qed.

(** What [digitsOfLength] returns denotes the number and has [k]
    digits. *)
Lemma digitsOfLength_sound (x : number) (num den n k s n' : Z) :
  0 < num -> 0 < den -> 1 <= k ->
  ltPow10 num den n = true -> ltPow10 num den (n - 1) = false ->
  digitsOfLength x num den n k = Some (s, n') ->
  denotes x s n' k = true /\ 10 ^ (k - 1) <= s < 10 ^ k.
Proof.
  intros Hnum Hden Hk Hlt Hge. rewrite digitsOfLength_unfold. cbv zeta.
  destruct (scaled_range num den n k Hnum Hden Hk Hlt Hge) as [Hb Hab].
  destruct (quotient_range _ _ _ _ Hb Hab) as [Hlo Hhi].
  set (a := num * pow10dn (n - k)) in *. set (b := den * pow10up (n - k)) in *.
  set (lo := a / b) in *. clearbody lo.
  assert (Hpow : 10 ^ k = 10 * 10 ^ (k - 1)).
  { replace k with (k - 1 + 1) at 1 by lia. rewrite Z.pow_add_r by lia. lia. }
  assert (Hhirange : 10 ^ (k - 1)
                     <= (if lo + 1 =? 10 ^ k then 10 ^ (k - 1) else lo + 1) < 10 ^ k).
  { destruct (Z.eqb_spec (lo + 1) (10 ^ k)); lia. }
  set (hiS := if lo + 1 =? 10 ^ k then 10 ^ (k - 1) else lo + 1) in *.
  set (hiN := if lo + 1 =? 10 ^ k then n + 1 else n) in *.
  clearbody hiS hiN.
  destruct (denotes x lo n k) eqn:E1, (denotes x hiS hiN k) eqn:E2;
    [destruct (2 * (a mod b) ?= b); [destruct (Z.even lo)| |] | | |];
    intros H; try discriminate; injection H as <- <-; auto.
Qed.

Lemma shortest_sound (x : number) (num den n : Z) (fuel : nat) (k0 s n' k : Z) :
  shortest fuel x num den n k0 = Some (s, n', k) ->
  k0 <= k < k0 + Z.of_nat fuel /\ digitsOfLength x num den n k = Some (s, n').
Proof.
  revert k0. induction fuel as [|f IH]; intros k0; [discriminate|].
  cbn [shortest]. destruct (digitsOfLength x num den n k0) as [[s0 n0]|] eqn:E.
  - intros H. injection H as <- <- <-. split; [lia | exact E].
  - intros H. apply IH in H as [H1 H2]. split; [lia | exact H2].
Qed.

Lemma shortest_some (x : number) (num den n : Z) (fuel : nat) (k0 k1 : Z) :
  k0 <= k1 < k0 + Z.of_nat fuel ->
  digitsOfLength x num den n k1 <> None ->
  shortest fuel x num den n k0 <> None.
Proof.
  revert k0. induction fuel as [|f IH]; intros k0 Hk Hsome; [lia|].
  cbn [shortest]. destruct (digitsOfLength x num den n k0) as [[s0 n0]|] eqn:E;
    [discriminate|].
  apply IH; [|exact Hsome].
  destruct (Z.eq_dec k0 k1) as [->|]; [congruence | lia].
Qed.

(** Every double has a shortest decimal: at most seventeen digits, the
    first one not zero, that read back as the double. *)
Lemma shortestDigits_spec (m : positive) (e : Z) :
  binary64 m e = true ->
  exists s n k,
    shortestDigits m e = Some (s, n, k)
    /\ 1 <= k <= 17 /\ 10 ^ (k - 1) <= s < 10 ^ k
    /\ ofDecimal false (Z.to_N s) (n - k) = S754_finite false m e.
Proof.
  intros Hd. unfold shortestDigits.
  pose proof Hd as Hd'. apply binary64_spec in Hd' as (_ & He & _).
  destruct (fraction_of_double m e ltac:(lia)) as (Hnum & Hden & Hfrac).
  set (num := if 0 <=? e then Z.pos m * 2 ^ e else Z.pos m) in *.
  set (den := if 0 <=? e then 1 else 2 ^ (- e)) in *. clearbody num den.
  destruct (decimalExponent_double m e num den Hd Hnum Hden Hfrac) as [Hlt Hge].
  set (n := decimalExponent 800 num den 0) in *. clearbody n.
  set (x := S754_finite false m e).
  assert (H17 : digitsOfLength x num den n 17 <> None).
  { destruct (seventeen_digits_denote m e num den n Hd Hnum Hden Hfrac Hlt Hge)
      as [Hlow Hhigh].
    rewrite digitsOfLength_unfold. cbv zeta.
    set (a := num * pow10dn (n - 17)) in *. set (b := den * pow10up (n - 17)) in *.
    fold x in Hlow, Hhigh.
    destruct (Z.le_gt_cases (2 * (a mod b)) b) as [Hc|Hc].
    - rewrite (Hlow Hc).
      match goal with |- (if ?dh then _ else _) <> None => destruct dh end;
        [|discriminate].
      destruct (2 * (a mod b) ?= b); [destruct (Z.even (a / b))| |]; discriminate.
    - destruct (Hhigh Hc) as [Hhi Hcarry].
      assert (Hok : denotes x (if a / b + 1 =? 10 ^ 17 then 10 ^ (17 - 1) else a / b + 1)
                      (if a / b + 1 =? 10 ^ 17 then n + 1 else n) 17 = true).
      { destruct (Z.eqb_spec (a / b + 1) (10 ^ 17)) as [E|E]; [now apply Hcarry | exact Hhi]. }
      rewrite Hok.
      destruct (denotes x (a / b) n 17); cbv beta iota; [|discriminate].
      destruct (2 * (a mod b) ?= b); [destruct (Z.even (a / b))| |]; discriminate. }
  destruct (shortest 17 x num den n 1) as [[[s n'] k]|] eqn:E.
  - apply shortest_sound in E as [Hk Hdig].
    destruct (digitsOfLength_sound x num den n k s n' Hnum Hden ltac:(lia) Hlt Hge Hdig)
      as [Hden' Hrange].
    exists s, n', k. split; [reflexivity|]. split; [lia|]. split; [exact Hrange|].
    now apply sameValue_eq.
  - exfalso. revert E. apply (shortest_some x num den n 17 1 17); [lia | exact H17].
Qed.

(** *** Reading back the digits of Number::toString *)

Lemma spanDigits_all (ds rest : jsstring) :
  Forall (fun c => JSON.isDigit c = true) ds ->
  (forall c r, rest = c :: r -> JSON.isDigit c = false) ->
  JSON.spanDigits (ds ++ rest) = (ds, rest).
Proof.
  intros Hds Hrest. induction Hds as [|c ds Hc _ IH]; simpl.
  - destruct rest as [|c r]; [reflexivity|]. simpl. now rewrite (Hrest c r eq_refl).
  - now rewrite Hc, IH.
Qed.

Lemma digitsValue_from (acc : N) (l : jsstring) :
  fold_left (fun a c => (10 * a + (c - 48))%N) l acc
  = (acc * 10 ^ N.of_nat (List.length l) + JSON.digitsValue l)%N.
Proof.
  unfold JSON.digitsValue. revert acc. induction l as [|c l IH]; intros acc.
  - simpl. lia.
  - cbn [fold_left List.length]. rewrite IH. rewrite (IH (10 * 0 + (c - 48))%N).
    rewrite Nat2N.inj_succ, N.pow_succ_r'. lia.
Qed.

Lemma digitsValue_app (l1 l2 : jsstring) :
  JSON.digitsValue (l1 ++ l2)
  = (JSON.digitsValue l1 * 10 ^ N.of_nat (List.length l2) + JSON.digitsValue l2)%N.
Proof.
  unfold JSON.digitsValue at 1. rewrite fold_left_app. apply digitsValue_from.
Qed.

Lemma digitUnits_length (k : nat) (s : Z) : List.length (digitUnits k s) = k.
Proof.
  revert s. induction k as [|k IH]; intros s; [reflexivity|].
  cbn [digitUnits]. rewrite length_app, IH. simpl. lia.
Qed.

Lemma isDigit_units (d : Z) : 0 <= d <= 9 -> JSON.isDigit (Z.to_N (48 + d)) = true.
Proof.
  intros H. unfold JSON.isDigit. apply andb_true_iff. split; apply N.leb_le; lia.
Qed.

Lemma digitUnits_digits (k : nat) (s : Z) :
  Forall (fun c => JSON.isDigit c = true) (digitUnits k s).
Proof.
  revert s. induction k as [|k IH]; intros s; [constructor|].
  cbn [digitUnits]. apply Forall_app. split; [apply IH|].
  constructor; [|constructor]. apply isDigit_units.
  pose proof (Z.mod_pos_bound s 10 ltac:(lia)). lia.
Qed.

Lemma digitUnits_value (k : nat) (s : Z) :
  Z.of_N (JSON.digitsValue (digitUnits k s)) = s mod 10 ^ Z.of_nat k.
Proof.
  revert s. induction k as [|k IH]; intros s.
  - simpl. now rewrite Z.mod_1_r.
  - cbn [digitUnits]. rewrite digitsValue_app.
    pose proof (Z.mod_pos_bound s 10 ltac:(lia)) as Hd.
    replace (JSON.digitsValue [Z.to_N (48 + s mod 10)]) with (Z.to_N (s mod 10))
      by (unfold JSON.digitsValue; cbn [fold_left]; lia).
    cbn [List.length]. change (10 ^ N.of_nat 1)%N with 10%N.
    rewrite N2Z.inj_add, N2Z.inj_mul, IH, Z2N.id by lia.
    rewrite Nat2Z.inj_succ, Z.pow_succ_r by lia.
    assert (Hp : 0 < 10 ^ Z.of_nat k) by (apply Z.pow_pos_nonneg; lia).
    rewrite (Z.rem_mul_r s 10 (10 ^ Z.of_nat k)) by lia.
    change (Z.of_N 10) with 10. lia.
Qed.

(** The digits from the most significant one. *)
Lemma digitUnits_head (k : nat) (s : Z) :
  digitUnits (S k) s = Z.to_N (48 + (s / 10 ^ Z.of_nat k) mod 10) :: digitUnits k s.
Proof.
  revert s. induction k as [|k IH]; intros s.
  - simpl. now rewrite Z.div_1_r.
  - change (digitUnits (S (S k)) s)
      with (digitUnits (S k) (s / 10) ++ [Z.to_N (48 + s mod 10)]).
    rewrite IH. cbn [digitUnits app]. do 2 f_equal.
    rewrite Nat2Z.inj_succ, Z.pow_succ_r by lia.
    assert (Hp : 0 < 10 ^ Z.of_nat k) by (apply Z.pow_pos_nonneg; lia).
    rewrite Z.div_div by lia. reflexivity.
Qed.

Lemma zeros_digits (j : Z) : Forall (fun c => JSON.isDigit c = true) (zeros j).
Proof. unfold zeros. induction (Z.to_nat j); simpl; constructor; auto. Qed.

Lemma zeros_value (j : Z) : JSON.digitsValue (zeros j) = 0%N.
Proof.
  unfold zeros, JSON.digitsValue. induction (Z.to_nat j) as [|n IH]; [reflexivity|].
  simpl. exact IH.
Qed.

Lemma zeros_length (j : Z) : List.length (zeros j) = Z.to_nat j.
Proof. apply repeat_length. Qed.

Lemma uintUnits_digits (d : Decimal.uint) :
  Forall (fun c => JSON.isDigit c = true) (uintUnits d).
Proof. induction d; simpl; constructor; auto. Qed.

Lemma uintUnits_value_acc (d : Decimal.uint) (acc : positive) :
  fold_left (fun a c => (10 * a + (c - 48))%N) (uintUnits d) (Npos acc)
  = Npos (Pos.of_uint_acc d acc).
Proof.
  revert acc. induction d; intros acc; cbn [uintUnits fold_left Pos.of_uint_acc];
    [reflexivity | ..];
    match goal with
    | |- fold_left _ _ ?a = _ =>
        match goal with
        | |- _ = Npos (Pos.of_uint_acc _ ?b) => replace a with (Npos b) by lia
        end
    end; apply IHd.
Qed.

Lemma uintUnits_value (d : Decimal.uint) :
  JSON.digitsValue (uintUnits d) = Pos.of_uint d.
Proof.
  unfold JSON.digitsValue.
  induction d; cbn [uintUnits fold_left Pos.of_uint]; [reflexivity | exact IHd | ..];
    match goal with
    | |- fold_left _ _ ?a = Npos (Pos.of_uint_acc _ ?b) =>
        replace a with (Npos b) by lia
    end; apply uintUnits_value_acc.
Qed.

(** The decimal numeral of a natural number: digits, at least one,
    with the number as value. *)
Lemma intToString_digits (z : Z) :
  0 <= z ->
  Forall (fun c => JSON.isDigit c = true) (intToString z)
  /\ intToString z <> []
  /\ Z.of_N (JSON.digitsValue (intToString z)) = z.
Proof.
  intros Hz. unfold intToString.
  pose proof (DecimalZ.of_to z) as Hof.
  destruct (Z.to_int z) as [d|d] eqn:E.
  - split; [apply uintUnits_digits|]. split.
    + destruct d; try discriminate. destruct z; try discriminate; lia.
    + rewrite uintUnits_value. exact Hof.
  - exfalso. destruct z; try discriminate; lia.
Qed.

Lemma digitsValueZ_app (l1 l2 : jsstring) :
  Z.of_N (JSON.digitsValue (l1 ++ l2))
  = Z.of_N (JSON.digitsValue l1) * 10 ^ Z.of_nat (List.length l2)
    + Z.of_N (JSON.digitsValue l2).
Proof.
  rewrite digitsValue_app, N2Z.inj_add, N2Z.inj_mul, N2Z.inj_pow, nat_N_Z.
  reflexivity.
Qed.

Lemma scanInt_digits (c : N) (l rest : jsstring) :
  JSON.isDigit c = true -> c <> 48%N ->
  Forall (fun c => JSON.isDigit c = true) l ->
  (forall c r, rest = c :: r -> JSON.isDigit c = false) ->
  JSON.scanInt (c :: l ++ rest) = JSON.Done (c :: l) rest.
Proof.
  intros Hc H0 Hl Hrest. unfold JSON.scanInt.
  rewrite (proj2 (N.eqb_neq c 48) H0), Hc, (spanDigits_all l rest Hl Hrest).
  reflexivity.
Qed.

Lemma scanFrac_digits (ds rest : jsstring) :
  Forall (fun c => JSON.isDigit c = true) ds -> ds <> [] ->
  (forall c r, rest = c :: r -> JSON.isDigit c = false) ->
  JSON.scanFrac (46%N :: ds ++ rest) = JSON.Done ds rest.
Proof.
  intros Hds Hne Hrest. unfold JSON.scanFrac. rewrite N.eqb_refl.
  rewrite (spanDigits_all ds rest Hds Hrest). destruct ds; [contradiction | reflexivity].
Qed.

Lemma scanExp_digits (neg : bool) (ds : jsstring) :
  Forall (fun c => JSON.isDigit c = true) ds -> ds <> [] ->
  JSON.scanExp (101%N :: (if neg then 45%N else 43%N) :: ds)
  = JSON.Done (if neg then - Z.of_N (JSON.digitsValue ds)
               else Z.of_N (JSON.digitsValue ds)) [].
Proof.
  intros Hds Hne. unfold JSON.scanExp.
  assert (Hspan : JSON.spanDigits ds = (ds, [])).
  { rewrite <- (List.app_nil_r ds) at 1. apply spanDigits_all; [exact Hds | discriminate]. }
  destruct neg; cbn [N.eqb Pos.eqb orb]; rewrite Hspan;
    (destruct ds; [contradiction | reflexivity]).
Qed.

Lemma ofDecimal_digits (neg : bool) (l : jsstring) (s j : Z) :
  Z.of_N (JSON.digitsValue l) = s ->
  ofDecimal neg (JSON.digitsValue l) j = ofDecimal neg (Z.to_N s) j.
Proof. intros <-. now rewrite N2Z.id. Qed.

(** The digits of a [k]-digit number: the first one is not zero. *)
Lemma digitUnits_shape (k : Z) (s : Z) :
  1 <= k -> 10 ^ (k - 1) <= s < 10 ^ k ->
  exists c tl,
    digitUnits (Z.to_nat k) s = c :: tl
    /\ JSON.isDigit c = true /\ c <> 48%N
    /\ Forall (fun c => JSON.isDigit c = true) tl
    /\ List.length tl = Z.to_nat (k - 1)
    /\ Z.of_N (JSON.digitsValue (c :: tl)) = s.
Proof.
  intros Hk Hs.
  assert (Ek : Z.to_nat k = S (Z.to_nat (k - 1))) by lia.
  assert (Hp : 0 < 10 ^ (k - 1)) by (apply Z.pow_pos_nonneg; lia).
  assert (Hpow : 10 ^ k = 10 * 10 ^ (k - 1)).
  { replace k with (k - 1 + 1) at 1 by lia. rewrite Z.pow_add_r by lia. lia. }
  assert (Hq : 1 <= s / 10 ^ (k - 1) < 10).
  { apply quotient_range; lia. }
  exists (Z.to_N (48 + (s / 10 ^ (k - 1)) mod 10)), (digitUnits (Z.to_nat (k - 1)) s).
  rewrite Ek, digitUnits_head, Z2Nat.id by lia.
  rewrite (Z.mod_small (s / 10 ^ (k - 1)) 10) by lia.
  split; [reflexivity|]. split; [apply isDigit_units; lia|]. split; [lia|].
  split; [apply digitUnits_digits|]. split; [apply digitUnits_length|].
  pose proof (digitUnits_value (S (Z.to_nat (k - 1))) s) as Hv.
  rewrite digitUnits_head, Z2Nat.id in Hv by lia.
  rewrite (Z.mod_small (s / 10 ^ (k - 1)) 10) in Hv by lia.
  rewrite Hv, <- Ek, Z2Nat.id by lia. apply Z.mod_small. lia.
Qed.

Lemma Forall_firstn_of {A : Type} (P : A -> Prop) (n : nat) (l : list A) :
  Forall P l -> Forall P (firstn n l).
Proof.
  intros H. revert n. induction H as [|x l Hx _ IH]; intros [|n]; simpl;
    constructor; auto.
Qed.

Lemma Forall_skipn_of {A : Type} (P : A -> Prop) (n : nat) (l : list A) :
  Forall P l -> Forall P (skipn n l).
Proof.
  intros H. revert n. induction H as [|x l Hx Hl IH]; intros [|n]; simpl;
    try constructor; auto.
Qed.

Lemma scanMagnitude_parts (neg : bool) (l int s2 frac s3 s4 : jsstring) (e : Z) :
  JSON.scanInt l = JSON.Done int s2 ->
  JSON.scanFrac s2 = JSON.Done frac s3 ->
  JSON.scanExp s3 = JSON.Done e s4 ->
  JSON.scanMagnitude neg l
  = JSON.Done (ofDecimal neg (JSON.digitsValue (int ++ frac))
                 (e - Z.of_nat (List.length frac))) s4.
Proof. intros H1 H2 H3. unfold JSON.scanMagnitude. now rewrite H1, H2, H3. Qed.

(** Steps 6 to 10 of Number::toString print a decimal that the JSON
    grammar reads back as the same decimal. *)
Lemma scan_formatDigits (neg : bool) (s n k : Z) :
  1 <= k -> 10 ^ (k - 1) <= s < 10 ^ k ->
  JSON.scanMagnitude neg (formatDigits s n k)
  = JSON.Done (ofDecimal neg (Z.to_N s) (n - k)) [].
Proof.
  intros Hk Hs.
  destruct (digitUnits_shape k s Hk Hs) as (c & tl & Eds & Hc & Hc0 & Htl & Hlen & Hval).
  assert (Hs0 : 0 < s).
  { assert (0 < 10 ^ (k - 1)) by (apply Z.pow_pos_nonneg; lia). lia. }
  assert (Hnodigit : forall x rest, JSON.isDigit x = false ->
            forall c' r, x :: rest = c' :: r -> JSON.isDigit c' = false).
  { intros x rest Hx c' r E. now injection E as <- _. }
  unfold formatDigits. rewrite Eds.
  destruct ((k <=? n) && (n <=? 21)) eqn:C1.
  { (* an integer: the digits and zeros *)
    apply andb_true_iff in C1 as [C1 _]. apply Z.leb_le in C1.
    change ((c :: tl) ++ zeros (n - k)) with (c :: tl ++ zeros (n - k)).
    rewrite <- (List.app_nil_r (tl ++ zeros (n - k))).
    rewrite (scanMagnitude_parts neg _ (c :: tl ++ zeros (n - k)) [] [] [] [] 0);
      [ | apply scanInt_digits; [exact Hc | exact Hc0 | | discriminate]
        | reflexivity | reflexivity ].
    - rewrite List.app_nil_r. cbn [List.length Z.of_nat]. f_equal.
      assert (Hv : Z.of_N (JSON.digitsValue (c :: tl ++ zeros (n - k)))
                   = s * 10 ^ (n - k)).
      { change (c :: tl ++ zeros (n - k)) with ((c :: tl) ++ zeros (n - k)).
        rewrite digitsValueZ_app, Hval, zeros_value, zeros_length, Z2Nat.id by lia.
        change (Z.of_N 0) with 0. lia. }
      rewrite (ofDecimal_digits _ _ _ _ Hv).
      assert (Hp : 0 < 10 ^ (n - k)) by (apply Z.pow_pos_nonneg; lia).
      rewrite !ofDecimal_fraction by (try apply Z.mul_pos_pos; lia).
      destruct (pow10_nonneg (n - k) ltac:(lia)) as [-> ->].
      destruct (pow10_nonneg (0 - 0) ltac:(lia)) as [-> ->].
      change (10 ^ (0 - 0)) with 1. now rewrite Z.mul_1_r.
    - apply Forall_app. split; [exact Htl | apply zeros_digits]. }
  destruct ((0 <? n) && (n <=? 21)) eqn:C2.
  { (* digits on both sides of the point *)
    apply andb_true_iff in C2 as [C2 C2']. apply Z.ltb_lt in C2. apply Z.leb_le in C2'.
    apply andb_false_iff in C1 as [C1|C1]; [apply Z.leb_gt in C1|apply Z.leb_gt in C1; lia].
    assert (En : Z.to_nat n = S (Z.to_nat (n - 1))) by lia.
    rewrite En. cbn [firstn skipn].
    set (m := Z.to_nat (n - 1)).
    assert (Hfrac : skipn m tl <> []).
    { intros E. apply (f_equal (@List.length N)) in E. rewrite length_skipn in E.
      simpl in E. lia. }
    change ((c :: firstn m tl) ++ [46%N] ++ skipn m tl)
      with (c :: firstn m tl ++ 46%N :: skipn m tl).
    rewrite (scanMagnitude_parts neg _ (c :: firstn m tl) (46%N :: skipn m tl)
               (skipn m tl) [] [] 0);
      [ | apply scanInt_digits;
          [exact Hc | exact Hc0 | apply Forall_firstn_of; exact Htl
          | apply Hnodigit; reflexivity]
        | rewrite <- (List.app_nil_r (skipn m tl)) at 1;
          apply scanFrac_digits; [apply Forall_skipn_of; exact Htl | exact Hfrac | discriminate]
        | reflexivity ].
    change ((c :: firstn m tl) ++ skipn m tl) with (c :: firstn m tl ++ skipn m tl).
    rewrite firstn_skipn, (ofDecimal_digits _ _ _ _ Hval). f_equal. f_equal.
    rewrite length_skipn. lia. }
  destruct ((-6 <? n) && (n <=? 0)) eqn:C3.
  { (* a fraction below one: zeros after the point, then the digits *)
    apply andb_true_iff in C3 as [_ C3]. apply Z.leb_le in C3.
    change ([48%N; 46%N] ++ zeros (- n) ++ c :: tl)
      with (48%N :: 46%N :: zeros (- n) ++ c :: tl).
    rewrite (scanMagnitude_parts neg _ [48%N] (46%N :: zeros (- n) ++ c :: tl)
               (zeros (- n) ++ c :: tl) [] [] 0);
      [ | reflexivity
        | rewrite <- (List.app_nil_r (zeros (- n) ++ c :: tl)) at 1;
          apply scanFrac_digits;
          [ apply Forall_app; split; [apply zeros_digits | constructor; assumption]
          | intros E; apply app_eq_nil in E as [_ E]; discriminate
          | discriminate ]
        | reflexivity ].
    assert (Hv : Z.of_N (JSON.digitsValue ([48%N] ++ zeros (- n) ++ c :: tl)) = s).
    { rewrite !digitsValueZ_app, Hval, zeros_value.
      change (Z.of_N (JSON.digitsValue [48%N])) with 0. change (Z.of_N 0) with 0. lia. }
    rewrite (ofDecimal_digits _ _ _ _ Hv). f_equal. f_equal.
    rewrite length_app, zeros_length. cbn [List.length]. lia. }
  (* exponent notation *)
  destruct (intToString_digits (Z.abs (n - 1)) ltac:(lia)) as (Hex & Hexne & Hexv).
  assert (Esign : (if 0 <=? n - 1 then 43%N else 45%N)
                  = (if negb (0 <=? n - 1) then 45%N else 43%N))
    by (destruct (0 <=? n - 1); reflexivity).
  assert (Hexp : JSON.scanExp (101%N :: (if 0 <=? n - 1 then 43%N else 45%N)
                                 :: intToString (Z.abs (n - 1)))
                 = JSON.Done (n - 1) []).
  { rewrite Esign, (scanExp_digits _ _ Hex Hexne), Hexv. f_equal.
    destruct (Z.leb_spec 0 (n - 1)); cbn [negb]; lia. }
  cbv zeta. destruct (Z.eqb_spec k 1) as [E1|E1].
  - subst k. change (Z.to_nat (1 - 1)) with O in Hlen.
    destruct tl; [|discriminate].
    change ([c] ++ [101%N] ++ (if 0 <=? n - 1 then 43%N else 45%N)
              :: intToString (Z.abs (n - 1)))
      with (c :: [] ++ 101%N :: (if 0 <=? n - 1 then 43%N else 45%N)
              :: intToString (Z.abs (n - 1))).
    rewrite (scanMagnitude_parts neg _ [c] _ [] _ [] (n - 1)
               (scanInt_digits c [] _ Hc Hc0 (Forall_nil _)
                  (Hnodigit 101%N _ eq_refl))
               eq_refl Hexp).
    rewrite (ofDecimal_digits _ _ _ _ Hval). f_equal. f_equal.
    cbn [List.length Z.of_nat]. lia.
  - assert (Htlne : tl <> []).
    { intros E. subst tl. simpl in Hlen. lia. }
    cbn [firstn skipn].
    change ([c] ++ [46%N] ++ tl ++ [101%N] ++ (if 0 <=? n - 1 then 43%N else 45%N)
              :: intToString (Z.abs (n - 1)))
      with (c :: [] ++ 46%N :: tl ++ 101%N :: (if 0 <=? n - 1 then 43%N else 45%N)
              :: intToString (Z.abs (n - 1))).
    rewrite (scanMagnitude_parts neg _ [c] _ tl _ [] (n - 1)
               (scanInt_digits c [] _ Hc Hc0 (Forall_nil _)
                  (Hnodigit 46%N _ eq_refl))
               (scanFrac_digits tl _ Htl Htlne (Hnodigit 101%N _ eq_refl))
               Hexp).
    change ([c] ++ tl) with (c :: tl).
    rewrite (ofDecimal_digits _ _ _ _ Hval). f_equal. f_equal. lia.
Qed.

Lemma formatDigits_head (s n k : Z) :
  1 <= k -> 10 ^ (k - 1) <= s < 10 ^ k ->
  exists c r, formatDigits s n k = c :: r /\ JSON.isDigit c = true.
Proof.
  intros Hk Hs.
  destruct (digitUnits_shape k s Hk Hs) as (c & tl & Eds & Hc & _).
  unfold formatDigits. rewrite Eds.
  destruct ((k <=? n) && (n <=? 21)); [now exists c, (tl ++ zeros (n - k))|].
  destruct ((0 <? n) && (n <=? 21)) eqn:C2.
  { apply andb_true_iff in C2 as [C2 _]. apply Z.ltb_lt in C2.
    replace (Z.to_nat n) with (S (Z.to_nat (n - 1))) by lia. cbn [firstn app].
    eexists _, _. split; [reflexivity | exact Hc]. }
  destruct ((-6 <? n) && (n <=? 0)); [eexists _, _; split; reflexivity|].
  cbv zeta. destruct (k =? 1); cbn [firstn app]; eexists _, _; split;
    try reflexivity; exact Hc.
Qed.

(** The sign of a rounded fraction is the sign it was given. *)
Lemma ofFraction_sign (neg : bool) (num den m : positive) (e : Z) :
  ofFraction false num den = S754_finite false m e ->
  ofFraction neg num den = S754_finite neg m e.
Proof.
  unfold ofFraction.
  destruct (roundHalfEven _ _ =? 2 ^ 53).
  - change (2 ^ 52) with (Z.pos 4503599627370496).
    destruct (_ <=? 2045); [|discriminate]. intros H. now injection H as <- <-.
  - destruct (roundHalfEven _ _); try discriminate.
    destruct (_ <=? 2045); [|discriminate]. intros H. now injection H as <- <-.
Qed.

Lemma ofDecimal_sign (neg : bool) (d : N) (j : Z) (m : positive) (e : Z) :
  ofDecimal false d j = S754_finite false m e ->
  ofDecimal neg d j = S754_finite neg m e.
Proof.
  unfold ofDecimal. destruct d as [|p]; [discriminate|].
  destruct (0 <=? j); apply ofFraction_sign.
Qed.

Lemma scanNumber_toString (m : positive) (e : Z) (sg : bool) :
  binary64 m e = true ->
  JSON.scanNumber (toString (S754_finite sg m e))
  = JSON.Done (S754_finite sg m e) [].
Proof.
  intros Hv.
  destruct (shortestDigits_spec m e Hv) as (s & n & k & Esh & Hk & Hs & Hden).
  assert (Hscan : forall neg, JSON.scanMagnitude neg (toStringPositive m e)
                              = JSON.Done (S754_finite neg m e) []).
  { intros neg. unfold toStringPositive. rewrite Esh.
    rewrite scan_formatDigits by lia. f_equal. now apply ofDecimal_sign. }
  destruct sg; cbn [toString].
  - unfold JSON.scanNumber. rewrite N.eqb_refl. apply Hscan.
  - assert (Hhead : exists c r, toStringPositive m e = c :: r /\ JSON.isDigit c = true).
    { unfold toStringPositive. rewrite Esh. apply formatDigits_head; [lia | exact Hs]. }
    destruct Hhead as (c & r & Efmt & Hc).
    unfold JSON.scanNumber. rewrite Efmt.
    replace (c =? 45)%N with false.
    + rewrite <- Efmt. apply Hscan.
    + symmetry. apply N.eqb_neq. intros ->. discriminate.
Qed.

(** Number::toString of a finite Number is a JSON number that reads
    back as that Number, as the zero without sign for a zero. *)
Lemma toString_rereads (x : number) :
  validNumber x = true -> isFinite x = true -> rereads x = true.
Proof.
  intros Hv Hf. destruct x as [sg|sg| |sg m e]; try discriminate.
  - destruct sg; vm_compute; reflexivity.
  - unfold rereads. rewrite (scanNumber_toString m e sg Hv).
    cbn [isFinite andb unsigned]. apply sameValue_refl.
Qed.

(** What the JSON grammar reads as a number is a Number. *)
Lemma ofDecimal_valid (neg : bool) (d : N) (j : Z) :
  validNumber (ofDecimal neg d j) = true.
Proof.
  unfold ofDecimal. destruct d as [|p]; [reflexivity|].
  destruct (0 <=? j); apply ofFraction_valid.
Qed.

Lemma scanNumber_valid (s r : jsstring) (x : number) :
  JSON.scanNumber s = JSON.Done x r -> validNumber x = true.
Proof.
  unfold JSON.scanNumber.
  destruct (match s with
            | [] => (false, s)
            | c :: r0 => if (c =? 45)%N then (true, r0) else (false, s)
            end) as [neg s1].
  unfold JSON.scanMagnitude.
  destruct (JSON.scanInt s1) as [int s2| |]; try discriminate.
  destruct (JSON.scanFrac s2) as [frac s3| |]; try discriminate.
  destruct (JSON.scanExp s3) as [e s4| |]; try discriminate.
  intros H. injection H as <- _. apply ofDecimal_valid.
Qed.

(* ================================================================== *)
(** ** JSON.stringify followed by JSON.parse *)

(** *** Strings *)

Lemma hexValue_hexDigit (n : N) : (n < 16)%N -> JSON.hexValue (JSON.hexDigit n) = Some n.
Proof.
  intros H. unfold JSON.hexDigit, JSON.hexValue.
  destruct (N.ltb_spec n 10).
  - replace (48 <=? 48 + n)%N with true by (symmetry; apply N.leb_le; lia).
    replace (48 + n <=? 57)%N with true by (symmetry; apply N.leb_le; lia).
    cbn [andb]. f_equal. lia.
  - replace (87 + n <=? 57)%N with false by (symmetry; apply N.leb_gt; lia).
    replace (97 <=? 87 + n)%N with true by (symmetry; apply N.leb_le; lia).
    replace (87 + n <=? 102)%N with true by (symmetry; apply N.leb_le; lia).
    rewrite andb_false_r. cbn [andb]. f_equal. lia.
Qed.

Lemma hex4_unicodeEscape (c : N) (rest : jsstring) :
  (c < 65536)%N ->
  exists h1 h2 h3 h4,
    JSON.unicodeEscape c = [92; 117; h1; h2; h3; h4]%N
    /\ JSON.hex4 h1 h2 h3 h4 = Some c.
Proof.
  intros H. do 4 eexists. split; [reflexivity|].
  unfold JSON.hex4.
  rewrite !hexValue_hexDigit by (apply N.mod_lt; discriminate).
  f_equal. zify. Z.to_euclidean_division_equations. lia.
Qed.

Lemma parse_literal_unit (c : N) (rest acc : jsstring) :
  (c =? 34)%N = false -> (c =? 92)%N = false -> (c <? 32)%N = false ->
  JSON.parseStringBody (c :: rest) acc = JSON.parseStringBody rest (c :: acc).
Proof. intros H1 H2 H3. simpl. now rewrite H1, H2, H3. Qed.

Lemma parse_escapeUnit (c : N) (rest acc : jsstring) :
  JSON.parseStringBody (JSON.escapeUnit c ++ rest) acc
  = JSON.parseStringBody rest (c :: acc).
Proof.
  unfold JSON.escapeUnit.
  destruct (N.eqb_spec c 8) as [->|H8]; [reflexivity|].
  destruct (N.eqb_spec c 9) as [->|H9]; [reflexivity|].
  destruct (N.eqb_spec c 10) as [->|H10]; [reflexivity|].
  destruct (N.eqb_spec c 12) as [->|H12]; [reflexivity|].
  destruct (N.eqb_spec c 13) as [->|H13]; [reflexivity|].
  destruct (N.eqb_spec c 34) as [->|H34]; [reflexivity|].
  destruct (N.eqb_spec c 92) as [->|H92]; [reflexivity|].
  destruct ((c <? 32)%N || JSON.isLeadingSurrogate c || JSON.isTrailingSurrogate c)
    eqn:E.
  - assert (Hc : (c < 65536)%N).
    { unfold JSON.isLeadingSurrogate, JSON.isTrailingSurrogate in E.
      repeat (apply orb_true_iff in E as [E|E]);
        repeat (apply andb_true_iff in E as [? E]);
        repeat match goal with
               | H : (_ <=? _)%N = true |- _ => apply N.leb_le in H
               | H : (_ <? _)%N = true |- _ => apply N.ltb_lt in H
               end; lia. }
    destruct (hex4_unicodeEscape c rest Hc) as (h1 & h2 & h3 & h4 & -> & Hh).
    simpl. now rewrite Hh.
  - apply orb_false_iff in E as [E _]. apply orb_false_iff in E as [E _].
    apply parse_literal_unit; [now apply N.eqb_neq | now apply N.eqb_neq | exact E].
Qed.

Lemma surrogate_literal (c : N) :
  JSON.isLeadingSurrogate c || JSON.isTrailingSurrogate c = true ->
  (c =? 34)%N = false /\ (c =? 92)%N = false /\ (c <? 32)%N = false.
Proof.
  unfold JSON.isLeadingSurrogate, JSON.isTrailingSurrogate. intros E.
  assert (55296 <= c)%N.
  { apply orb_true_iff in E as [E|E]; apply andb_true_iff in E as [E _];
      apply N.leb_le in E; lia. }
  repeat split; [apply N.eqb_neq | apply N.eqb_neq | apply N.ltb_ge]; lia.
Qed.

Lemma quoteUnits_cons2 (c d : N) (r : jsstring) :
  JSON.quoteUnits (c :: d :: r)
  = if JSON.isLeadingSurrogate c && JSON.isTrailingSurrogate d
    then c :: d :: JSON.quoteUnits r
    else JSON.escapeUnit c ++ JSON.quoteUnits (d :: r).
Proof. reflexivity. Qed.

Lemma parse_quoteUnits_bounded (n : nat) :
  forall s rest acc, (List.length s <= n)%nat ->
    JSON.parseStringBody (JSON.quoteUnits s ++ 34%N :: rest) acc
    = JSON.Done (rev acc ++ s) rest.
Proof.
  induction n as [|n IH]; intros s rest acc Hn.
  - destruct s; [|simpl in Hn; lia]. simpl. now rewrite List.app_nil_r.
  - destruct s as [|c [|d r]].
    + simpl. now rewrite List.app_nil_r.
    + cbn [JSON.quoteUnits]. rewrite parse_escapeUnit. simpl. reflexivity.
    + rewrite quoteUnits_cons2.
      destruct (JSON.isLeadingSurrogate c && JSON.isTrailingSurrogate d) eqn:E.
      * apply andb_true_iff in E as [Ec Ed].
        destruct (surrogate_literal c) as (C1 & C2 & C3); [now rewrite Ec|].
        destruct (surrogate_literal d) as (D1 & D2 & D3);
          [rewrite Ed; apply orb_true_r|].
        cbn [app]. rewrite (parse_literal_unit c) by assumption.
        rewrite (parse_literal_unit d) by assumption.
        rewrite IH by (simpl in Hn; lia). simpl.
        now rewrite <- !List.app_assoc.
      * rewrite <- List.app_assoc, parse_escapeUnit.
        rewrite IH by (simpl in *; lia). simpl.
        now rewrite <- List.app_assoc.
Qed.

(** A quoted string reads back as itself. *)
Lemma parse_QuoteJSONString (s rest : jsstring) :
  exists body, JSON.QuoteJSONString s ++ rest = 34%N :: body
               /\ JSON.parseStringBody body [] = JSON.Done s rest.
Proof.
  exists (JSON.quoteUnits s ++ 34%N :: rest). split.
  - unfold JSON.QuoteJSONString. simpl. now rewrite <- List.app_assoc.
  - now rewrite (parse_quoteUnits_bounded (List.length s)).
Qed.

(** *** Numbers *)

Lemma spanDigits_app (l rest ds r : jsstring) :
  delimited rest = true -> JSON.spanDigits l = (ds, r) ->
  JSON.spanDigits (l ++ rest) = (ds, r ++ rest).
Proof.
  intros Hd. revert ds r. induction l as [|c l IH]; intros ds r H.
  - simpl in H. injection H as <- <-. simpl.
    destruct rest as [|c rest]; [reflexivity|]. simpl.
    unfold delimited, delimiter in Hd.
    destruct (JSON.isDigit c); [discriminate | reflexivity].
  - simpl in *. destruct (JSON.isDigit c).
    + destruct (JSON.spanDigits l) as [ds' r'] eqn:E. injection H as <- <-.
      now rewrite (IH _ _ eq_refl).
    + now injection H as <- <-.
Qed.

Lemma delimited_head (c : N) (rest : jsstring) :
  delimited (c :: rest) = true ->
  JSON.isDigit c = false /\ (c =? 46)%N = false /\ (c =? 101)%N = false
  /\ (c =? 69)%N = false /\ (c =? 43)%N = false /\ (c =? 45)%N = false.
Proof.
  unfold delimited, delimiter. rewrite negb_true_iff. intros H.
  repeat (apply orb_false_iff in H as [H ?]). repeat split; assumption.
Qed.

Lemma scanInt_app (l rest ds r : jsstring) :
  delimited rest = true -> JSON.scanInt l = JSON.Done ds r ->
  JSON.scanInt (l ++ rest) = JSON.Done ds (r ++ rest).
Proof.
  intros Hd. unfold JSON.scanInt. destruct l as [|c l]; [discriminate|]. simpl.
  destruct (c =? 48)%N.
  - intros H. now injection H as <- <-.
  - destruct (JSON.isDigit c); [|discriminate].
    destruct (JSON.spanDigits l) as [ds' r'] eqn:E. intros H. injection H as <- <-.
    now rewrite (spanDigits_app _ _ _ _ Hd E).
Qed.

Lemma scanFrac_app (l rest ds r : jsstring) :
  delimited rest = true -> JSON.scanFrac l = JSON.Done ds r ->
  JSON.scanFrac (l ++ rest) = JSON.Done ds (r ++ rest).
Proof.
  intros Hd. unfold JSON.scanFrac. destruct l as [|c l]; simpl.
  - intros H. injection H as <- <-. simpl.
    destruct rest as [|c rest]; [reflexivity|].
    apply delimited_head in Hd as (_ & -> & _). reflexivity.
  - destruct (c =? 46)%N.
    + destruct (JSON.spanDigits l) as [ds' r'] eqn:E.
      rewrite (spanDigits_app _ _ _ _ Hd E).
      destruct ds'; [unfold JSON.unexpected; destruct r'; discriminate|].
      intros H. now injection H as <- <-.
    + intros H. now injection H as <- <-.
Qed.

Lemma scanExp_app (l rest r : jsstring) (e : Z) :
  delimited rest = true -> JSON.scanExp l = JSON.Done e r ->
  JSON.scanExp (l ++ rest) = JSON.Done e (r ++ rest).
Proof.
  intros Hd. unfold JSON.scanExp. destruct l as [|c l]; simpl.
  - intros H. injection H as <- <-. simpl.
    destruct rest as [|c rest]; [reflexivity|].
    apply delimited_head in Hd as (_ & _ & -> & -> & _). reflexivity.
  - destruct ((c =? 101) || (c =? 69))%N.
    + destruct l as [|x l]; simpl.
      * discriminate.
      * destruct (x =? 43)%N.
        { destruct (JSON.spanDigits l) as [ds' r'] eqn:E.
          rewrite (spanDigits_app _ _ _ _ Hd E).
          destruct ds'; [unfold JSON.unexpected; destruct r'; discriminate|].
          intros H. now injection H as <- <-. }
        destruct (x =? 45)%N.
        { destruct (JSON.spanDigits l) as [ds' r'] eqn:E.
          rewrite (spanDigits_app _ _ _ _ Hd E).
          destruct ds'; [unfold JSON.unexpected; destruct r'; discriminate|].
          intros H. now injection H as <- <-. }
        destruct (JSON.spanDigits (x :: l)) as [ds' r'] eqn:E.
        change (x :: l ++ rest) with ((x :: l) ++ rest).
        rewrite (spanDigits_app _ _ _ _ Hd E).
        destruct ds'; [unfold JSON.unexpected; destruct r'; discriminate|].
        intros H. now injection H as <- <-.
    + intros H. now injection H as <- <-.
Qed.

Lemma scanMagnitude_app (neg : bool) (l rest r : jsstring) (x : number) :
  delimited rest = true -> JSON.scanMagnitude neg l = JSON.Done x r ->
  JSON.scanMagnitude neg (l ++ rest) = JSON.Done x (r ++ rest).
Proof.
  intros Hd. unfold JSON.scanMagnitude.
  destruct (JSON.scanInt l) as [int s2| |] eqn:E1; try discriminate.
  rewrite (scanInt_app _ _ _ _ Hd E1).
  destruct (JSON.scanFrac s2) as [frac s3| |] eqn:E2; try discriminate.
  rewrite (scanFrac_app _ _ _ _ Hd E2).
  destruct (JSON.scanExp s3) as [e s4| |] eqn:E3; try discriminate.
  rewrite (scanExp_app _ _ _ _ Hd E3).
  intros H. now injection H as <- <-.
Qed.

(** A number token read from [l] is read the same when a delimiter
    follows. *)
Lemma scanNumber_app (l rest r : jsstring) (x : number) :
  delimited rest = true -> JSON.scanNumber l = JSON.Done x r ->
  JSON.scanNumber (l ++ rest) = JSON.Done x (r ++ rest).
Proof.
  intros Hd. unfold JSON.scanNumber. destruct l as [|c l]; [discriminate|].
  cbn [app]. destruct (c =? 45)%N.
  - now apply scanMagnitude_app.
  - now apply (scanMagnitude_app false (c :: l)).
Qed.

(** *** Own-property order *)

Lemma hasProp_keys (k : jsstring) (props : list (jsstring * JsonValue)) :
  hasProp k props = existsb (fun k' => JsString.eqb k' k) (map fst props).
Proof.
  induction props as [|[k' v] props IH]; simpl; [reflexivity | now rewrite IH].
Qed.

Lemma stringKeysOk_snoc (ks : list jsstring) (k : jsstring) :
  stringKeysOk (ks ++ [k]) = true ->
  arrayIndex k = None
  /\ existsb (fun k' => JsString.eqb k' k) ks = false.
Proof.
  induction ks as [|k' ks IH]; simpl.
  - destruct (arrayIndex k); [discriminate | now split].
  - destruct (arrayIndex k'); [discriminate|].
    intros H. apply andb_true_iff in H as [Hk' H].
    destruct (IH H) as [Hk Hex]. split; [exact Hk|].
    rewrite Hex, orb_false_r. apply negb_true_iff in Hk'.
    rewrite existsb_app in Hk'. apply orb_false_iff in Hk' as [_ Hk'].
    simpl in Hk'. now rewrite orb_false_r in Hk'.
Qed.

Lemma ownKeysOk_snoc (ks : list jsstring) (k : jsstring) :
  forall lower,
    ownKeysOk lower (ks ++ [k]) = true ->
    existsb (fun k' => JsString.eqb k' k) ks = false
    /\ forall i, arrayIndex k = Some i ->
         lower < i
         /\ Forall (fun k' => exists j, arrayIndex k' = Some j /\ j < i) ks.
Proof.
  induction ks as [|k' ks IH]; intros lower H.
  - simpl in *. split; [reflexivity|]. intros i Hi. rewrite Hi in H.
    apply andb_true_iff in H as [H _]. apply Z.ltb_lt in H. now split.
  - cbn [app ownKeysOk] in H. destruct (arrayIndex k') as [j|] eqn:Ej.
    + apply andb_true_iff in H as [Hj H]. apply Z.ltb_lt in Hj.
      destruct (IH _ H) as [Hex Hidx]. split.
      * simpl. rewrite Hex, orb_false_r. apply jsstring_eqb_neq. intros ->.
        destruct (Hidx j Ej) as [Hlt _]. lia.
      * intros i Hi. destruct (Hidx i Hi) as [Hlt Hall]. split; [lia|].
        constructor; [|exact Hall]. exists j. split; [exact Ej | exact Hlt].
    + change (k' :: ks ++ [k]) with ((k' :: ks) ++ [k]) in H.
      apply stringKeysOk_snoc in H as [Hk Hex]. split; [exact Hex|].
      intros i Hi. congruence.
Qed.

Lemma insertIndexProp_last (i : Z) (k : jsstring) (v : JsonValue)
  (props : list (jsstring * JsonValue)) :
  Forall (fun k' => exists j, arrayIndex k' = Some j /\ j < i) (map fst props) ->
  insertIndexProp i k v props = props ++ [(k, v)].
Proof.
  induction props as [|[k' v'] props IH]; simpl; intros H; [reflexivity|].
  inversion H as [|x l (j & Hj & Hlt) Hrest]; subst.
  rewrite Hj. destruct (Z.ltb_spec i j); [lia|]. now rewrite IH.
Qed.

(** Creating, in order, the properties of an object in own-property
    order appends each one. *)
Lemma setProp_last (k : jsstring) (v : JsonValue)
  (props : list (jsstring * JsonValue)) :
  ownKeysOk (-1) (map fst props ++ [k]) = true ->
  setProp k v props = props ++ [(k, v)].
Proof.
  intros H. apply ownKeysOk_snoc in H as [Hex Hidx].
  unfold setProp. rewrite hasProp_keys, Hex.
  destruct (arrayIndex k) as [i|]; [|reflexivity].
  apply insertIndexProp_last. now apply Hidx.
Qed.

Lemma ownKeysOk_prefix (ks ks' : list jsstring) :
  forall lower, ownKeysOk lower (ks ++ ks') = true -> ownKeysOk lower ks = true.
Proof.
  assert (Hs : forall l, stringKeysOk (l ++ ks') = true -> stringKeysOk l = true).
  { induction l as [|k l IH]; simpl; [reflexivity|].
    destruct (arrayIndex k); [discriminate|]. intros H.
    apply andb_true_iff in H as [H1 H2]. rewrite (IH H2), andb_true_r.
    apply negb_true_iff in H1. rewrite existsb_app in H1.
    apply orb_false_iff in H1 as [H1 _]. now rewrite H1. }
  induction ks as [|k ks IH]; intros lower H; [reflexivity|].
  cbn [app ownKeysOk] in *. destruct (arrayIndex k) as [j|].
  - apply andb_true_iff in H as [H1 H2]. now rewrite H1, (IH _ H2).
  - now apply (Hs (k :: ks)).
Qed.

(** *** Whitespace *)

Lemma skipWs_blank (w s : jsstring) : blank w -> JSON.skipWs (w ++ s) = JSON.skipWs s.
Proof. induction 1 as [|c w Hc Hw IH]; simpl; [reflexivity | now rewrite Hc]. Qed.

Lemma skipWs_stop (c : N) (s : jsstring) :
  JSON.isWs c = false -> JSON.skipWs (c :: s) = c :: s.
Proof. intros H. simpl. now rewrite H. Qed.

Lemma parseValue_blank_prefix (fuel : nat) (w s : jsstring) :
  blank w -> JSON.parseValue fuel (w ++ s) = JSON.parseValue fuel s.
Proof. intros H. destruct fuel; simpl; [reflexivity | now rewrite skipWs_blank]. Qed.

Lemma parseMembers_blank_prefix (fuel : nat) (w s : jsstring)
  (acc : list (jsstring * JsonValue)) :
  blank w -> JSON.parseMembers fuel (w ++ s) acc = JSON.parseMembers fuel s acc.
Proof. intros H. destruct fuel; simpl; [reflexivity | now rewrite skipWs_blank]. Qed.

Lemma parseElements_blank_prefix (fuel : nat) (w s : jsstring) (acc : list JsonValue) :
  blank w -> JSON.parseElements fuel (w ++ s) acc = JSON.parseElements fuel s acc.
Proof.
  intros H. destruct fuel; simpl; [reflexivity|].
  now rewrite parseValue_blank_prefix.
Qed.

Lemma blank_repeat (n : nat) : blank (repeat 32%N n).
Proof. induction n; simpl; constructor; [reflexivity | assumption]. Qed.

Lemma blank_app (a b : jsstring) : blank a -> blank b -> blank (a ++ b).
Proof. intros Ha Hb. apply Forall_app. now split. Qed.

(** *** Values *)

Lemma wrap_shape (o c : N) (gap stepback indent : jsstring) (parts : list jsstring) :
  blank stepback -> blank indent ->
  exists lead sepws tail,
    blank lead /\ blank sepws /\ blank tail
    /\ JSON.wrap o c gap stepback indent parts
       = o :: lead ++ JSON.join (44%N :: sepws) parts ++ tail ++ [c].
Proof.
  intros Hs Hi. unfold JSON.wrap. destruct gap as [|g gap].
  - exists [], [], []. repeat split; constructor.
  - exists (10%N :: indent), (10%N :: indent), (10%N :: stepback).
    repeat split; constructor; solve [reflexivity | assumption].
Qed.

Lemma ws_delimiter (c : N) : JSON.isWs c = true -> delimiter c = true.
Proof.
  unfold JSON.isWs. intros H.
  repeat (apply orb_true_iff in H as [H|H]); apply N.eqb_eq in H; subst; reflexivity.
Qed.

Lemma delimited_blank (w : jsstring) (c : N) (rest : jsstring) :
  blank w -> delimiter c = true -> delimited (w ++ c :: rest) = true.
Proof.
  intros Hw Hc. destruct Hw as [|x w Hx Hw]; simpl; [exact Hc|].
  now apply ws_delimiter.
Qed.

Lemma scanNumber_head (c : N) (r r' : jsstring) (x : number) :
  JSON.scanNumber (c :: r) = JSON.Done x r' ->
  ((c =? 45)%N || JSON.isDigit c) = true.
Proof.
  unfold JSON.scanNumber, JSON.scanMagnitude. destruct (N.eqb_spec c 45) as [->|Hc]; [reflexivity|].
  simpl. destruct (N.eqb_spec c 48) as [->|H0]; [reflexivity|].
  destruct (JSON.isDigit c); [reflexivity | discriminate].
Qed.

Lemma number_start (c : N) :
  ((c =? 45)%N || JSON.isDigit c) = true ->
  JSON.isWs c = false /\ (c =? 123)%N = false /\ (c =? 91)%N = false
  /\ (c =? 34)%N = false /\ (c =? 116)%N = false /\ (c =? 102)%N = false
  /\ (c =? 110)%N = false /\ valueStart c = true.
Proof.
  intros H. assert (Hc : (c = 45 \/ (48 <= c <= 57))%N).
  { apply orb_true_iff in H as [H|H]; [apply N.eqb_eq in H; now left|].
    unfold JSON.isDigit in H. apply andb_true_iff in H as [H1 H2].
    apply N.leb_le in H1, H2. right. lia. }
  assert (Hne : forall n, (n <> 45 -> n < 48 \/ 57 < n -> (c =? n) = false)%N).
  { intros n H1 H2. apply N.eqb_neq. lia. }
  unfold valueStart, JSON.isWs.
  rewrite !Hne by lia. repeat split.
Qed.

(** The text of a value starts with a character of a value. *)
Lemma serialize_head (gap indent : jsstring) (v : JsonValue) :
  numbersReread v = true ->
  exists c r, JSON.serialize gap indent v = c :: r /\ valueStart c = true.
Proof.
  destruct v as [ |[|]|x|str|[|y items]|[|[k w] props]]; intros H;
    try (do 2 eexists; split; [reflexivity | reflexivity]).
  - simpl in H. unfold rereads in H. apply andb_true_iff in H as [Hf H].
    simpl. rewrite Hf.
    destruct (toString x) as [|c r] eqn:E; [discriminate|].
    destruct (JSON.scanNumber (c :: r)) as [y r'| |] eqn:Es; try discriminate.
    exists c, r. split; [reflexivity|].
    now apply scanNumber_head, number_start in Es.
  - cbn [JSON.serialize]. unfold JSON.wrap.
    destruct gap; do 2 eexists; split; reflexivity.
  - cbn [JSON.serialize]. unfold JSON.wrap.
    destruct gap; do 2 eexists; split; reflexivity.
Qed.

Lemma join_cons (sep p : jsstring) (ps : list jsstring) :
  ps <> [] -> JSON.join sep (p :: ps) = p ++ sep ++ JSON.join sep ps.
Proof. destruct ps; [contradiction | reflexivity]. Qed.

Lemma parseValue_array (f : nat) (lead s : jsstring) (c : N) :
  blank lead -> valueStart c = true ->
  JSON.parseValue (S f) (91%N :: lead ++ c :: s) = JSON.parseElements f (c :: s) [].
Proof.
  intros Hl Hc. simpl. rewrite skipWs_blank by assumption.
  unfold valueStart in Hc. apply andb_true_iff in Hc as [Hc _].
  apply andb_true_iff in Hc as [Hw H93]. apply negb_true_iff in Hw, H93.
  rewrite skipWs_stop by assumption. now rewrite H93.
Qed.

Lemma parseValue_object (f : nat) (lead s : jsstring) (c : N) :
  blank lead -> valueStart c = true ->
  JSON.parseValue (S f) (123%N :: lead ++ c :: s) = JSON.parseMembers f (c :: s) [].
Proof.
  intros Hl Hc. simpl. rewrite skipWs_blank by assumption.
  unfold valueStart in Hc. apply andb_true_iff in Hc as [Hc H125].
  apply andb_true_iff in Hc as [Hw _]. apply negb_true_iff in Hw, H125.
  rewrite skipWs_stop by assumption. now rewrite H125.
Qed.

Section Containers.

Variable ser : JsonValue -> jsstring.
Variables sepws tail rest : jsstring.
Hypothesis sepws_blank : blank sepws.
Hypothesis tail_blank : blank tail.

Lemma parseElements_join (xs : list JsonValue) :
  Forall (reads ser) xs -> xs <> [] ->
  forall acc fuel lead,
    blank lead ->
    (fold_right (fun x n => S (weight x + n)) O xs <= fuel)%nat ->
    JSON.parseElements fuel
      (lead ++ JSON.join (44%N :: sepws) (map ser xs) ++ tail ++ 93%N :: rest) acc
    = JSON.Done (JArray (rev acc ++ map normalize xs)) rest.
Proof.
  induction 1 as [|x xs [_ Hx] Hxs IH]; intros Hne acc fuel lead Hlead Hfuel;
    [contradiction|].
  rewrite parseElements_blank_prefix by assumption.
  destruct fuel as [|f]; [simpl in Hfuel; lia|]. simpl in Hfuel.
  destruct xs as [|y ys].
  - cbn [map JSON.join JSON.parseElements].
    rewrite Hx by (try apply delimited_blank; try assumption; try reflexivity; lia).
    rewrite skipWs_blank by assumption. reflexivity.
  - cbn [map]. rewrite join_cons by discriminate.
    cbn [JSON.parseElements]. rewrite <- !List.app_assoc.
    rewrite Hx by (try reflexivity; lia). simpl JSON.skipWs. cbn match.
    change (44 =? 44)%N with true. cbn match.
    etransitivity;
      [apply (IH ltac:(discriminate) (normalize x :: acc) f sepws);
       try assumption; simpl in *; lia|].
    simpl. now rewrite <- List.app_assoc.
Qed.

Variable colonws : jsstring.
Hypothesis colonws_blank : blank colonws.

Lemma parseMembers_key (f : nat) (body k s : jsstring)
  (acc : list (jsstring * JsonValue)) :
  JSON.parseStringBody body [] = JSON.Done k (58%N :: s) ->
  JSON.parseMembers (S f) (34%N :: body) acc
  = match JSON.parseValue f s with
    | JSON.Done v r3 =>
        match JSON.skipWs r3 with
        | [] => JSON.Fail JSON.UnexpectedEnd
        | c2 :: r4 =>
            if (c2 =? 44)%N then JSON.parseMembers f r4 (setProp k v acc)
            else if (c2 =? 125)%N then JSON.Done (JObject (setProp k v acc)) r4
            else JSON.Fail (JSON.UnexpectedToken c2)
        end
    | JSON.Fail e => JSON.Fail e
    | JSON.Fuel => JSON.Fuel
    end.
Proof. intros H. simpl. rewrite H. reflexivity. Qed.

Lemma parseMembers_join (ps : list (jsstring * JsonValue)) :
  Forall (fun kv => reads ser (snd kv)) ps -> ps <> [] ->
  forall done fuel lead,
    blank lead ->
    (fold_right (fun kv n => S (weight (snd kv) + n)) O ps <= fuel)%nat ->
    ownKeysOk (-1) (map fst (done ++ ps)) = true ->
    JSON.parseMembers fuel
      (lead ++ JSON.join (44%N :: sepws) (map (member ser colonws) ps) ++ tail ++ 125%N :: rest)
      (map normalizeProp done)
    = JSON.Done (JObject (map normalizeProp (done ++ ps))) rest.
Proof.
  induction 1 as [|[k x] ps [_ Hx] Hps IH];
    intros Hne done fuel lead Hlead Hfuel Hkeys; [contradiction|].
  rewrite parseMembers_blank_prefix by assumption.
  destruct fuel as [|f]; [simpl in Hfuel; lia|]. simpl in Hfuel.
  assert (Hset : setProp k (normalize x) (map normalizeProp done)
                 = map normalizeProp (done ++ [(k, x)])).
  { rewrite map_app. apply setProp_last.
    rewrite map_map. simpl.
    change (fun kv : jsstring * JsonValue => fst kv) with (@fst jsstring JsonValue).
    rewrite map_app in Hkeys. simpl in Hkeys.
    change (map fst done ++ k :: map fst ps)
      with (map fst done ++ [k] ++ map fst ps) in Hkeys.
    rewrite List.app_assoc in Hkeys. now apply ownKeysOk_prefix in Hkeys. }
  simpl in Hx.
  destruct ps as [|q qs].
  - cbn [map JSON.join]. unfold member at 1. cbn [fst snd].
    rewrite <- !List.app_assoc.
    destruct (parse_QuoteJSONString k
                ((58%N :: colonws ++ ser x) ++ tail ++ 125%N :: rest))
      as (body & -> & Hbody).
    rewrite (parseMembers_key f body k
               ((colonws ++ ser x) ++ tail ++ 125%N :: rest) _ Hbody).
    rewrite <- List.app_assoc, parseValue_blank_prefix by assumption.
    rewrite Hx by (try apply delimited_blank; try assumption; try reflexivity; lia).
    rewrite skipWs_blank by assumption.
    cbn -[setProp normalizeProp]. now rewrite Hset.
  - cbn [map]. rewrite join_cons by discriminate.
    unfold member at 1. cbn [fst snd]. rewrite <- !List.app_assoc.
    destruct (parse_QuoteJSONString k
                ((58%N :: colonws ++ ser x)
                   ++ (44%N :: sepws)
                   ++ JSON.join (44%N :: sepws) (member ser colonws q :: map (member ser colonws) qs)
                   ++ tail ++ 125%N :: rest))
      as (body & -> & Hbody).
    rewrite (parseMembers_key f body k
               ((colonws ++ ser x)
                  ++ (44%N :: sepws)
                  ++ JSON.join (44%N :: sepws) (member ser colonws q :: map (member ser colonws) qs)
                  ++ tail ++ 125%N :: rest) _ Hbody).
    rewrite <- List.app_assoc, parseValue_blank_prefix by assumption.
    rewrite Hx by (try reflexivity; lia).
    cbn -[setProp normalizeProp JSON.join JSON.parseMembers]. rewrite Hset.
    etransitivity;
      [apply (IH ltac:(discriminate) (done ++ [(k, x)]) f sepws);
       try assumption; try (simpl in *; lia);
       rewrite <- List.app_assoc; exact Hkeys|].
    now rewrite <- List.app_assoc.
Qed.

End Containers.

Lemma forallb_Forall_and {A} (f g : A -> bool) (P : A -> Prop) (l : list A) :
  Forall (fun x => f x = true -> g x = true -> P x) l ->
  forallb f l = true -> forallb g l = true -> Forall P l.
Proof.
  induction 1 as [|x l Hx Hl IH]; simpl; intros Hf Hg; constructor.
  - apply andb_true_iff in Hf as [Hf _]. apply andb_true_iff in Hg as [Hg _]. auto.
  - apply andb_true_iff in Hf as [_ Hf]. apply andb_true_iff in Hg as [_ Hg]. auto.
Qed.

Lemma join_head (sep p : jsstring) (ps : list jsstring) (c : N) (r : jsstring) :
  p = c :: r -> exists s, JSON.join sep (p :: ps) = c :: s.
Proof. intros ->. destruct ps; simpl; eauto. Qed.

(** The text [JSON.stringify] writes for a value is read by
    [JSON.parseValue] as that value. *)
Lemma parse_serialize (gap : jsstring) (v : JsonValue) :
  blank gap ->
  forall indent,
    blank indent -> wellFormed v = true -> numbersReread v = true ->
    reads (JSON.serialize gap indent) v.
Proof.
  intros Hgap.
  induction v as [ |b|x|str|items IH|props IH] using JsonValue_induction;
    intros indent Hind Hwf Hnum;
    (split; [now apply serialize_head|]); intros rest fuel Hrest Hfuel;
    (destruct fuel as [|f]; [simpl in Hfuel; lia|]).
  - reflexivity.
  - destruct b; reflexivity.
  - simpl in Hnum. unfold rereads in Hnum. apply andb_true_iff in Hnum as [Hf Hs].
    cbn [JSON.serialize normalize]. rewrite Hf.
    destruct (JSON.scanNumber (toString x)) as [y [|? ?]| |] eqn:Es; try discriminate.
    apply sameValue_eq in Hs. subst y.
    pose proof (scanNumber_app _ _ _ _ Hrest Es) as Happ. simpl in Happ.
    destruct (toString x) as [|c r] eqn:Et; [discriminate|].
    pose proof (scanNumber_head _ _ _ _ Es) as Hc.
    destruct (number_start c Hc) as (W & C1 & C2 & C3 & C4 & C5 & C6 & _).
    cbn [app JSON.parseValue]. rewrite skipWs_stop by assumption.
    rewrite C1, C2, C3, C4, C5, C6, Hc.
    change (c :: r ++ rest) with ((c :: r) ++ rest). now rewrite Happ.
  - cbn [JSON.serialize normalize].
    destruct (parse_QuoteJSONString str rest) as (body & -> & Hbody).
    simpl. now rewrite Hbody.
  - set (ser := JSON.serialize gap (indent ++ gap)).
    assert (Hall : Forall (reads ser) items).
    { cbn [wellFormed numbersReread] in Hwf, Hnum. revert Hwf Hnum.
      apply forallb_Forall_and.
      eapply Forall_impl; [|exact IH]. intros y Hy Hw Hn.
      apply Hy; [now apply blank_app | assumption | assumption]. }
    destruct items as [|x xs]; [reflexivity|].
    cbn [JSON.serialize]. fold ser.
    destruct (wrap_shape 91 93 gap indent (indent ++ gap) (map ser (x :: xs)))
      as (lead & sepws & tail & Hlead & Hsep & Htail & ->);
      [assumption | now apply blank_app|].
    inversion Hall as [|x0 l0 [(c & r & Hc & Hstart) _] _]; subst x0 l0.
    destruct (join_head (44%N :: sepws) (ser x) (map ser xs) c r Hc) as [s Hs].
    cbn [app]. rewrite <- !List.app_assoc. cbn [map] in *. rewrite Hs.
    cbn [app]. rewrite parseValue_array by assumption.
    change (c :: s ++ tail ++ 93%N :: rest)
      with ([] ++ (c :: s) ++ tail ++ 93%N :: rest).
    rewrite <- Hs.
    rewrite (parseElements_join ser sepws tail rest Hsep Htail (x :: xs) Hall)
      by (try discriminate; try constructor; simpl in *; lia).
    reflexivity.
  - set (ser := JSON.serialize gap (indent ++ gap)).
    cbn [wellFormed numbersReread] in Hwf, Hnum.
    apply andb_true_iff in Hwf as [Hkeys Hwf].
    assert (Hall : Forall (fun kv => reads ser (snd kv)) props).
    { revert Hwf Hnum.
      apply (forallb_Forall_and (fun kv => wellFormed (snd kv))
               (fun kv => numbersReread (snd kv))).
      eapply Forall_impl; [|exact IH]. intros y Hy Hw Hn.
      apply Hy; [now apply blank_app | assumption | assumption]. }
    destruct props as [|[k x] ps]; [reflexivity|].
    cbn [JSON.serialize]. fold ser.
    set (colonws := match gap with [] => [] | _ :: _ => [32%N] end).
    assert (Hcolon : blank colonws).
    { subst colonws. destruct gap; repeat constructor. }
    change (map _ ((k, x) :: ps)) with (map (member ser colonws) ((k, x) :: ps)).
    destruct (wrap_shape 123 125 gap indent (indent ++ gap)
                (map (member ser colonws) ((k, x) :: ps)))
      as (lead & sepws & tail & Hlead & Hsep & Htail & ->);
      [assumption | now apply blank_app|].
    destruct (join_head (44%N :: sepws) (member ser colonws (k, x))
                (map (member ser colonws) ps) 34%N
                (JSON.quoteUnits k ++ [34%N] ++ 58%N :: colonws ++ ser x))
      as [s Hs].
    { unfold member, JSON.QuoteJSONString. simpl. now rewrite <- List.app_assoc. }
    cbn [app]. rewrite <- !List.app_assoc. cbn [map] in *. rewrite Hs.
    cbn [app]. rewrite parseValue_object by (try assumption; reflexivity).
    change (34%N :: s ++ tail ++ 125%N :: rest)
      with ([] ++ (34%N :: s) ++ tail ++ 125%N :: rest).
    rewrite <- Hs.
    rewrite (parseMembers_join ser sepws tail rest Hsep Htail colonws Hcolon
               ((k, x) :: ps) Hall ltac:(discriminate) [])
      by (try constructor; try exact Hkeys; simpl in *; lia).
    reflexivity.
Qed.

(** *** The recursion budget covers the text of a value *)

Lemma join_length (sep : jsstring) (parts : list jsstring) :
  (fold_right (fun p n => List.length p + n) O parts
   <= List.length (JSON.join sep parts))%nat.
Proof.
  induction parts as [|p [|q ps] IH]; simpl in *; rewrite ?length_app in *; lia.
Qed.

Lemma wrap_length (o c : N) (gap stepback indent : jsstring) (parts : list jsstring) :
  (2 + fold_right (fun p n => List.length p + n) O parts
   <= List.length (JSON.wrap o c gap stepback indent parts))%nat.
Proof.
  unfold JSON.wrap.
  destruct gap; simpl; rewrite ?length_app; simpl; rewrite ?length_app; simpl;
    match goal with
    | |- context [JSON.join ?sep parts] => pose proof (join_length sep parts)
    end; lia.
Qed.

Lemma text_weight (v : JsonValue) :
  numbersReread v = true ->
  forall gap indent,
    (weight v + 1 <= 2 * List.length (JSON.serialize gap indent v))%nat.
Proof.
  induction v as [ |b|x|str|items IH|props IH] using JsonValue_induction;
    intros Hnum gap indent.
  - simpl. lia.
  - destruct b; simpl; lia.
  - destruct (serialize_head gap indent (JNumber x) Hnum) as (c & r & -> & _).
    simpl. lia.
  - simpl. rewrite length_app. simpl. lia.
  - cbn [numbersReread] in Hnum.
    assert (Hsum : forall ser : JsonValue -> jsstring,
               (forall y, In y items -> (weight y + 1 <= 2 * List.length (ser y))%nat) ->
               (fold_right (fun x n => S (weight x + n)) O items
                <= 2 * fold_right (fun p n => List.length p + n) O (map ser items))%nat).
    { intros ser Hser. clear IH Hnum. induction items as [|y ys IHl]; simpl; [lia|].
      pose proof (Hser y (or_introl eq_refl)).
      specialize (IHl (fun z Hz => Hser z (or_intror Hz))). lia. }
    destruct items as [|x xs]; [simpl; lia|].
    cbn [JSON.serialize weight].
    pose proof (wrap_length 91 93 gap indent (indent ++ gap)
                  (map (JSON.serialize gap (indent ++ gap)) (x :: xs))) as Hw.
    specialize (Hsum (JSON.serialize gap (indent ++ gap))).
    rewrite Forall_forall in IH. rewrite forallb_forall in Hnum.
    specialize (Hsum (fun y Hy => IH y Hy (Hnum y Hy) gap (indent ++ gap))).
    lia.
  - cbn [numbersReread] in Hnum.
    assert (Hsum : forall mem : jsstring * JsonValue -> jsstring,
               (forall kv, In kv props ->
                  (weight (snd kv) + 1 <= 2 * List.length (mem kv))%nat) ->
               (fold_right (fun kv n => S (weight (snd kv) + n)) O props
                <= 2 * fold_right (fun p n => List.length p + n) O (map mem props))%nat).
    { intros mem Hmem. clear IH Hnum. induction props as [|y ys IHl]; simpl; [lia|].
      pose proof (Hmem y (or_introl eq_refl)).
      specialize (IHl (fun z Hz => Hmem z (or_intror Hz))). lia. }
    destruct props as [|[k x] ps]; [simpl; lia|].
    cbn [JSON.serialize weight].
    match goal with
    | |- context [JSON.wrap _ _ _ _ _ (map ?mem ?l)] =>
        pose proof (wrap_length 123 125 gap indent (indent ++ gap) (map mem l)) as Hw;
        specialize (Hsum mem)
    end.
    rewrite Forall_forall in IH. rewrite forallb_forall in Hnum.
    assert (Hmem : forall kv, In kv ((k, x) :: ps) ->
              (weight (snd kv) + 1
               <= 2 * List.length
                        (JSON.QuoteJSONString (fst kv) ++ 58%N
                           :: match gap with [] => [] | _ :: _ => [32%N] end
                           ++ JSON.serialize gap (indent ++ gap) (snd kv)))%nat).
    { intros kv Hkv. pose proof (IH kv Hkv (Hnum kv Hkv) gap (indent ++ gap)).
      rewrite length_app. simpl. rewrite !length_app. lia. }
    specialize (Hsum Hmem). unfold jsstring in *. lia.
Qed.

(** [JSON.parse(JSON.stringify(v, null, space))] is [v], zeros unsigned. *)
Lemma parse_stringify (v : JsonValue) (space : Z) :
  wellFormed v = true -> numbersReread v = true ->
  JSON.parse (JSON.stringify v space) = Normal (normalize v).
Proof.
  intros Hwf Hnum. unfold JSON.parse, JSON.stringify.
  set (gap := repeat 32%N _).
  destruct (parse_serialize gap v (blank_repeat _) [] ltac:(constructor) Hwf Hnum)
    as [_ Hparse].
  specialize (Hparse [] (JSON.budget (JSON.serialize gap [] v)) eq_refl).
  rewrite List.app_nil_r in Hparse. rewrite Hparse; [reflexivity|].
  pose proof (text_weight v Hnum gap []). unfold JSON.budget. lia.
Qed.

(** *** Deep equality *)

Lemma strictEq_unsigned (x : number) : isFinite x = true -> strictEq (unsigned x) x = true.
Proof.
  destruct x as [s|s| |s m e]; simpl; try discriminate; intros _.
  - reflexivity.
  - unfold strictEq, SFeqb, SFcompare.
    rewrite Z.compare_refl, Pos.compare_cont_refl. now destruct s.
Qed.

Lemma rereads_finite (x : number) : rereads x = true -> isFinite x = true.
Proof. unfold rereads. intros H. now apply andb_true_iff in H as [H _]. Qed.

Lemma deepEqual_normalize (v : JsonValue) :
  numbersReread v = true -> deepEqual (normalize v) v = true.
Proof.
  induction v as [ |b|x|str|items IH|props IH] using JsonValue_induction;
    intros Hnum; cbn [normalize deepEqual].
  - reflexivity.
  - now destruct b.
  - now apply strictEq_unsigned, rereads_finite.
  - apply jsstring_eqb_refl.
  - cbn [numbersReread] in Hnum.
    induction IH as [|x xs Hx Hxs IHl]; [reflexivity|].
    simpl in Hnum. apply andb_true_iff in Hnum as [H1 H2].
    cbn [map]. rewrite (Hx H1). simpl. now apply IHl.
  - cbn [numbersReread] in Hnum.
    induction IH as [|[k x] ps Hx Hps IHl]; [reflexivity|].
    simpl in Hnum, Hx. apply andb_true_iff in Hnum as [H1 H2].
    cbn [map fst snd]. rewrite jsstring_eqb_refl, (Hx H1). simpl. now apply IHl.
Qed.

(* ================================================================== *)
(** ** What JSON.parse returns lists its properties in own-property order *)

Lemma arrayIndex_numeral (k : jsstring) (i : Z) : arrayIndex k = Some i -> k = intToString i.
Proof.
  unfold arrayIndex. destruct (readInt k) as [z|]; [|discriminate].
  destruct ((0 <=? z) && (z <? 4294967295) && JsString.eqb (intToString z) k) eqn:E;
    [|discriminate].
  intros H. injection H as <-. apply andb_true_iff in E as [_ E].
  symmetry. now apply jsstring_eqb_eq.
Qed.

Lemma replaceProp_keys (k : jsstring) (v : JsonValue)
  (props : list (jsstring * JsonValue)) :
  map fst (replaceProp k v props) = map fst props.
Proof.
  induction props as [|[k' v'] props IH]; simpl; [reflexivity|].
  destruct (JsString.eqb k' k); simpl; [reflexivity | now rewrite IH].
Qed.

Lemma stringKeysOk_append (ks : list jsstring) (k : jsstring) :
  stringKeysOk ks = true -> arrayIndex k = None ->
  existsb (fun k' => JsString.eqb k' k) ks = false ->
  stringKeysOk (ks ++ [k]) = true.
Proof.
  intros Hs Hk. induction ks as [|k' ks IH]; simpl; intros Hex.
  - now rewrite Hk.
  - simpl in Hs. destruct (arrayIndex k'); [discriminate|].
    apply andb_true_iff in Hs as [H1 H2].
    apply orb_false_iff in Hex as [Hkk Hex].
    rewrite (IH H2 Hex), andb_true_r.
    apply negb_true_iff. rewrite existsb_app. apply negb_true_iff in H1.
    rewrite H1. simpl. now rewrite Hkk.
Qed.

Lemma ownKeysOk_append (ks : list jsstring) (k : jsstring) :
  forall lower,
    ownKeysOk lower ks = true -> arrayIndex k = None ->
    existsb (fun k' => JsString.eqb k' k) ks = false ->
    ownKeysOk lower (ks ++ [k]) = true.
Proof.
  induction ks as [|k' ks IH]; intros lower Hs Hk Hex.
  - simpl. now rewrite Hk.
  - cbn [app ownKeysOk] in *. destruct (arrayIndex k') as [j|].
    + apply andb_true_iff in Hs as [H1 H2]. rewrite H1. simpl in Hex.
      apply orb_false_iff in Hex as [_ Hex]. now apply IH.
    + now apply (stringKeysOk_append (k' :: ks)).
Qed.

Lemma ownKeysOk_insert (i : Z) (k : jsstring) (v : JsonValue)
  (props : list (jsstring * JsonValue)) :
  arrayIndex k = Some i ->
  forall lower,
    lower < i -> ownKeysOk lower (map fst props) = true ->
    existsb (fun k' => JsString.eqb k' k) (map fst props) = false ->
    ownKeysOk lower (map fst (insertIndexProp i k v props)) = true.
Proof.
  intros Hk. induction props as [|[k' v'] props IH]; intros lower Hlow Hs Hex.
  - simpl. rewrite Hk. apply andb_true_iff. split; [now apply Z.ltb_lt | reflexivity].
  - cbn [map fst ownKeysOk insertIndexProp] in *.
    apply orb_false_iff in Hex as [Hkk Hex].
    destruct (arrayIndex k') as [j|] eqn:Ej.
    + apply andb_true_iff in Hs as [H1 H2]. apply Z.ltb_lt in H1.
      destruct (Z.ltb_spec i j).
      * cbn [map fst ownKeysOk]. rewrite Hk, Ej.
        repeat (apply andb_true_iff; split); try apply Z.ltb_lt; assumption.
      * cbn [map fst ownKeysOk]. rewrite Ej.
        assert (i <> j).
        { intros ->. apply jsstring_eqb_neq in Hkk. apply Hkk.
          apply arrayIndex_numeral in Hk, Ej. congruence. }
        apply andb_true_iff. split; [now apply Z.ltb_lt|].
        apply IH; [lia | assumption | assumption].
    + cbn [map fst ownKeysOk]. rewrite Hk.
      apply andb_true_iff. split; [now apply Z.ltb_lt|].
      cbn [ownKeysOk]. now rewrite Ej.
Qed.

Lemma setProp_keys_ok (k : jsstring) (v : JsonValue)
  (props : list (jsstring * JsonValue)) :
  ownKeysOk (-1) (map fst props) = true ->
  ownKeysOk (-1) (map fst (setProp k v props)) = true.
Proof.
  intros H. unfold setProp. rewrite hasProp_keys.
  destruct (existsb _ (map fst props)) eqn:Ex.
  - now rewrite replaceProp_keys.
  - destruct (arrayIndex k) as [i|] eqn:Ek.
    + apply ownKeysOk_insert; try assumption.
      unfold arrayIndex in Ek. destruct (readInt k) as [z|]; [|discriminate].
      destruct ((0 <=? z) && (z <? 4294967295) && JsString.eqb (intToString z) k) eqn:E;
        [|discriminate].
      injection Ek as <-. apply andb_true_iff in E as [E _].
      apply andb_true_iff in E as [E _]. apply Z.leb_le in E. lia.
    + rewrite map_app. now apply ownKeysOk_append.
Qed.

Lemma setProp_values_ok (k : jsstring) (v : JsonValue)
  (props : list (jsstring * JsonValue)) :
  wellFormed v = true ->
  forallb (fun kv => wellFormed (snd kv)) props = true ->
  forallb (fun kv => wellFormed (snd kv)) (setProp k v props) = true.
Proof.
  intros Hv Hp. unfold setProp. destruct (hasProp k props).
  - induction props as [|[k' v'] props IH]; simpl in *; [reflexivity|].
    apply andb_true_iff in Hp as [H1 H2].
    destruct (JsString.eqb k' k); simpl; [now rewrite Hv | now rewrite H1, IH].
  - destruct (arrayIndex k) as [i|].
    + induction props as [|[k' v'] props IH]; simpl in *; [now rewrite Hv|].
      apply andb_true_iff in Hp as [H1 H2].
      specialize (IH H2).
      destruct (arrayIndex k') as [j|]; [destruct (i <? j)|]; simpl;
        rewrite ?Hv, ?H1, ?H2, ?IH; reflexivity.
    + rewrite forallb_app, Hp. simpl. now rewrite Hv.
Qed.

Lemma parse_steps_wellFormed (fuel : nat) :
  (forall s v r, JSON.parseValue fuel s = JSON.Done v r -> wellFormed v = true)
  /\ (forall s acc v r,
        JSON.parseElements fuel s acc = JSON.Done v r ->
        forallb wellFormed acc = true -> wellFormed v = true)
  /\ (forall s acc v r,
        JSON.parseMembers fuel s acc = JSON.Done v r ->
        wellFormed (JObject acc) = true -> wellFormed v = true).
Proof.
  induction fuel as [|f (IHv & IHe & IHm)].
  { repeat split; intros; discriminate. }
  split; [|split].
  - intros s v r. simpl.
    destruct (JSON.skipWs s) as [|c s']; [discriminate|].
    destruct (c =? 123)%N.
    { destruct (JSON.skipWs s') as [|c' r']; [discriminate|].
      destruct (c' =? 125)%N.
      - intros H. now injection H as <- _.
      - intros H. now apply IHm in H. }
    destruct (c =? 91)%N.
    { destruct (JSON.skipWs s') as [|c' r']; [discriminate|].
      destruct (c' =? 93)%N.
      - intros H. now injection H as <- _.
      - intros H. now apply IHe in H. }
    destruct (c =? 34)%N.
    { destruct (JSON.parseStringBody s' []); try discriminate.
      intros H. now injection H as <- _. }
    unfold JSON.keyword.
    destruct (c =? 116)%N.
    { destruct (JSON.expect _ s'); try discriminate. intros H. now injection H as <- _. }
    destruct (c =? 102)%N.
    { destruct (JSON.expect _ s'); try discriminate. intros H. now injection H as <- _. }
    destruct (c =? 110)%N.
    { destruct (JSON.expect _ s'); try discriminate. intros H. now injection H as <- _. }
    destruct ((c =? 45)%N || JSON.isDigit c); [|discriminate].
    destruct (JSON.scanNumber (c :: s')) as [x r'| |] eqn:Ex; try discriminate.
    intros H. injection H as <- _. cbn [wellFormed]. now apply scanNumber_valid in Ex.
  - intros s acc v r. simpl.
    destruct (JSON.parseValue f s) as [x r1| |] eqn:Ex; try discriminate.
    apply IHv in Ex.
    destruct (JSON.skipWs r1) as [|c r2]; [discriminate|].
    destruct (c =? 44)%N.
    { intros H Hacc. apply IHe in H; [exact H|]. simpl. now rewrite Ex. }
    destruct (c =? 93)%N; [|discriminate].
    intros H Hacc. injection H as <- _. cbn [wellFormed].
    rewrite forallb_forall in *. intros y Hy.
    apply in_app_or in Hy as [Hy|[<-|[]]]; [|exact Ex].
    apply Hacc. now apply in_rev.
  - intros s acc v r. simpl.
    destruct (JSON.skipWs s) as [|q r0]; [discriminate|].
    destruct (q =? 34)%N; [|discriminate].
    destruct (JSON.parseStringBody r0 []) as [k r1| |]; try discriminate.
    destruct (JSON.skipWs r1) as [|c1 r2]; [discriminate|].
    destruct (c1 =? 58)%N; [|discriminate].
    destruct (JSON.parseValue f r2) as [x r3| |] eqn:Ex; try discriminate.
    apply IHv in Ex.
    destruct (JSON.skipWs r3) as [|c2 r4]; [discriminate|].
    assert (Hset : wellFormed (JObject acc) = true ->
                   wellFormed (JObject (setProp k x acc)) = true).
    { cbn [wellFormed]. intros H. apply andb_true_iff in H as [H1 H2].
      apply andb_true_iff. split;
        [now apply setProp_keys_ok | now apply setProp_values_ok]. }
    destruct (c2 =? 44)%N.
    { intros H Hacc. apply IHm in H; [exact H | now apply Hset]. }
    destruct (c2 =? 125)%N; [|discriminate].
    intros H Hacc. injection H as <- _. now apply Hset.
Qed.

(** Every value [JSON.parse] returns is well formed. *)
Lemma parse_wellFormed (text : jsstring) (v : JsonValue) :
  JSON.parse text = Normal v -> wellFormed v = true.
Proof.
  unfold JSON.parse.
  destruct (JSON.parseValue _ text) as [v' r| |] eqn:E; try discriminate.
  destruct (JSON.skipWs r); [|discriminate].
  intros H. injection H as <-.
  now apply (proj1 (parse_steps_wellFormed _)) in E.
Qed.

(* ================================================================== *)
(** ** Copying the value of a node *)

Lemma handleCopyValue_writes (p : JsonNodeProps) (st : JsonNodeState) (cb : Clipboard) :
  available cb = true -> writeGranted cb = true ->
  clipText (snd (handleCopyValue p st cb)) = textToCopy p
  /\ copied (fst (handleCopyValue p st cb)) = true.
Proof.
  intros Ha Hw. unfold handleCopyValue, copyToClipboard, writeText.
  rewrite Ha, Hw. simpl. now split.
Qed.

Lemma textToCopy_string (p : JsonNodeProps) (s : jsstring) :
  value p = JString s -> textToCopy p = s.
Proof. unfold textToCopy. now intros ->. Qed.

Lemma textToCopy_other (p : JsonNodeProps) :
  (forall s, value p <> JString s) -> textToCopy p = JSON.stringify (value p) 2.
Proof.
  unfold textToCopy. intros H.
  destruct (value p) as [ |b|x|str|items|props] eqn:E; try reflexivity.
  now destruct (H str).
Qed.

(** C6, as stated, fails: the text 1e999 is read as Infinity, which
    [JSON.stringify] writes as null; the array [1e999] is copied as an
    array holding null, which is not deep-equal to it. *)
Lemma copied_infinity_reads_back_as_null :
  JSON.parse (lit "[1e999]") = Normal (JArray [JNumber Infinity])
  /\ textToCopy (rootProps (JArray [JNumber Infinity]))
     = lit "[" ++ nl ++ lit "  null" ++ nl ++ lit "]"
  /\ JSON.parse (textToCopy (rootProps (JArray [JNumber Infinity])))
     = Normal (JArray [JNull])
  /\ deepEqual (JArray [JNull]) (JArray [JNumber Infinity]) = false.
Proof. repeat split; vm_compute; reflexivity. Qed.

Lemma Subtree_wellFormed (v doc : JsonValue) :
  Subtree v doc -> wellFormed doc = true -> wellFormed v = true.
Proof.
  induction 1 as [|items x Hin Hsub IH|props k x Hin Hsub IH]; intros H;
    [exact H| |]; apply IH; cbn [wellFormed] in H.
  - rewrite forallb_forall in H. now apply H.
  - apply andb_true_iff in H as [_ H]. rewrite forallb_forall in H.
    now apply (H (k, x)).
Qed.

Lemma Subtree_numbersFinite (v doc : JsonValue) :
  Subtree v doc -> numbersFinite doc = true -> numbersFinite v = true.
Proof.
  induction 1 as [|items x Hin Hsub IH|props k x Hin Hsub IH]; intros H;
    [exact H| |]; apply IH; cbn [numbersFinite] in H;
    rewrite forallb_forall in H; [now apply H | now apply (H (k, x))].
Qed.

(** The finite numbers of a well-formed value read back from their
    decimal renderings. *)
Lemma finite_numbers_reread (v : JsonValue) :
  wellFormed v = true -> numbersFinite v = true -> numbersReread v = true.
Proof.
  induction v as [ |b|x|str|items IH|props IH] using JsonValue_induction;
    intros Hwf Hfin; try reflexivity.
  - now apply toString_rereads.
  - cbn [wellFormed numbersFinite numbersReread] in *.
    induction IH as [|x xs Hx _ IHl]; [reflexivity|].
    simpl in *. apply andb_true_iff in Hwf as [W1 W2].
    apply andb_true_iff in Hfin as [F1 F2].
    rewrite (Hx W1 F1). now apply IHl.
  - cbn [wellFormed numbersFinite numbersReread] in *.
    apply andb_true_iff in Hwf as [_ Hwf].
    induction IH as [|[k x] ps Hx _ IHl]; [reflexivity|].
    simpl in *. apply andb_true_iff in Hwf as [W1 W2].
    apply andb_true_iff in Hfin as [F1 F2].
    rewrite (Hx W1 F1). now apply IHl.
Qed.

Lemma Subtree_trans (u v doc : JsonValue) :
  Subtree v doc -> Subtree u v -> Subtree u doc.
Proof.
  induction 1 as [|items x Hin Hsub IH|props k x Hin Hsub IH]; intros H;
    [exact H | eapply Subtree_item | eapply Subtree_prop]; eauto.
Qed.

Lemma childProps_Subtree (p cp : JsonNodeProps) :
  In cp (childProps p) -> Subtree (value cp) (value p).
Proof.
  intros H. apply childProps_In in H as [H _].
  destruct (value p) as [ |b|x|str|items|props]; simpl in H; try contradiction.
  - rewrite indexed_values in H. eapply Subtree_item; [exact H | constructor].
  - apply in_map_iff in H as ([k x] & Hx & Hin). simpl in Hx. subst x.
    eapply Subtree_prop; [exact Hin | constructor].
Qed.

(** The value of every node of a mounted tree occurs in the value at
    its root. *)
Lemma InTree_Subtree (v : JsonValue) :
  forall p m, value p = v -> InTree m (mountProps p) ->
    Subtree (value (instProps m)) (value p).
Proof.
  induction v as [ |b|x|str|items IH|props IH] using JsonValue_induction;
    intros p m Hv Hm;
    apply InTree_mount in Hm as [-> | (cp & Hcp & Hm)];
    try (destruct (mountProps_state p) as [-> _]; constructor);
    pose proof (childProps_Subtree _ _ Hcp) as Hsub;
    pose proof (childProps_In _ _ Hcp) as (Hin & _);
    rewrite Hv in Hin; simpl in Hin; try contradiction;
    apply (Subtree_trans _ _ _ Hsub).
  - rewrite indexed_values in Hin. rewrite Forall_forall in IH.
    now apply (IH _ Hin cp m).
  - rewrite Forall_forall in IH. apply in_map_iff in Hin as (kv & Hkv & Hin).
    now apply (IH _ Hin cp m).
Qed.

(** C6, amended.  For every node of a loaded document the copy action
    writes to the clipboard: for a string scalar the bare string,
    without quotes; for any other value the 2-space-indented
    [JSON.stringify] text of the subtree at the node, which, when
    parsed, is deep-equal to that subtree, provided every number in the
    document is finite. *)
Theorem copy_writes_text_that_round_trips (text : jsstring) (doc : JsonValue)
  (p : JsonNodeProps) (st : JsonNodeState) (cb : Clipboard) :
  JSON.parse text = Normal doc -> numbersFinite doc = true ->
  Subtree (value p) doc ->
  (available cb = true -> writeGranted cb = true ->
     clipText (snd (handleCopyValue p st cb)) = textToCopy p)
  /\ (forall s, value p = JString s -> textToCopy p = s)
  /\ ((forall s, value p <> JString s) ->
      textToCopy p = JSON.stringify (value p) 2
      /\ exists v', JSON.parse (textToCopy p) = Normal v'
                    /\ deepEqual v' (value p) = true).
Proof.
  intros Hdoc Hnum Hsub. split; [|split].
  - intros Ha Hw. now apply handleCopyValue_writes.
  - apply textToCopy_string.
  - intros H. rewrite (textToCopy_other p H). split; [reflexivity|].
    apply parse_wellFormed in Hdoc.
    pose proof (Subtree_wellFormed _ _ Hsub Hdoc) as Hwf.
    pose proof (Subtree_numbersFinite _ _ Hsub Hnum) as Hfin.
    pose proof (finite_numbers_reread _ Hwf Hfin) as Hn.
    exists (normalize (value p)). split.
    + now apply parse_stringify.
    + now apply deepEqual_normalize.
Qed.

Lemma copy_writes_text_that_round_trips_witness :
  exists doc,
    JSON.parse sampleDocument = Normal doc
    /\ numbersFinite doc = true
    /\ Subtree (value (rootProps doc)) doc
    /\ clipText (snd (handleCopyValue (rootProps doc)
                        (initialState (rootProps doc)) grantedClipboard))
       = JSON.stringify doc 2
    /\ exists v', JSON.parse (textToCopy (rootProps doc)) = Normal v'
                  /\ deepEqual v' doc = true.
Proof.
  eexists. split; [vm_compute; reflexivity|].
  match goal with |- numbersFinite ?d = true /\ _ =>
    assert (Hdoc : JSON.parse sampleDocument = Normal d) by (vm_compute; reflexivity);
    assert (Hnum : numbersFinite d = true) by (vm_compute; reflexivity);
    assert (Hsub : Subtree (value (rootProps d)) d) by (simpl; constructor);
    pose proof (copy_writes_text_that_round_trips sampleDocument d (rootProps d)
                  (initialState (rootProps d)) grantedClipboard Hdoc Hnum Hsub)
      as (Hclip & _ & Hround)
  end.
  split; [exact Hnum|]. split; [exact Hsub|]. split.
  - rewrite Hclip by reflexivity. reflexivity.
  - apply Hround. intros s. discriminate.
Defined.

(* ================================================================== *)
(** ** The content of the tabs *)

Lemma updateTabContent_nth (i c : jsstring) (st : AppState) (k : nat) (t : Tab) :
  nth_error (tabs st) k = Some t ->
  nth_error (tabs (updateTabContent i c st)) k
  = Some (if JsString.eqb (id t) i
          then {| id := id t; title := title t; content := c |} else t).
Proof.
  intros H. unfold updateTabContent. cbn [tabs setTabs].
  rewrite nth_error_map, H. reflexivity.
Qed.

Lemma updateTabContent_ids (i c : jsstring) (st : AppState) :
  map id (tabs (updateTabContent i c st)) = map id (tabs st).
Proof.
  unfold updateTabContent. cbn [tabs setTabs]. rewrite map_map.
  apply map_ext. intros t. now destruct (JsString.eqb (id t) i).
Qed.

Lemma updateTabContent_titles (i c : jsstring) (st : AppState) :
  map title (tabs (updateTabContent i c st)) = map title (tabs st).
Proof.
  unfold updateTabContent. cbn [tabs setTabs]. rewrite map_map.
  apply map_ext. intros t. now destruct (JsString.eqb (id t) i).
Qed.

Lemma updateTabContent_absent (i c : jsstring) (st : AppState) :
  (forall t, In t (tabs st) -> id t <> i) -> updateTabContent i c st = st.
Proof.
  intros H. unfold updateTabContent. destruct st as [ts a to]. cbn [tabs setTabs] in *.
  unfold setTabs. cbn [activeTabId toast]. f_equal.
  induction ts as [|t ts IH]; [reflexivity|]. cbn [map].
  rewrite (proj2 (jsstring_eqb_neq (id t) i)) by (apply H; now left).
  f_equal. apply IH. intros t' Ht'. apply H. now right.
Qed.

Lemma find_id_map (i : jsstring) (f : Tab -> Tab) (l : list Tab) :
  (forall t, id (f t) = id t) ->
  find (fun t => JsString.eqb (id t) i) (map f l)
  = option_map f (find (fun t => JsString.eqb (id t) i) l).
Proof.
  intros Hf. induction l as [|t l IH]; [reflexivity|]. cbn [map find].
  rewrite Hf. destruct (JsString.eqb (id t) i); [reflexivity | exact IH].
Qed.

Lemma find_id_some (i : jsstring) (l : list Tab) :
  In i (map id l) ->
  exists t, find (fun t => JsString.eqb (id t) i) l = Some t /\ id t = i.
Proof.
  induction l as [|t l IH]; [intros []|]. cbn [map find]. intros H.
  destruct (jsstring_eqb_spec (id t) i) as [E|E]; [now exists t|].
  destruct H as [H|H]; [contradiction | now apply IH].
Qed.

Lemma find_id_none (i : jsstring) (l : list Tab) :
  (forall t, In t l -> id t <> i) ->
  find (fun t => JsString.eqb (id t) i) l = None.
Proof.
  intros H. induction l as [|t l IH]; [reflexivity|]. cbn [find].
  rewrite (proj2 (jsstring_eqb_neq (id t) i)) by (apply H; now left).
  apply IH. intros t' Ht'. apply H. now right.
Qed.

(** The active tab, when the active id names a tab: the first tab with
    that id. *)
Lemma activeTab_found (st : AppState) :
  In (activeTabId st) (map id (tabs st)) ->
  exists t, activeTab st = Some t /\ id t = activeTabId st
            /\ find (fun t => JsString.eqb (id t) (activeTabId st)) (tabs st) = Some t.
Proof.
  intros H. destruct (find_id_some _ _ H) as (t & Hf & Hid).
  exists t. unfold activeTab. rewrite Hf. auto.
Qed.

(** Writing the content of the active tab. *)
Lemma activeTab_updated (c : jsstring) (st : AppState) :
  tabsOk st ->
  exists t, activeTab (updateTabContent (activeTabId st) c st) = Some t
            /\ id t = activeTabId st /\ content t = c.
Proof.
  intros [_ Hin]. destruct (find_id_some _ _ Hin) as (t & Hf & Hid).
  exists {| id := id t; title := title t; content := c |}.
  unfold activeTab, updateTabContent. cbn [tabs activeTabId setTabs].
  rewrite find_id_map by (intros t'; now destruct (JsString.eqb (id t') _)).
  rewrite Hf. cbn [option_map]. rewrite Hid, jsstring_eqb_refl. auto.
Qed.

Lemma updateTabContent_ok (i c : jsstring) (st : AppState) :
  tabsOk st -> tabsOk (updateTabContent i c st).
Proof.
  intros [Hne Hin]. split.
  - intros E. apply (f_equal (map id)) in E. rewrite updateTabContent_ids in E.
    destruct (tabs st); [now apply Hne | discriminate].
  - rewrite updateTabContent_ids. exact Hin.
Qed.

(** X1. [updateTabContent] rewrites the content of the tabs whose id
    is the given one and nothing else: the tabs keep their number,
    order, ids and titles, the active id and the notice stay, every
    other tab is untouched, and an id that no tab has changes nothing. *)
Theorem updateTabContent_rewrites_matching_tabs (i c : jsstring) (st : AppState) :
  map id (tabs (updateTabContent i c st)) = map id (tabs st)
  /\ map title (tabs (updateTabContent i c st)) = map title (tabs st)
  /\ activeTabId (updateTabContent i c st) = activeTabId st
  /\ toast (updateTabContent i c st) = toast st
  /\ (forall k t,
        nth_error (tabs st) k = Some t ->
        nth_error (tabs (updateTabContent i c st)) k
        = Some (if JsString.eqb (id t) i
                then {| id := id t; title := title t; content := c |} else t))
  /\ ((forall t, In t (tabs st) -> id t <> i) -> updateTabContent i c st = st).
Proof.
  split; [apply updateTabContent_ids|]. split; [apply updateTabContent_titles|].
  split; [reflexivity|]. split; [reflexivity|].
  split; [intros k t; apply updateTabContent_nth | apply updateTabContent_absent].
Qed.

(** X2. Clear empties the active tab: its content becomes the empty
    string, so the viewer shows the Empty state; the notice reads
    "Cleared workspace"; the ids stay and the tabs with another id are
    untouched. *)
Theorem clear_empties_the_active_tab (st : AppState) (vs : JsonViewerState) :
  tabsOk st ->
  exists t,
    activeTab (handleClear st) = Some t
    /\ id t = activeTabId st /\ content t = []
    /\ viewerFor (content t) vs = Normal EmptyState
    /\ toast (handleClear st)
       = Some {| msg := lit "Cleared workspace"; type := toastSuccess |}
    /\ map id (tabs (handleClear st)) = map id (tabs st)
    /\ forall k t', nth_error (tabs st) k = Some t' -> id t' <> activeTabId st ->
         nth_error (tabs (handleClear st)) k = Some t'.
Proof.
  intros Hok. destruct (activeTab_updated [] st Hok) as (t & Ht & Hid & Hc).
  exists t. split; [exact Ht|]. split; [exact Hid|]. split; [exact Hc|].
  split; [rewrite Hc; reflexivity|]. split; [reflexivity|].
  split; [apply updateTabContent_ids|].
  intros k t' Hk Hne. unfold handleClear. cbn [tabs setToast].
  rewrite (updateTabContent_nth _ _ _ _ _ Hk).
  now rewrite (proj2 (jsstring_eqb_neq (id t') (activeTabId st))).
Qed.

Lemma clear_empties_the_active_tab_witness :
  exists t,
    activeTab (handleClear initialApp) = Some t
    /\ id t = lit "1" /\ content t = []
    /\ viewerFor (content t) initialViewerState = Normal EmptyState.
Proof.
  assert (Hok : tabsOk initialApp) by (split; simpl; [discriminate | now left]).
  destruct (clear_empties_the_active_tab initialApp initialViewerState Hok)
    as (t & H1 & H2 & H3 & H4 & _).
  exists t. auto.
Defined.

Lemma handlePasteFromClipboard_reads (cb : Clipboard) (st : AppState) :
  readFails cb = false ->
  handlePasteFromClipboard cb st
  = setToast (Some {| msg := lit "Pasted from clipboard!"; type := toastSuccess |})
      (updateTabContent (activeTabId st) (clipText cb) st).
Proof.
  unfold readFails. intros H.
  apply orb_false_iff in H as [H Ht]. apply orb_false_iff in H as [Ha Hr].
  apply negb_false_iff in Ha, Hr, Ht.
  unfold handlePasteFromClipboard, readText. rewrite Ha, Hr. cbn [negb bind tryCatch].
  rewrite Ht. reflexivity.
Qed.

(** X3. A clipboard read that delivers text puts that text, as it is,
    into the active tab and shows the notice "Pasted from clipboard!";
    when the text is whitespace only the notice is the same and the
    viewer shows the Empty state. *)
Theorem clipboard_paste_fills_the_active_tab (cb : Clipboard) (st : AppState)
  (vs : JsonViewerState) :
  readFails cb = false -> tabsOk st ->
  exists t,
    activeTab (handlePasteFromClipboard cb st) = Some t
    /\ id t = activeTabId st /\ content t = clipText cb
    /\ toast (handlePasteFromClipboard cb st)
       = Some {| msg := lit "Pasted from clipboard!"; type := toastSuccess |}
    /\ (Forall (fun c => isWhiteSpace c = true) (clipText cb) ->
        viewerFor (content t) vs = Normal EmptyState).
Proof.
  intros Hr Hok. rewrite (handlePasteFromClipboard_reads cb st Hr).
  destruct (activeTab_updated (clipText cb) st Hok) as (t & Ht & Hid & Hc).
  exists t. split; [exact Ht|]. split; [exact Hid|]. split; [exact Hc|].
  split; [reflexivity|]. intros Hblank. rewrite Hc.
  apply viewerFor_blank. now apply trim_blank.
Qed.

Lemma clipboard_paste_fills_the_active_tab_witness :
  exists t,
    activeTab (handlePasteFromClipboard
                 {| available := true; readGranted := true; writeGranted := false;
                    clipText := lit "  " |} initialApp) = Some t
    /\ content t = lit "  "
    /\ viewerFor (content t) initialViewerState = Normal EmptyState.
Proof.
  assert (Hok : tabsOk initialApp) by (split; simpl; [discriminate | now left]).
  destruct (clipboard_paste_fills_the_active_tab
              {| available := true; readGranted := true; writeGranted := false;
                 clipText := lit "  " |} initialApp initialViewerState eq_refl Hok)
    as (t & H1 & _ & H3 & _ & H5).
  exists t. split; [exact H1|]. split; [exact H3|].
  apply H5. repeat constructor.
Defined.

Lemma handlePaste_cases (text : jsstring) (st : AppState) :
  handlePaste text st = st
  \/ handlePaste text st
     = setToast (Some {| msg := lit "JSON pasted successfully!"; type := toastSuccess |})
         (updateTabContent (activeTabId st) text st).
Proof. unfold handlePaste. destruct (truthy text); auto. Qed.

Lemma handlePasteFromClipboard_cases (cb : Clipboard) (st : AppState) :
  (exists t, handlePasteFromClipboard cb st = setToast t st)
  \/ exists t, handlePasteFromClipboard cb st
               = setToast t (updateTabContent (activeTabId st) (clipText cb) st).
Proof.
  destruct (readFails cb) eqn:E.
  - left. unfold readFails in E. unfold handlePasteFromClipboard, readText.
    destruct (available cb); cbn [negb bind tryCatch]; [|eexists; reflexivity].
    destruct (readGranted cb); cbn [negb bind tryCatch]; [|eexists; reflexivity].
    simpl in E. apply negb_true_iff in E. rewrite E. eexists; reflexivity.
  - right. rewrite (handlePasteFromClipboard_reads cb st E). eexists; reflexivity.
Qed.

(** X4. The operations on content (the paste event, Paste from
    Clipboard, Clear) never add, remove, reorder, rename or switch
    tabs: the ids and titles of the tabs and the active id stay, and
    with them the invariant that the active id names a tab. *)
Theorem content_operations_keep_the_tabs (st : AppState) (op : ContentOp) :
  map id (tabs (applyContentOp st op)) = map id (tabs st)
  /\ map title (tabs (applyContentOp st op)) = map title (tabs st)
  /\ activeTabId (applyContentOp st op) = activeTabId st
  /\ (tabsOk st -> tabsOk (applyContentOp st op)).
Proof.
  assert (Hkeep : forall st', 
            st' = st \/ (exists t, st' = setToast t st)
            \/ (exists t c, st' = setToast t (updateTabContent (activeTabId st) c st)) ->
            map id (tabs st') = map id (tabs st)
            /\ map title (tabs st') = map title (tabs st)
            /\ activeTabId st' = activeTabId st
            /\ (tabsOk st -> tabsOk st')).
  { intros st' [->|[(t & ->)|(t & c & ->)]].
    - auto.
    - cbn [tabs activeTabId setToast]. auto.
    - cbn [tabs activeTabId setToast].
      split; [apply updateTabContent_ids|]. split; [apply updateTabContent_titles|].
      split; [reflexivity|]. intros Hok.
      apply (updateTabContent_ok (activeTabId st) c) in Hok. exact Hok. }
  apply Hkeep. destruct op as [e|cb|]; cbn [applyContentOp].
  - unfold onPasteEvent. destruct (_ || _); [now left|].
    destruct (clipboardText e) as [text|]; [|now left].
    destruct (handlePaste_cases text st) as [->| ->]; [now left|].
    right. right. eexists _, _. reflexivity.
  - destruct (handlePasteFromClipboard_cases cb st) as [(t & ->)|(t & ->)].
    + right. left. now exists t.
    + right. right. eexists _, _. reflexivity.
  - right. right. eexists _, _. reflexivity.
Qed.

(** X5. The paste event of the window is ignored when its target is
    an input or a text area and when it carries no text; otherwise the
    active tab gets the text and the notice reads "JSON pasted
    successfully!". *)
Theorem paste_event_fills_the_active_tab (e : PasteEvent) (st : AppState) :
  (targetTagName e = lit "INPUT" \/ targetTagName e = lit "TEXTAREA" ->
     onPasteEvent e st = st)
  /\ (clipboardText e = None \/ clipboardText e = Some [] -> onPasteEvent e st = st)
  /\ (forall text,
        targetTagName e <> lit "INPUT" -> targetTagName e <> lit "TEXTAREA" ->
        clipboardText e = Some text -> text <> [] -> tabsOk st ->
        exists t,
          activeTab (onPasteEvent e st) = Some t
          /\ id t = activeTabId st /\ content t = text
          /\ toast (onPasteEvent e st)
             = Some {| msg := lit "JSON pasted successfully!"; type := toastSuccess |}).
Proof.
  unfold onPasteEvent. split; [|split].
  - intros [-> | ->]; reflexivity.
  - destruct (_ || _); [reflexivity|]. intros [-> | ->]; reflexivity.
  - intros text H1 H2 Ht Hne Hok.
    rewrite (proj2 (jsstring_eqb_neq _ _) H1), (proj2 (jsstring_eqb_neq _ _) H2), Ht.
    cbn [orb]. unfold handlePaste.
    replace (truthy text) with true by (destruct text; [contradiction | reflexivity]).
    destruct (activeTab_updated text st Hok) as (t & Hact & Hid & Hc).
    exists t. auto.
Qed.

(* ================================================================== *)
(** ** Opening, selecting and closing tabs *)

Lemma find_app_none {A} (f : A -> bool) (l1 l2 : list A) :
  find f l1 = None -> find f (l1 ++ l2) = find f l2.
Proof.
  induction l1 as [|x l1 IH]; [reflexivity|]. cbn [find app].
  destruct (f x); [discriminate | exact IH].
Qed.

Lemma find_app_some {A} (f : A -> bool) (l1 l2 : list A) (x : A) :
  find f l1 = Some x -> find f (l1 ++ l2) = Some x.
Proof.
  induction l1 as [|y l1 IH]; [discriminate|]. cbn [find app].
  destruct (f y); [auto | exact IH].
Qed.

(** X6. A new tab whose id no open tab has is appended after the open
    tabs, which stay as they are, and becomes the active tab; it is
    empty, so the viewer shows the Empty state. *)
Theorem new_tab_is_empty_and_active (now : Z) (st : AppState) (vs : JsonViewerState) :
  (forall t, In t (tabs st) -> id t <> intToString now) ->
  tabs (addTab now st) = tabs st ++ [newTabAt now st]
  /\ activeTab (addTab now st) = Some (newTabAt now st)
  /\ viewerFor (content (newTabAt now st)) vs = Normal EmptyState.
Proof.
  intros Hfresh. split; [reflexivity|]. split; [|reflexivity].
  unfold activeTab, addTab. cbn [tabs activeTabId setActiveTabId setTabs].
  rewrite find_app_none by now apply find_id_none.
  cbn [find id]. now rewrite jsstring_eqb_refl.
Qed.

Lemma new_tab_is_empty_and_active_witness :
  tabs (addTab 1700000000000 initialApp)
  = tabs initialApp ++ [newTabAt 1700000000000 initialApp]
  /\ activeTab (addTab 1700000000000 initialApp)
     = Some (newTabAt 1700000000000 initialApp)
  /\ viewerFor (content (newTabAt 1700000000000 initialApp)) initialViewerState
     = Normal EmptyState.
Proof.
  apply (new_tab_is_empty_and_active 1700000000000 initialApp initialViewerState).
  intros t [<-|[]]. vm_compute. discriminate.
Defined.

(** X7. A new tab that gets the id of a tab already open (two clicks
    at one clock reading) is appended but is never the active tab: the
    active tab is the first tab with that id, after the click on New
    Tab and after a click on the new tab itself. *)
Theorem tab_with_repeated_id_is_never_shown (now : Z) (st : AppState) (t0 : Tab) :
  find (fun t => JsString.eqb (id t) (intToString now)) (tabs st) = Some t0 ->
  nth_error (tabs (addTab now st)) (List.length (tabs st)) = Some (newTabAt now st)
  /\ activeTab (addTab now st) = Some t0
  /\ activeTab (clickTab (List.length (tabs st)) (addTab now st)) = Some t0.
Proof.
  intros Hfind.
  assert (Hnth : nth_error (tabs (addTab now st)) (List.length (tabs st))
                 = Some (newTabAt now st)).
  { unfold addTab. cbn [tabs setActiveTabId setTabs].
    rewrite nth_error_app2 by lia. now rewrite Nat.sub_diag. }
  assert (Hact : activeTab (addTab now st) = Some t0).
  { unfold activeTab, addTab. cbn [tabs activeTabId setActiveTabId setTabs].
    now rewrite (find_app_some _ _ _ _ Hfind). }
  split; [exact Hnth|]. split; [exact Hact|].
  unfold clickTab. rewrite Hnth. exact Hact.
Qed.

Lemma tab_with_repeated_id_is_never_shown_witness :
  let st := addTab 1700000000000 initialApp in
  nth_error (tabs (addTab 1700000000000 st)) 2 = Some (newTabAt 1700000000000 st)
  /\ activeTab (addTab 1700000000000 st) = Some (newTabAt 1700000000000 initialApp)
  /\ activeTab (clickTab 2 (addTab 1700000000000 st))
     = Some (newTabAt 1700000000000 initialApp).
Proof.
  exact (tab_with_repeated_id_is_never_shown 1700000000000
           (addTab 1700000000000 initialApp)
           (newTabAt 1700000000000 initialApp) eq_refl).
Defined.

Lemma find_id_NoDup (l : list Tab) (k : nat) (t : Tab) :
  NoDup (map id l) -> nth_error l k = Some t ->
  find (fun t' => JsString.eqb (id t') (id t)) l = Some t.
Proof.
  revert k. induction l as [|x l IH]; intros k Hnd Hk; [destruct k; discriminate|].
  cbn [map] in Hnd. inversion Hnd as [|? ? Hnotin Hnd']; subst.
  destruct k as [|k]; cbn [nth_error find] in *.
  - injection Hk as ->. now rewrite jsstring_eqb_refl.
  - destruct (jsstring_eqb_spec (id x) (id t)) as [E|E]; [|now apply (IH k)].
    exfalso. apply Hnotin. rewrite E. apply in_map. eapply nth_error_In; eauto.
Qed.

(** X8. With pairwise distinct ids, a click on a tab makes that tab
    the active one and changes no tab. *)
Theorem clicked_tab_becomes_active (index : nat) (st : AppState) (t : Tab) :
  NoDup (map id (tabs st)) -> nth_error (tabs st) index = Some t ->
  activeTab (clickTab index st) = Some t
  /\ activeTabId (clickTab index st) = id t
  /\ tabs (clickTab index st) = tabs st.
Proof.
  intros Hnd Hk. unfold clickTab. rewrite Hk.
  split; [|split; reflexivity].
  unfold activeTab. cbn [tabs activeTabId setActiveTabId].
  now rewrite (find_id_NoDup _ _ _ Hnd Hk).
Qed.

Lemma clicked_tab_becomes_active_witness :
  activeTab (clickTab 0 (addTab 1700000000000 initialApp))
  = nth_error (tabs initialApp) 0.
Proof.
  refine (proj1 (clicked_tab_becomes_active 0 (addTab 1700000000000 initialApp)
                   _ _ eq_refl)).
  cbn. repeat constructor; simpl; intuition discriminate.
Defined.

Lemma find_filter_other (i a : jsstring) (l : list Tab) :
  a <> i ->
  find (fun t => JsString.eqb (id t) a)
    (filter (fun t => negb (JsString.eqb (id t) i)) l)
  = find (fun t => JsString.eqb (id t) a) l.
Proof.
  intros Hne. induction l as [|t l IH]; [reflexivity|]. cbn [filter find].
  destruct (jsstring_eqb_spec (id t) i) as [Ei|Ei]; cbn [negb find].
  - rewrite (proj2 (jsstring_eqb_neq (id t) a)) by congruence. exact IH.
  - rewrite IH. reflexivity.
Qed.

Lemma filter_all {A} (f : A -> bool) (l : list A) :
  (forall x, In x l -> f x = true) -> filter f l = l.
Proof.
  intros H. induction l as [|x l IH]; [reflexivity|]. cbn [filter].
  rewrite (H x) by now left. f_equal. apply IH. intros y Hy. apply H. now right.
Qed.

(** X9. Closing a tab other than the active one removes the tabs with
    that id and keeps the others in order; the active id and the active
    tab stay; an id that no tab has changes nothing. *)
Theorem closing_another_tab_keeps_the_active_one (i : jsstring) (now : Z)
  (st : AppState) :
  tabsOk st -> activeTabId st <> i ->
  tabs (closeTab i now st)
  = filter (fun t => negb (JsString.eqb (id t) i)) (tabs st)
  /\ activeTabId (closeTab i now st) = activeTabId st
  /\ activeTab (closeTab i now st) = activeTab st
  /\ ((forall t, In t (tabs st) -> id t <> i) -> closeTab i now st = st).
Proof.
  intros [Hne Hin] Hother.
  destruct (find_id_some _ _ Hin) as (ta & Hfind & Hid).
  assert (Hkept : In ta (filter (fun t => negb (JsString.eqb (id t) i)) (tabs st))).
  { apply filter_In. split; [eapply find_some; eauto|].
    apply negb_true_iff, jsstring_eqb_neq. congruence. }
  assert (Hclose : closeTab i now st
                   = setTabs (filter (fun t => negb (JsString.eqb (id t) i)) (tabs st)) st).
  { unfold closeTab.
    destruct (Z.of_nat (List.length (filter _ (tabs st))) =? 0) eqn:El.
    - apply length_zero_nil in El. rewrite El in Hkept. destruct Hkept.
    - now rewrite (proj2 (jsstring_eqb_neq _ _) Hother). }
  rewrite Hclose. split; [reflexivity|]. split; [reflexivity|]. split.
  - unfold activeTab. cbn [tabs activeTabId setTabs].
    rewrite (find_filter_other _ _ _ Hother), Hfind. reflexivity.
  - intros Habsent. destruct st as [ts a to]. unfold setTabs. cbn [tabs activeTabId toast] in *.
    f_equal. apply filter_all. intros t Ht.
    apply negb_true_iff, jsstring_eqb_neq. now apply Habsent.
Qed.

Lemma closing_another_tab_keeps_the_active_one_witness :
  let st := clickTab 0 (addTab 1700000000000 initialApp) in
  tabs (closeTab (lit "1700000000000") 1700000000001 st) = tabs initialApp
  /\ activeTabId (closeTab (lit "1700000000000") 1700000000001 st) = lit "1".
Proof.
  assert (Hok : tabsOk (clickTab 0 (addTab 1700000000000 initialApp)))
    by (split; simpl; [discriminate | now left]).
  assert (Hother : activeTabId (clickTab 0 (addTab 1700000000000 initialApp))
                   <> lit "1700000000000") by (simpl; discriminate).
  destruct (closing_another_tab_keeps_the_active_one (lit "1700000000000")
              1700000000001 _ Hok Hother) as (H1 & H2 & _).
  split; [exact H1 | exact H2].
Defined.

(** X10. Opening a tab and closing it again restores the list of
    tabs; the active tab is then the last tab of the list, whichever
    tab was active before. *)
Theorem closing_a_new_tab_restores_the_list (now now' : Z) (st : AppState)
  (front : list Tab) (lastTab : Tab) :
  tabs st = front ++ [lastTab] ->
  (forall t, In t (tabs st) -> id t <> intToString now) ->
  tabs (closeTab (intToString now) now' (addTab now st)) = tabs st
  /\ activeTabId (closeTab (intToString now) now' (addTab now st)) = id lastTab.
Proof.
  intros Hlast Hfresh.
  assert (Hfilter : filter (fun t => negb (JsString.eqb (id t) (intToString now)))
                      (tabs (addTab now st)) = front ++ [lastTab]).
  { unfold addTab. cbn [tabs setActiveTabId setTabs]. rewrite filter_app.
    cbn [filter id]. rewrite jsstring_eqb_refl. cbn [negb]. rewrite List.app_nil_r.
    rewrite <- Hlast. apply filter_all. intros t Ht.
    apply negb_true_iff, jsstring_eqb_neq. now apply Hfresh. }
  pose proof (closeTab_active now' (addTab now st) front lastTab) as Hclose.
  change (activeTabId (addTab now st)) with (intToString now) in Hclose.
  destruct (Hclose Hfilter) as [H1 H2]. rewrite H1, H2, Hlast. auto.
Qed.

Lemma closing_a_new_tab_restores_the_list_witness :
  tabs (closeTab (intToString 1700000000000) 1700000000001
          (addTab 1700000000000 initialApp)) = tabs initialApp
  /\ activeTabId (closeTab (intToString 1700000000000) 1700000000001
                    (addTab 1700000000000 initialApp)) = lit "1".
Proof.
  apply (closing_a_new_tab_restores_the_list 1700000000000 1700000000001 initialApp
           [] {| id := lit "1"; title := lit "Tab 1"; content := DEFAULT_JSON |} eq_refl).
  intros t [<-|[]]. vm_compute. discriminate.
Defined.

(* ================================================================== *)
(** ** The theme *)

(** X11. The theme button cycles light, dark, auto: three clicks
    return to the theme one started from, one or two clicks never do. *)
Theorem theme_cycle_has_period_three (t : ThemeMode) :
  cycleTheme (cycleTheme (cycleTheme t)) = t
  /\ cycleTheme t <> t
  /\ cycleTheme (cycleTheme t) <> t.
Proof. destruct t; repeat split; discriminate. Qed.

(** X12. The theme the effect saves is the theme the next start reads
    back; with nothing saved, or with a saved value that is none of the
    three names, the start is in auto mode. *)
Theorem saved_theme_is_restored (t : ThemeMode) (env : ThemeEnv) :
  initialTheme (themeEffect t env) = t
  /\ (savedTheme env = None -> initialTheme env = Auto)
  /\ (forall s, savedTheme env = Some s ->
        s <> lit "light" -> s <> lit "dark" -> initialTheme env = Auto).
Proof.
  split; [now destruct t|]. split.
  - unfold initialTheme. now intros ->.
  - intros s Hs Hl Hd. unfold initialTheme, asThemeMode. rewrite Hs.
    rewrite (proj2 (jsstring_eqb_neq _ _) Hl), (proj2 (jsstring_eqb_neq _ _) Hd).
    now destruct (JsString.eqb s (lit "auto")).
Qed.

(** X13. After the theme effect the root element carries the dark
    class in dark mode, not in light mode, and in auto mode exactly
    when the system prefers dark; a later change of the system
    preference moves the class in auto mode only. *)
Theorem dark_class_follows_the_theme (t : ThemeMode) (env : ThemeEnv) (matches : bool) :
  darkClass (themeEffect t env)
  = match t with Dark => true | Light => false | Auto => prefersDark env end
  /\ darkClass (systemChange t matches (themeEffect t env))
     = match t with Dark => true | Light => false | Auto => matches end
  /\ savedTheme (systemChange t matches (themeEffect t env)) = Some (themeName t).
Proof. destruct t; repeat split. Qed.

(* ================================================================== *)
(** ** Copying *)

(** X14. The copy button of a node gives feedback only when the write
    succeeded: then the node is marked copied, with its expansion left
    alone, and its button reads "Copied!" (until the timer clears the
    mark); when the clipboard is missing or denies the write, the node
    and the clipboard stay as they were. *)
Theorem copy_feedback_follows_the_write (p : JsonNodeProps) (st : JsonNodeState)
  (cb : Clipboard) :
  (available cb && writeGranted cb = true ->
     copied (fst (handleCopyValue p st cb)) = true
     /\ expanded (fst (handleCopyValue p st cb)) = expanded st
     /\ hovered (fst (handleCopyValue p st cb)) = hovered st
     /\ button (headerRow p (fst (handleCopyValue p st cb))) = Some (lit "Copied!")
     /\ (hovered st = true ->
         button (scalarRow p (fst (handleCopyValue p st cb))) = Some (lit "Copied!")))
  /\ (available cb && writeGranted cb = false -> handleCopyValue p st cb = (st, cb)).
Proof.
  unfold handleCopyValue, copyToClipboard, writeText.
  destruct (available cb), (writeGranted cb); cbn; split; try discriminate;
    intros _; try reflexivity.
  repeat split. now intros ->.
Qed.

(** X15. Copy in the toolbar followed by Paste from Clipboard leaves
    the tabs as they are, when the ids are pairwise distinct and the
    active tab is not empty: the raw input goes to the clipboard, as it
    is and not re-serialized, and comes back into the tab it came
    from. *)
Theorem copy_raw_then_paste_restores (st : AppState) (vs : JsonViewerState)
  (cb : Clipboard) (t : Tab) (d : option JsonValue) (e : option jsstring) :
  activeTab st = Some t -> content t <> [] -> NoDup (map id (tabs st)) ->
  available cb = true -> readGranted cb = true -> writeGranted cb = true ->
  let r := handleCopyRaw {| data := d; viewerError := e; rawInput := content t |} vs cb in
  copiedRaw (fst r) = true
  /\ clipText (snd r) = content t
  /\ tabs (handlePasteFromClipboard (snd r) st) = tabs st
  /\ toast (handlePasteFromClipboard (snd r) st)
     = Some {| msg := lit "Pasted from clipboard!"; type := toastSuccess |}.
Proof.
  intros Hact Hne Hnd Ha Hr Hw r. subst r.
  unfold handleCopyRaw, copyToClipboard, writeText. rewrite Ha, Hw.
  cbn [negb fst snd rawInput setCopiedRaw copiedRaw clipText].
  split; [reflexivity|]. split; [reflexivity|].
  rewrite handlePasteFromClipboard_reads
    by (unfold readFails; cbn; rewrite ?Ha, ?Hr; destruct (content t); [contradiction | reflexivity]).
  cbn [clipText tabs toast setToast]. split; [|reflexivity].
  unfold updateTabContent. cbn [tabs setTabs].
  rewrite <- (map_id (tabs st)) at 2. apply map_ext_in. intros t' Ht'.
  destruct (jsstring_eqb_spec (id t') (activeTabId st)) as [E|E]; [|reflexivity].
  (* the tab with the active id is the active tab *)
  unfold activeTab in Hact.
  destruct (In_nth_error _ _ Ht') as [k Hk].
  pose proof (find_id_NoDup _ _ _ Hnd Hk) as Hfind. rewrite E in Hfind.
  rewrite Hfind in Hact. injection Hact as <-. now destruct t'.
Qed.

Lemma copy_raw_then_paste_restores_witness :
  let r := handleCopyRaw {| data := None; viewerError := None;
                            rawInput := DEFAULT_JSON |} initialViewerState
             grantedClipboard in
  copiedRaw (fst r) = true
  /\ clipText (snd r) = DEFAULT_JSON
  /\ tabs (handlePasteFromClipboard (snd r) initialApp) = tabs initialApp
  /\ toast (handlePasteFromClipboard (snd r) initialApp)
     = Some {| msg := lit "Pasted from clipboard!"; type := toastSuccess |}.
Proof.
  refine (copy_raw_then_paste_restores initialApp initialViewerState grantedClipboard
            {| id := lit "1"; title := lit "Tab 1"; content := DEFAULT_JSON |}
            None None eq_refl _ _ eq_refl eq_refl eq_refl).
  - vm_compute. discriminate.
  - simpl. repeat constructor. intros [].
Defined.

(** *** The toolbar of the viewer *)

(** X16. The two counters of the viewer count the clicks on Expand
    and on Collapse: after any sequence of clicks each counter is its
    start value plus the number of its clicks, so every click changes
    the counter the nodes watch. *)
Theorem toolbar_counters_count_clicks (clicks : list ToolbarClick)
  (st : JsonViewerState) :
  expandSignal (fold_left applyClick clicks st)
  = expandSignal st + Z.of_nat (List.length (filter isExpandClick clicks))
  /\ collapseSignal (fold_left applyClick clicks st)
     = collapseSignal st
       + Z.of_nat (List.length (filter (fun c => negb (isExpandClick c)) clicks))
  /\ copiedRaw (fold_left applyClick clicks st) = copiedRaw st.
Proof.
  revert st. induction clicks as [|c clicks IH]; intros st.
  - cbn. repeat split; lia.
  - cbn [fold_left]. destruct (IH (applyClick st c)) as (H1 & H2 & H3).
    rewrite H1, H2, H3. destruct c; cbn [applyClick clickExpand clickCollapse
      expandSignal collapseSignal copiedRaw filter isExpandClick negb List.length];
      repeat split; lia.
Qed.

(* ================================================================== *)
(** ** The tree of nodes *)

Lemma Instance_induction (P : Instance -> Prop) :
  (forall p st d kids, Forall P kids -> P (mkInstance p st d kids)) ->
  forall n, P n.
Proof.
  intros H. fix IH 1. intros [p st d kids]. apply H.
  induction kids as [|k kids IHk]; constructor; [apply IH | exact IHk].
Qed.

Lemma mountProps_unfold (p : JsonNodeProps) :
  mountProps p
  = mkInstance p (mountEffects p (initialState p)) (depsOf p)
      (if expanded (mountEffects p (initialState p)) && negb (isEmpty p)
       then map mountProps (childProps p) else []).
Proof. unfold mountProps at 1. rewrite mount_children. now destruct p. Qed.

Lemma childPropsFrom_map (p : JsonNodeProps) (len index : Z)
  (es : list (jsstring * JsonValue)) :
  map value (childPropsFrom p len index es) = map snd es
  /\ map keyName (childPropsFrom p len index es)
     = map (fun kv => match value p with
                      | JArray _ => None
                      | _ => Some (fst kv)
                      end) es
  /\ Forall (fun cp => depth cp = depth p + 1
                       /\ expandAllSignal cp = expandAllSignal p
                       /\ collapseAllSignal cp = collapseAllSignal p)
       (childPropsFrom p len index es).
Proof.
  revert index. induction es as [|[key val] es IH]; intros index.
  - repeat split. constructor.
  - destruct (IH (index + 1)) as (H1 & H2 & H3). cbn [childPropsFrom map].
    rewrite H1, H2. cbn [value keyName fst snd]. split; [reflexivity|]. split.
    + f_equal. now destruct (value p).
    + constructor; [now cbn | exact H3].
Qed.

(** X17. The children of a node follow the entries of its value, in
    order: one child per entry with the entry's value, one level
    deeper, with the node's two counters; the children of an array
    carry no key, those of an object the key of their entry. *)
Theorem children_follow_entries (p : JsonNodeProps) :
  map value (childProps p) = map snd (entries (value p))
  /\ map keyName (childProps p)
     = map (fun kv => match value p with
                      | JArray _ => None
                      | _ => Some (fst kv)
                      end) (entries (value p))
  /\ Forall (fun cp => depth cp = depth p + 1
                       /\ expandAllSignal cp = expandAllSignal p
                       /\ collapseAllSignal cp = collapseAllSignal p)
       (childProps p)
  /\ (forall items, value p = JArray items -> map value (childProps p) = items)
  /\ (forall props, value p = JObject props ->
        map (fun cp => (keyName cp, value cp)) (childProps p)
        = map (fun kv => (Some (fst kv), snd kv)) props).
Proof.
  unfold childProps.
  destruct (childPropsFrom_map p (Z.of_nat (List.length (entries (value p)))) 0
              (entries (value p))) as (H1 & H2 & H3).
  split; [exact H1|]. split; [exact H2|]. split; [exact H3|]. split.
  - intros items E. rewrite H1, E. apply indexed_values.
  - intros props E. clear H3. revert H1 H2. rewrite E. cbn [entries].
    generalize (childPropsFrom p (Z.of_nat (List.length props)) 0 props).
    clear E. intros l. revert props.
    induction l as [|cp l IH]; intros [|kv props] H1 H2;
      try discriminate; [reflexivity|].
    cbn [map] in *. injection H1 as Hv H1. injection H2 as Hk H2.
    rewrite Hv, Hk. f_equal. now apply IH.
Qed.

Lemma countPieces_app (f : Piece -> bool) (a b : list Row) :
  countPieces f (a ++ b) = (countPieces f a + countPieces f b)%nat.
Proof. unfold countPieces. now rewrite flat_map_app, filter_app, length_app. Qed.

Lemma countPieces_cons (f : Piece -> bool) (r : Row) (rows : list Row) :
  countPieces f (r :: rows)
  = (List.length (filter f (pieces r)) + countPieces f rows)%nat.
Proof. unfold countPieces. cbn [flat_map]. now rewrite filter_app, length_app. Qed.

Lemma renderKey_no_bracket (p : JsonNodeProps) :
  filter isOpening (renderKey p) = [] /\ filter isClosing (renderKey p) = [].
Proof. unfold renderKey. now destruct (keyName p). Qed.

Lemma renderColon_no_bracket (p : JsonNodeProps) :
  filter isOpening (renderColon p) = [] /\ filter isClosing (renderColon p) = [].
Proof. unfold renderColon. now destruct (keyName p). Qed.

Lemma brackets_of_node (p : JsonNodeProps) :
  isOpening (Bracket (openingBracket p)) = true
  /\ isClosing (Bracket (openingBracket p)) = false
  /\ isOpening (Bracket (closingBracket p)) = false
  /\ isClosing (Bracket (closingBracket p)) = true.
Proof.
  unfold openingBracket, closingBracket.
  destruct (getDataType (value p)); repeat split.
Qed.

Lemma getPreview_no_bracket (p : JsonNodeProps) :
  filter isOpening (getPreview p) = [] /\ filter isClosing (getPreview p) = [].
Proof. unfold getPreview. now destruct (getDataType (value p)). Qed.

Lemma scalarRow_no_bracket (p : JsonNodeProps) (st : JsonNodeState) :
  filter isOpening (pieces (scalarRow p st)) = []
  /\ filter isClosing (pieces (scalarRow p st)) = [].
Proof.
  unfold scalarRow. cbn [pieces]. rewrite !filter_app.
  destruct (renderKey_no_bracket p) as [-> ->].
  destruct (renderColon_no_bracket p) as [-> ->].
  unfold renderValue. destruct (value p), (isLast p); now cbn.
Qed.

Lemma headerRow_brackets (p : JsonNodeProps) (st : JsonNodeState) :
  List.length (filter isOpening (pieces (headerRow p st))) = 1%nat
  /\ List.length (filter isClosing (pieces (headerRow p st)))
     = if expanded st && negb (isEmpty p) then 0%nat else 1%nat.
Proof.
  unfold headerRow. cbn [pieces]. rewrite !filter_app.
  destruct (renderKey_no_bracket p) as [-> ->].
  destruct (renderColon_no_bracket p) as [-> ->].
  destruct (brackets_of_node p) as (B1 & B2 & B3 & B4).
  destruct (getPreview_no_bracket p) as [P1 P2].
  destruct (isEmpty p), (expanded st), (isLast p); cbn [when negb andb orb filter app];
    rewrite ?B1, ?B2, ?B3, ?B4, ?P1, ?P2; cbn; auto.
Qed.

Lemma closingRow_brackets (p : JsonNodeProps) :
  List.length (filter isOpening (pieces (closingRow p))) = 0%nat
  /\ List.length (filter isClosing (pieces (closingRow p))) = 1%nat.
Proof.
  unfold closingRow. cbn [pieces app filter].
  destruct (brackets_of_node p) as (_ & _ & -> & ->).
  destruct (isLast p); cbn; auto.
Qed.

(** X18. In the rows a tree renders, whatever is expanded or
    collapsed in it, the opening and the closing brackets are equal in
    number: every container shows its opening bracket once and its
    closing bracket once, in the header row or in the closing row. *)
Theorem rendered_brackets_balance (n : Instance) :
  countPieces isOpening (render n) = countPieces isClosing (render n).
Proof.
  induction n as [p st d kids IH] using Instance_induction. cbn [render].
  destruct (isExpandable p); cbn [negb].
  - rewrite !countPieces_cons.
    destruct (headerRow_brackets p st) as [-> ->].
    destruct (expanded st && negb (isEmpty p)); cbn [when].
    + rewrite !countPieces_app, !countPieces_cons.
      destruct (closingRow_brackets p) as [-> ->].
      assert (Hkids : countPieces isOpening (flat_map render kids)
                      = countPieces isClosing (flat_map render kids)).
      { induction IH as [|k kids Hk _ IHk]; [reflexivity|].
        cbn [flat_map]. rewrite !countPieces_app. congruence. }
      rewrite Hkids. unfold countPieces at 2 4. cbn. lia.
    + reflexivity.
  - rewrite !countPieces_cons. destruct (scalarRow_no_bracket p st) as [-> ->].
    reflexivity.
Qed.

Lemma isEmpty_expandable (p : JsonNodeProps) :
  isEmpty p = true -> isExpandable p = true.
Proof. unfold isEmpty. intros H. now apply andb_true_iff in H as [H _]. Qed.

(** X19. An empty array or object is one row, the key and the two
    brackets side by side, with no chevron and no preview, the same
    whether the node is expanded or collapsed; it never has children. *)
Theorem empty_container_is_one_row (p : JsonNodeProps) (st : JsonNodeState)
  (d : EffectDeps) (kids : list Instance) :
  isEmpty p = true ->
  map pieces (render (mkInstance p st d kids))
  = [renderKey p ++ renderColon p
     ++ [Bracket (openingBracket p); Bracket (closingBracket p)]
     ++ when (negb (isLast p)) [Comma]]
  /\ instChildren (mountProps p) = []
  /\ instChildren (toggle (mkInstance p st d kids)) = []
  /\ forall e c, instChildren (update (mkInstance p st d kids) e c) = [].
Proof.
  intros He. pose proof (isEmpty_expandable p He) as Hx. split; [|split; [|split]].
  - cbn [render]. rewrite Hx, He. cbn [negb andb when map]. rewrite andb_false_r.
    cbn [when map]. unfold headerRow. cbn [pieces]. rewrite He.
    cbn [negb andb when app]. rewrite andb_false_r, orb_true_r, andb_true_r.
    cbn [when app]. reflexivity.
  - rewrite mountProps_unfold. cbn [instChildren]. rewrite He.
    now rewrite andb_false_r.
  - cbn [toggle instChildren]. rewrite He. now rewrite andb_false_r.
  - intros e c. cbn [update instChildren].
    replace (isEmpty (withSignals p e c)) with (isEmpty p) by reflexivity.
    rewrite He. now rewrite andb_false_r.
Qed.

Lemma empty_container_is_one_row_witness :
  map pieces (render (mountProps (rootProps (JArray []))))
  = [[Bracket (lit "["); Bracket (lit "]")]].
Proof.
  exact (proj1 (empty_container_is_one_row (rootProps (JArray []))
                  (mountEffects (rootProps (JArray []))
                     (initialState (rootProps (JArray []))))
                  (depsOf (rootProps (JArray []))) [] eq_refl)).
Defined.

(** X20. Two clicks on the header of a container restore its own
    state and mount its children afresh: a node as it was mounted is
    back as it was, and whatever had been expanded or collapsed by hand
    below the node is forgotten. *)
Theorem toggle_twice_remounts_children (p : JsonNodeProps) (st : JsonNodeState)
  (d : EffectDeps) (kids : list Instance) :
  toggle (toggle (mkInstance p st d kids))
  = mkInstance p st d
      (if expanded st && negb (isEmpty p) then map mountProps (childProps p) else [])
  /\ toggle (toggle (mountProps p)) = mountProps p.
Proof.
  assert (H : forall st0 d0 kids0,
            toggle (toggle (mkInstance p st0 d0 kids0))
            = mkInstance p st0 d0
                (if expanded st0 && negb (isEmpty p)
                 then map mountProps (childProps p) else [])).
  { intros st0 d0 kids0. cbn [toggle]. unfold handleToggle, setExpanded.
    cbn [expanded hovered copied]. rewrite negb_involutive. now destruct st0. }
  split; [apply H|].
  rewrite mountProps_unfold at 1. rewrite H. symmetry. apply mountProps_unfold.
Qed.

(* ================================================================== *)
(** ** Expand All and Collapse All over the tree *)

(** Every node of a mounted tree is as [mountProps] makes it, with the
    counters of the root. *)
Lemma mounted_nodes (v : JsonValue) :
  forall p m,
    value p = v -> InTree m (mountProps p) ->
    m = mountProps (instProps m)
    /\ expandAllSignal (instProps m) = expandAllSignal p
    /\ collapseAllSignal (instProps m) = collapseAllSignal p.
Proof.
  induction v as [ |b|x|str|items IH|props IH] using JsonValue_induction;
    intros p m Hv Hm;
    apply InTree_mount in Hm as [-> | (cp & Hcp & Hm)];
    try (destruct (mountProps_state p) as [-> _]; auto);
    apply childProps_In in Hcp as (Hin & _ & He' & Hc');
    rewrite Hv in Hin; simpl in Hin; try contradiction.
  - rewrite indexed_values in Hin. rewrite Forall_forall in IH.
    destruct (IH _ Hin cp m eq_refl Hm) as (H1 & H2 & H3).
    split; [exact H1 | split; congruence].
  - rewrite Forall_forall in IH. apply in_map_iff in Hin as (kv & Hkv & Hin).
    destruct (IH _ Hin cp m (eq_sym Hkv) Hm) as (H1 & H2 & H3).
    split; [exact H1 | split; congruence].
Qed.

(** X21. After a re-render with the counters [e] and [c] every node of
    the tree, kept or newly mounted, carries these two counters in its
    props and has recorded them as the values its effects last saw. *)
Theorem update_hands_the_counters_to_every_node (n : Instance) (e c : Z)
  (m : Instance) :
  InTree m (update n e c) ->
  expandAllSignal (instProps m) = e
  /\ collapseAllSignal (instProps m) = c
  /\ instDeps m = {| expandDep := e; collapseDep := c |}.
Proof.
  revert m. induction n as [p st d kids IH] using Instance_induction.
  intros m Hm. cbn [update] in Hm.
  inversion Hm as [Heq | p0 st0 d0 kids0 k Hk Hin]; subst.
  - cbn. auto.
  - destruct (expanded _ && negb _); [|destruct Hk].
    destruct (expanded st).
    + apply in_map_iff in Hk as (k0 & <- & Hk0).
      rewrite Forall_forall in IH. now apply (IH k0 Hk0).
    + apply in_map_iff in Hk as (cp & <- & Hcp).
      apply childProps_In in Hcp as (_ & _ & He & Hc).
      destruct (mounted_nodes _ cp m eq_refl Hin) as (Hm' & H2 & H3).
      cbn [withSignals expandAllSignal collapseAllSignal] in He, Hc.
      split; [congruence|]. split; [congruence|].
      rewrite Hm'. rewrite mountProps_unfold. cbn [instDeps]. unfold depsOf.
      f_equal; congruence.
Qed.

Lemma update_hands_the_counters_to_every_node_witness :
  let n := update (mountProps (rootProps (JArray [JArray [JNull]]))) 0 1 in
  expandAllSignal (instProps (update n 1 1)) = 1
  /\ collapseAllSignal (instProps (update n 1 1)) = 1
  /\ instDeps (update n 1 1) = {| expandDep := 1; collapseDep := 1 |}.
Proof.
  exact (update_hands_the_counters_to_every_node
           (update (mountProps (rootProps (JArray [JArray [JNull]]))) 0 1) 1 1 _
           (InTree_here _)).
Defined.

Lemma childPropsFrom_withSignals (p : JsonNodeProps) (e c len index : Z)
  (es : list (jsstring * JsonValue)) :
  childPropsFrom (withSignals p e c) len index es
  = map (fun cp => withSignals cp e c) (childPropsFrom p len index es).
Proof.
  revert index. induction es as [|[key val] es IH]; intros index; [reflexivity|].
  cbn [childPropsFrom map]. now rewrite IH.
Qed.

Lemma childProps_withSignals (p : JsonNodeProps) (e c : Z) :
  childProps (withSignals p e c) = map (fun cp => withSignals cp e c) (childProps p).
Proof. unfold childProps. apply childPropsFrom_withSignals. Qed.

(** A first Expand All click on a tree as it was mounted. *)
Lemma update_fresh_expand (v : JsonValue) :
  forall p e,
    value p = v -> expandAllSignal p = 0 -> collapseAllSignal p = 0 -> 0 < e ->
    update (mountProps p) e 0 = mountProps (withSignals p e 0).
Proof.
  induction v as [ |b|x|str|items IH|props IH] using JsonValue_induction;
    intros p e Hv He Hc Hpos;
    rewrite (mountProps_unfold p), (mountProps_unfold (withSignals p e 0));
    cbn [update];
    assert (Hst0 : mountEffects p (initialState p) = initialState p)
      by (unfold mountEffects, collapseEffect, expandEffect; now rewrite He, Hc);
    assert (Hst1 : mountEffects (withSignals p e 0) (initialState (withSignals p e 0))
                   = setExpanded true (initialState p))
      by (unfold mountEffects, collapseEffect, expandEffect;
          cbn [withSignals expandAllSignal collapseAllSignal];
          now rewrite (proj2 (Z.ltb_lt 0 e) Hpos));
    assert (Hst' : updateEffects (depsOf p) (withSignals p e 0) (initialState p)
                   = setExpanded true (initialState p))
      by (unfold updateEffects, collapseEffect, expandEffect, depsOf;
          cbn [withSignals expandAllSignal collapseAllSignal expandDep collapseDep];
          rewrite He, Hc, (proj2 (Z.eqb_neq e 0)) by lia;
          now rewrite (proj2 (Z.ltb_lt 0 e) Hpos));
    rewrite Hst0, Hst1, Hst'; f_equal;
    replace (isEmpty (withSignals p e 0)) with (isEmpty p) by reflexivity;
    cbn [initialState setExpanded expanded andb];
    destruct (negb (isEmpty p)) eqn:Hne; try reflexivity;
    destruct (depth p <? 2); cbn [andb]; try reflexivity;
    rewrite map_map, childProps_withSignals, map_map;
    apply map_ext_in; intros cp Hcp;
    apply childProps_In in Hcp as (Hin & _ & He' & Hc');
    rewrite Hv in Hin; simpl in Hin; try contradiction.
  - rewrite indexed_values in Hin. rewrite Forall_forall in IH.
    apply (IH _ Hin); [reflexivity | congruence | congruence | exact Hpos].
  - rewrite Forall_forall in IH. apply in_map_iff in Hin as (kv & Hkv & Hin).
    apply (IH _ Hin); [now symmetry | congruence | congruence | exact Hpos].
Qed.

(** X22. A first click on Expand All, on a tree as it was mounted,
    gives the tree with every container expanded: the same tree as
    mounting the document with the counter already raised, and in it
    every node is expanded. *)
Theorem first_expand_all_opens_every_node (p : JsonNodeProps) (e : Z) :
  expandAllSignal p = 0 -> collapseAllSignal p = 0 -> 0 < e ->
  update (mountProps p) e 0 = mountProps (withSignals p e 0)
  /\ forall m, InTree m (update (mountProps p) e 0) ->
               expanded (instState m) = true.
Proof.
  intros He Hc Hpos.
  pose proof (update_fresh_expand (value p) p e eq_refl He Hc Hpos) as Hup.
  split; [exact Hup|]. rewrite Hup. intros m Hm.
  destruct (mounted_nodes _ _ m eq_refl Hm) as (Hm' & H2 & H3).
  rewrite Hm'. destruct (mountProps_state (instProps m)) as [_ ->].
  rewrite mountEffects_expanded, H2, H3.
  cbn [withSignals expandAllSignal collapseAllSignal].
  now rewrite (proj2 (Z.ltb_lt 0 e) Hpos).
Qed.

Lemma first_expand_all_opens_every_node_witness :
  exists doc,
    JSON.parse nestedDocument = Normal doc
    /\ update (mountProps (rootProps doc)) 1 0
       = mountProps (withSignals (rootProps doc) 1 0)
    /\ List.length (render (update (mountProps (rootProps doc)) 1 0)) = 7%nat.
Proof.
  eexists. split; [vm_compute; reflexivity|].
  split; [|vm_compute; reflexivity].
  refine (proj1 (first_expand_all_opens_every_node (rootProps _) 1 eq_refl eq_refl _)).
  lia.
Defined.

(** X23. A click on Collapse All folds the tree to one row: the root
    becomes collapsed and its children are unmounted, whatever was
    expanded before and whatever the expand counter is. *)
Theorem collapse_all_folds_the_tree (n : Instance) (e c : Z) :
  0 <= collapseDep (instDeps n) -> collapseDep (instDeps n) < c ->
  expanded (instState (update n e c)) = false
  /\ instChildren (update n e c) = []
  /\ List.length (render (update n e c)) = 1%nat.
Proof.
  destruct n as [p st d kids]. cbn [instDeps]. intros H0 Hc.
  assert (Hst : expanded (updateEffects d (withSignals p e c) st) = false).
  { unfold updateEffects, collapseEffect.
    cbn [withSignals collapseAllSignal].
    rewrite (proj2 (Z.eqb_neq c (collapseDep d))) by lia.
    now rewrite (proj2 (Z.ltb_lt 0 c)) by lia. }
  cbn [update instState instChildren render]. rewrite Hst. cbn [andb].
  split; [reflexivity|]. split; [reflexivity|].
  now destruct (negb (isExpandable (withSignals p e c))).
Qed.

Lemma collapse_all_folds_the_tree_witness :
  exists doc,
    JSON.parse nestedDocument = Normal doc
    /\ List.length (render (mountProps (rootProps doc))) = 5%nat
    /\ List.length (render (update (mountProps (rootProps doc)) 0 1)) = 1%nat.
Proof.
  eexists. split; [vm_compute; reflexivity|]. split; [vm_compute; reflexivity|].
  refine (proj2 (proj2 (collapse_all_folds_the_tree (mountProps (rootProps _)) 0 1 _ _)));
    vm_compute; [discriminate | reflexivity].
Defined.

Lemma render_collapsed_mount (cp : JsonNodeProps) :
  0 < collapseAllSignal cp ->
  expanded (instState (mountProps cp)) = false
  /\ instChildren (mountProps cp) = []
  /\ List.length (render (mountProps cp)) = 1%nat.
Proof.
  intros Hc.
  assert (Hst : expanded (mountEffects cp (initialState cp)) = false).
  { rewrite mountEffects_expanded. now rewrite (proj2 (Z.ltb_lt 0 _) Hc). }
  rewrite mountProps_unfold. cbn [instState instChildren render]. rewrite Hst.
  cbn [andb]. split; [reflexivity|]. split; [reflexivity|].
  now destruct (negb (isExpandable cp)).
Qed.

Lemma childProps_length (p : JsonNodeProps) :
  List.length (childProps p) = List.length (entries (value p)).
Proof.
  unfold childProps.
  destruct (childPropsFrom_map p (Z.of_nat (List.length (entries (value p)))) 0
              (entries (value p))) as (H1 & _).
  apply (f_equal (@List.length JsonValue)) in H1. now rewrite !length_map in H1.
Qed.

(** X24. Once Collapse All has been clicked, a click on Expand All
    opens one level only: the collapsed root expands, but each of its
    children is mounted collapsed, since at mount the collapse effect
    runs last on a counter that is no longer zero; the tree shows the
    header row, one row per entry and the closing row. *)
Theorem expand_after_collapse_opens_one_level (n : Instance) (e c : Z) :
  0 < c -> collapseDep (instDeps n) = c ->
  0 <= expandDep (instDeps n) -> expandDep (instDeps n) < e ->
  expanded (instState n) = false ->
  isExpandable (instProps n) = true -> isEmpty (instProps n) = false ->
  expanded (instState (update n e c)) = true
  /\ Forall (fun k => expanded (instState k) = false /\ instChildren k = [])
       (instChildren (update n e c))
  /\ List.length (render (update n e c))
     = (List.length (entries (value (instProps n))) + 2)%nat.
Proof.
  destruct n as [p st d kids]. cbn [instDeps instState instProps].
  intros Hc Hdep He0 He Hst Hx Hne.
  assert (Hst' : expanded (updateEffects d (withSignals p e c) st) = true).
  { unfold updateEffects, expandEffect.
    cbn [withSignals expandAllSignal collapseAllSignal].
    rewrite (proj2 (Z.eqb_neq e (expandDep d))) by lia.
    rewrite (proj2 (Z.ltb_lt 0 e)) by lia.
    now rewrite (proj2 (Z.eqb_eq c (collapseDep d))) by congruence. }
  assert (Hkids : Forall (fun k => expanded (instState k) = false
                                   /\ instChildren k = []
                                   /\ List.length (render k) = 1%nat)
                    (map mountProps (childProps (withSignals p e c)))).
  { apply Forall_forall. intros k Hk. apply in_map_iff in Hk as (cp & <- & Hcp).
    apply childProps_In in Hcp as (_ & _ & _ & Hcc).
    apply render_collapsed_mount. rewrite Hcc. exact Hc. }
  cbn [update instState instChildren render]. rewrite Hst', Hst.
  replace (isEmpty (withSignals p e c)) with (isEmpty p) by reflexivity.
  replace (isExpandable (withSignals p e c)) with (isExpandable p) by reflexivity.
  rewrite Hne, Hx. cbn [andb negb when].
  split; [reflexivity|]. split.
  - eapply Forall_impl; [|exact Hkids]. intros k (H1 & H2 & _). now split.
  - cbn [List.length]. rewrite length_app. cbn [List.length].
    rewrite <- (childProps_length p).
    replace (List.length (childProps p))
      with (List.length (map mountProps (childProps (withSignals p e c))))
      by (now rewrite length_map, childProps_withSignals, length_map).
    induction Hkids as [|k ks (_ & _ & Hk) _ IHk]; [reflexivity|].
    cbn [flat_map List.length]. rewrite length_app, Hk. cbn [List.length] in *. lia.
Qed.

Lemma expand_after_collapse_opens_one_level_witness :
  let doc := JArray [JArray [JNull]; JArray [JNull; JNull]] in
  let collapsed := update (mountProps (rootProps doc)) 0 1 in
  List.length (render (mountProps (rootProps doc))) = 9%nat
  /\ List.length (render (update collapsed 1 1)) = 4%nat.
Proof.
  split; [vm_compute; reflexivity|].
  refine (proj2 (proj2 (expand_after_collapse_opens_one_level
            (update (mountProps (rootProps (JArray [JArray [JNull];
                                                   JArray [JNull; JNull]]))) 0 1)
            1 1 _ _ _ _ _ _ _))); vm_compute; try reflexivity; discriminate.
Defined.

(* ================================================================== *)
(** ** From a node to the clipboard and back into a tab *)

Lemma handlePasteFromClipboard_fails (cb : Clipboard) (st : AppState) :
  readFails cb = true ->
  handlePasteFromClipboard cb st
  = setToast (Some {| msg := lit "Browser blocked access. Please press Ctrl + V";
                      type := toastError |}) st.
Proof.
  unfold readFails, handlePasteFromClipboard, readText. intros H.
  destruct (available cb); cbn [negb bind tryCatch]; [|reflexivity].
  destruct (readGranted cb); cbn [negb bind tryCatch]; [|reflexivity].
  simpl in H. now rewrite H.
Qed.

Lemma handleCopyValue_clipboard (p : JsonNodeProps) (st : JsonNodeState)
  (cb : Clipboard) :
  available cb = true -> writeGranted cb = true ->
  snd (handleCopyValue p st cb)
  = {| available := true; readGranted := readGranted cb; writeGranted := true;
       clipText := textToCopy p |}.
Proof.
  intros Ha Hw. unfold handleCopyValue, copyToClipboard, writeText.
  rewrite Ha, Hw. reflexivity.
Qed.

Lemma parse_nonempty (text : jsstring) (v : JsonValue) :
  JSON.parse text = Normal v -> truthy text = true.
Proof. destruct text; [discriminate | reflexivity]. Qed.

(** X25. Copying a node that is not a string and pasting from the
    clipboard into a tab shows that node's subtree: the tab holds the
    2-space-indented JSON text of the subtree and the viewer is in the
    Loaded state with a value deep-equal to it, when the numbers of the
    document are finite. *)
Theorem copied_subtree_pastes_as_itself (text : jsstring) (doc : JsonValue)
  (p : JsonNodeProps) (nst : JsonNodeState) (cb : Clipboard) (st : AppState)
  (vs : JsonViewerState) :
  JSON.parse text = Normal doc -> numbersFinite doc = true ->
  Subtree (value p) doc -> (forall s, value p <> JString s) ->
  available cb = true -> writeGranted cb = true -> readGranted cb = true ->
  tabsOk st ->
  exists t v',
    activeTab (handlePasteFromClipboard (snd (handleCopyValue p nst cb)) st) = Some t
    /\ id t = activeTabId st
    /\ content t = JSON.stringify (value p) 2
    /\ viewerFor (content t) vs
       = Normal (LoadedState {| keyName := None; value := v'; depth := 0;
                                isLast := true;
                                expandAllSignal := expandSignal vs;
                                collapseAllSignal := collapseSignal vs |})
    /\ deepEqual v' (value p) = true.
Proof.
  intros Hdoc Hfin Hsub Hns Ha Hw Hr Hok.
  apply parse_wellFormed in Hdoc.
  pose proof (Subtree_wellFormed _ _ Hsub Hdoc) as Hwf.
  pose proof (Subtree_numbersFinite _ _ Hsub Hfin) as Hf.
  pose proof (finite_numbers_reread _ Hwf Hf) as Hn.
  pose proof (parse_stringify (value p) 2 Hwf Hn) as Hparse.
  rewrite (handleCopyValue_clipboard p nst cb Ha Hw), (textToCopy_other p Hns).
  rewrite handlePasteFromClipboard_reads
    by (unfold readFails; cbn; rewrite Hr, (parse_nonempty _ _ Hparse); reflexivity).
  cbn [clipText].
  destruct (activeTab_updated (JSON.stringify (value p) 2) st Hok) as (t & Ht & Hid & Hc).
  exists t, (normalize (value p)).
  split; [exact Ht|]. split; [exact Hid|]. split; [exact Hc|]. split.
  - rewrite Hc. now apply viewerFor_value.
  - now apply deepEqual_normalize.
Qed.

Lemma copied_subtree_pastes_as_itself_witness :
  exists doc t v',
    JSON.parse sampleDocument = Normal doc
    /\ activeTab (handlePasteFromClipboard
                    (snd (handleCopyValue (rootProps doc)
                            (initialState (rootProps doc)) grantedClipboard))
                    initialApp) = Some t
    /\ content t = JSON.stringify doc 2
    /\ deepEqual v' doc = true.
Proof.
  eexists.
  match goal with |- exists t v', JSON.parse _ = Normal ?d /\ _ =>
    assert (Hdoc : JSON.parse sampleDocument = Normal d) by (vm_compute; reflexivity);
    assert (Hnum : numbersFinite d = true) by (vm_compute; reflexivity);
    assert (Hsub : Subtree (value (rootProps d)) d) by (simpl; constructor);
    assert (Hns : forall s, value (rootProps d) <> JString s) by (intros s; discriminate);
    assert (Hok : tabsOk initialApp) by (split; simpl; [discriminate | now left]);
    destruct (copied_subtree_pastes_as_itself sampleDocument d (rootProps d)
                (initialState (rootProps d)) grantedClipboard initialApp
                initialViewerState Hdoc Hnum Hsub Hns eq_refl eq_refl eq_refl Hok)
      as (t & v' & H1 & _ & H3 & _ & H5)
  end.
  exists t, v'. auto.
Defined.

(** X26. Copying a string node and pasting from the clipboard does not
    show the string: the tab gets the bare characters, which the viewer
    then reads as JSON text of their own; and for the empty string the
    paste fails with the notice "Browser blocked access. Please press
    Ctrl + V" and the tabs stay as they were. *)
Theorem copied_string_pastes_bare (p : JsonNodeProps) (s : jsstring)
  (nst : JsonNodeState) (cb : Clipboard) (st : AppState) (vs : JsonViewerState) :
  value p = JString s ->
  available cb = true -> writeGranted cb = true -> readGranted cb = true ->
  tabsOk st ->
  (s = [] ->
     handlePasteFromClipboard (snd (handleCopyValue p nst cb)) st
     = setToast (Some {| msg := lit "Browser blocked access. Please press Ctrl + V";
                         type := toastError |}) st)
  /\ (s <> [] ->
      exists t,
        activeTab (handlePasteFromClipboard (snd (handleCopyValue p nst cb)) st)
        = Some t
        /\ content t = s
        /\ forall v, JSON.parse s = Normal v ->
             viewerFor (content t) vs
             = Normal (LoadedState {| keyName := None; value := v; depth := 0;
                                      isLast := true;
                                      expandAllSignal := expandSignal vs;
                                      collapseAllSignal := collapseSignal vs |})).
Proof.
  intros Hv Ha Hw Hr Hok.
  rewrite (handleCopyValue_clipboard p nst cb Ha Hw), (textToCopy_string p s Hv).
  split.
  - intros ->. apply handlePasteFromClipboard_fails. unfold readFails. cbn.
    now rewrite orb_true_r.
  - intros Hne.
    rewrite handlePasteFromClipboard_reads
      by (unfold readFails; cbn; rewrite Hr; destruct s; [contradiction | reflexivity]).
    cbn [clipText].
    destruct (activeTab_updated s st Hok) as (t & Ht & _ & Hc).
    exists t. split; [exact Ht|]. split; [exact Hc|].
    intros v Hp. rewrite Hc. now apply viewerFor_value.
Qed.

Lemma copied_string_pastes_bare_witness :
  exists t,
    activeTab (handlePasteFromClipboard
                 (snd (handleCopyValue (rootProps (JString (lit "12")))
                         (initialState (rootProps (JString (lit "12"))))
                         grantedClipboard)) initialApp) = Some t
    /\ content t = lit "12"
    /\ exists x, viewerFor (content t) initialViewerState
                 = Normal (LoadedState (rootProps (JNumber x))).
Proof.
  assert (Hok : tabsOk initialApp) by (split; simpl; [discriminate | now left]).
  destruct (proj2 (copied_string_pastes_bare (rootProps (JString (lit "12")))
                     (lit "12") (initialState (rootProps (JString (lit "12"))))
                     grantedClipboard initialApp initialViewerState
                     eq_refl eq_refl eq_refl eq_refl Hok))
    as (t & H1 & H2 & H3); [discriminate|].
  exists t. split; [exact H1|]. split; [exact H2|].
  eexists. apply H3. vm_compute. reflexivity.
Defined.

(** X27. The text a node shows for a finite number of a loaded
    document is [String(value)], and that text is a JSON number that
    reads back as the same number (as 0 for -0). *)
Theorem displayed_number_reads_back (text : jsstring) (doc : JsonValue)
  (p : JsonNodeProps) (x : number) :
  JSON.parse text = Normal doc -> Subtree (value p) doc ->
  value p = JNumber x -> isFinite x = true ->
  renderValue p = [Literal NUMBER (toString x)]
  /\ JSON.parse (toString x) = Normal (JNumber (unsigned x)).
Proof.
  intros Hdoc Hsub Hv Hf. split; [unfold renderValue; now rewrite Hv|].
  apply parse_wellFormed in Hdoc.
  pose proof (Subtree_wellFormed _ _ Hsub Hdoc) as Hwf. rewrite Hv in Hwf.
  pose proof (parse_stringify (JNumber x) 2 Hwf
                (finite_numbers_reread (JNumber x) Hwf Hf)) as Hparse.
  unfold JSON.stringify in Hparse. cbn [JSON.serialize normalize] in Hparse.
  now rewrite Hf in Hparse.
Qed.

Lemma displayed_number_reads_back_witness :
  exists x,
    renderValue (rootProps (JNumber x)) = [Literal NUMBER (lit "0.1")]
    /\ JSON.parse (toString x) = Normal (JNumber (unsigned x)).
Proof.
  eexists.
  match goal with |- renderValue (rootProps (JNumber ?x)) = _ /\ _ =>
    assert (Hdoc : JSON.parse (lit "0.1") = Normal (JNumber x))
      by (vm_compute; reflexivity);
    destruct (displayed_number_reads_back (lit "0.1") (JNumber x)
                (rootProps (JNumber x)) x Hdoc (Subtree_here _) eq_refl eq_refl)
      as [H1 H2]
  end.
  split; [|exact H2]. rewrite H1. vm_compute. reflexivity.
Defined.

(** X28. Content that is not blank and that [JSON.parse] rejects puts
    the viewer in the Error state, showing the message of the syntax
    error, which is never empty. *)
Theorem unparsable_content_shows_the_error (content : jsstring)
  (vs : JsonViewerState) (e : Thrown) :
  ~ Forall (fun c => isWhiteSpace c = true) content ->
  JSON.parse content = Throw e ->
  exists err,
    e = JSON.syntaxError err
    /\ JSON.message err <> []
    /\ viewerFor content vs = Normal (ErrorState (JSON.message err)).
Proof.
  intros Hnb Hp.
  assert (Ht : truthy (trim content) = true).
  { destruct (trim content) eqn:E; [|reflexivity].
    exfalso. apply Hnb. now apply trim_blank. }
  destruct (parse_throws _ _ Hp) as (err & -> & Hm).
  exists err. split; [reflexivity|]. split.
  - intros E. now rewrite E in Hm.
  - unfold viewerFor, parseEffect. rewrite Ht, (safeJsonParse_error _ _ _ Hp).
    cbn [negb bind parsed error]. unfold JsonViewer, errorShown.
    cbn [viewerError data]. now rewrite Hm.
Qed.

Lemma unparsable_content_shows_the_error_witness :
  viewerFor (lit "{a:1}") initialViewerState
  = Normal (ErrorState (lit "Unexpected token a in JSON")).
Proof.
  assert (Hnb : ~ Forall (fun c => isWhiteSpace c = true) (lit "{a:1}")).
  { intros H. inversion H as [|c l Hc _]; subst. vm_compute in Hc. discriminate. }
  destruct (unparsable_content_shows_the_error (lit "{a:1}") initialViewerState
              (JSON.syntaxError (JSON.UnexpectedToken 97%N)) Hnb eq_refl)
    as (err & He & _ & Hv).
  rewrite Hv. unfold JSON.syntaxError in He. injection He as He.
  rewrite <- He. reflexivity.
Defined.
